(** * The execute/commit engine of the Minor in-order pipeline model

    A shallow embedding of [src/cpu/minor/execute.cc] (class [Execute]) and
    of the parts of [dyn_inst.cc] and [exec_context.hh] that [Execute]
    relies on.  The engine state is an explicit record threaded through
    every function; the dynamic instructions live in a store indexed by
    pointer, because issue and commit decorate the same object through
    several queues.  Everything outside these files (the ISA, the memory
    queues, the scoreboard, the functional-unit pipelines, the interrupt
    controller) is an interface: its operations are fields of the class
    [Collaborators] and every call that matters is recorded in a log.

    Debug printing (DPRINTF), symbol-table lookups and trace data are left
    out: they do not feed back into the engine. *)

From Stdlib Require Import ZArith List Bool Lia String.
From stdpp Require Import base list functions relations.
Import ListNotations.
Open Scope Z_scope.

(** ** Machine integers *)

(** [uint64_t] arithmetic ([InstSeqNum], [Cycles]) and [unsigned int]
    arithmetic (loop counters and indices) wrap around. *)
Definition wrap64 (z : Z) : Z := z mod 2 ^ 64.
Definition wrap32 (z : Z) : Z := z mod 2 ^ 32.

Definition ThreadID := Z.
Definition InstSeqNum := Z.
Definition Cycles := Z.
Definition Tick := Z.
Definition OpClass := Z.

(** [streamSeqNum++] *)
Definition InstSeqNum_inc (n : InstSeqNum) : InstSeqNum := wrap64 (n + 1).
(** [Cycles::operator+] *)
Definition Cycles_add (a b : Cycles) : Cycles := wrap64 (a + b).
(** [x++] on an [unsigned int] *)
Definition uint_inc (n : Z) : Z := wrap32 (n + 1).

(** [No_OpClass], the first enumerator of [OpClass]. *)
Definition No_OpClass : OpClass := 0.

(** ** Types owned by the collaborators *)

Class IsaTypes := {
  PCState : Type;     (* TheISA::PCState *)
  FaultObj : Type;    (* a FaultBase object; [Fault] is a nullable pointer *)
  Arch : Type;        (* registers and the rest of SimpleThread *)
  LSQ : Type;         (* the memory queues *)
  Scoreboard : Type;
  FUPipe : Type;      (* the stages inside one FUPipeline *)
  TimingExpr : Type;
  Packet : Type;
  Sys : Type;         (* system, event queues, interrupt controller *)
}.

Definition Fault `{IsaTypes} : Type := option FaultObj.
Definition NoFault `{IsaTypes} : Fault := None.
Definition isNoFault `{IsaTypes} (f : Fault) : bool :=
  match f with None => true | Some _ => false end.

(** A [MinorDynInstPtr]: either the shared, immortal bubble
    ([MinorDynInst::bubble()]) or a reference into the store. *)
Inductive InstPtr := BubblePtr | Ptr (n : nat).

Global Instance InstPtr_eq_dec : EqDecision InstPtr.
Proof. solve_decision. Defined.

Definition InstPtr_eqb (p q : InstPtr) : bool := bool_decide (p = q).

(** ** Static instructions: the flags [Execute] asks for *)
Module StaticInst.
Record t := mk {
  sid : Z;
  opClass : OpClass;
  isControl : bool;
  isMicroop : bool;
  isFirstMicroop : bool;
  isLastMicroop : bool;
  isSerializeAfter : bool;
  isIprAccess : bool;
  isMemRef : bool;
  isLoad : bool;
  isStore : bool;
  isDataPrefetch : bool;
  isPrefetch : bool;
  isMemBarrier : bool;
}.
End StaticInst.

(** ** Instruction identity *)
Module InstId.
Record t := mk {
  threadId : ThreadID;
  streamSeqNum : InstSeqNum;
  predictionSeqNum : InstSeqNum;
  lineSeqNum : InstSeqNum;
  fetchSeqNum : InstSeqNum;
  execSeqNum : InstSeqNum;
}.
(** [InstId()] *)
Definition zero : t := mk 0 0 0 0 0 0.
(** [InstId::operator==] *)
Definition eqb (a b : t) : bool :=
  (threadId a =? threadId b) && (streamSeqNum a =? streamSeqNum b) &&
  (predictionSeqNum a =? predictionSeqNum b) &&
  (lineSeqNum a =? lineSeqNum b) && (fetchSeqNum a =? fetchSeqNum b) &&
  (execSeqNum a =? execSeqNum b).
End InstId.

(** ** Dynamic instructions *)
Module MinorDynInst.
Section Def.
Context `{IsaTypes}.

Record t := mk {
  id : InstId.t;
  pc : PCState;
  staticInst : option StaticInst.t;
  fault : Fault;
  predictedTaken : bool;
  predictedTarget : PCState;
  fuIndex : Z;
  inLSQ : bool;
  canEarlyIssue : bool;
  instToWaitFor : InstSeqNum;
  extraCommitDelay : Cycles;
  extraCommitDelayExpr : option TimingExpr;
  minimumCommitCycle : Cycles;
}.

Definition set_fuIndex (v : Z) (s : t) : t :=
  {| id := id s; pc := pc s; staticInst := staticInst s; fault := fault s;
     predictedTaken := predictedTaken s;
     predictedTarget := predictedTarget s; fuIndex := v; inLSQ := inLSQ s;
     canEarlyIssue := canEarlyIssue s; instToWaitFor := instToWaitFor s;
     extraCommitDelay := extraCommitDelay s;
     extraCommitDelayExpr := extraCommitDelayExpr s;
     minimumCommitCycle := minimumCommitCycle s |}.
Definition set_inLSQ (v : bool) (s : t) : t :=
  {| id := id s; pc := pc s; staticInst := staticInst s; fault := fault s;
     predictedTaken := predictedTaken s;
     predictedTarget := predictedTarget s; fuIndex := fuIndex s; inLSQ := v;
     canEarlyIssue := canEarlyIssue s; instToWaitFor := instToWaitFor s;
     extraCommitDelay := extraCommitDelay s;
     extraCommitDelayExpr := extraCommitDelayExpr s;
     minimumCommitCycle := minimumCommitCycle s |}.
Definition set_canEarlyIssue (v : bool) (s : t) : t :=
  {| id := id s; pc := pc s; staticInst := staticInst s; fault := fault s;
     predictedTaken := predictedTaken s;
     predictedTarget := predictedTarget s; fuIndex := fuIndex s;
     inLSQ := inLSQ s; canEarlyIssue := v; instToWaitFor := instToWaitFor s;
     extraCommitDelay := extraCommitDelay s;
     extraCommitDelayExpr := extraCommitDelayExpr s;
     minimumCommitCycle := minimumCommitCycle s |}.
Definition set_instToWaitFor (v : InstSeqNum) (s : t) : t :=
  {| id := id s; pc := pc s; staticInst := staticInst s; fault := fault s;
     predictedTaken := predictedTaken s;
     predictedTarget := predictedTarget s; fuIndex := fuIndex s;
     inLSQ := inLSQ s; canEarlyIssue := canEarlyIssue s; instToWaitFor := v;
     extraCommitDelay := extraCommitDelay s;
     extraCommitDelayExpr := extraCommitDelayExpr s;
     minimumCommitCycle := minimumCommitCycle s |}.
Definition set_extraCommitDelay (v : Cycles) (s : t) : t :=
  {| id := id s; pc := pc s; staticInst := staticInst s; fault := fault s;
     predictedTaken := predictedTaken s;
     predictedTarget := predictedTarget s; fuIndex := fuIndex s;
     inLSQ := inLSQ s; canEarlyIssue := canEarlyIssue s;
     instToWaitFor := instToWaitFor s; extraCommitDelay := v;
     extraCommitDelayExpr := extraCommitDelayExpr s;
     minimumCommitCycle := minimumCommitCycle s |}.
Definition set_extraCommitDelayExpr (v : option TimingExpr) (s : t) : t :=
  {| id := id s; pc := pc s; staticInst := staticInst s; fault := fault s;
     predictedTaken := predictedTaken s;
     predictedTarget := predictedTarget s; fuIndex := fuIndex s;
     inLSQ := inLSQ s; canEarlyIssue := canEarlyIssue s;
     instToWaitFor := instToWaitFor s;
     extraCommitDelay := extraCommitDelay s; extraCommitDelayExpr := v;
     minimumCommitCycle := minimumCommitCycle s |}.
Definition set_minimumCommitCycle (v : Cycles) (s : t) : t :=
  {| id := id s; pc := pc s; staticInst := staticInst s; fault := fault s;
     predictedTaken := predictedTaken s;
     predictedTarget := predictedTarget s; fuIndex := fuIndex s;
     inLSQ := inLSQ s; canEarlyIssue := canEarlyIssue s;
     instToWaitFor := instToWaitFor s;
     extraCommitDelay := extraCommitDelay s;
     extraCommitDelayExpr := extraCommitDelayExpr s;
     minimumCommitCycle := v |}.

(** A flag of the static instruction.  [Execute] only asks for one on
    real instructions, whose [staticInst] is set; on a null pointer the
    source would fault, the model reads [false]. *)
Definition sflag (f : StaticInst.t -> bool) (i : t) : bool :=
  match staticInst i with Some si => f si | None => false end.

Definition isFault (i : t) : bool := negb (isNoFault (fault i)).

(** [MinorDynInst::isLastOpInInst] *)
Definition isLastOpInInst (i : t) : bool :=
  negb (sflag StaticInst.isMicroop i && negb (sflag StaticInst.isLastMicroop i)).

End Def.
End MinorDynInst.

(** ** Redirects sent back to fetch *)
Inductive Reason :=
  | NoBranch
  | CorrectlyPredictedBranch
  | UnpredictedBranch
  | BadlyPredictedBranchTarget
  | BadlyPredictedBranch
  | SuspendThread
  | Interrupt
  | WakeupFetch
  | HaltFetch.

Global Instance Reason_eq_dec : EqDecision Reason.
Proof. solve_decision. Defined.

(** Modelled from the spec: [BranchData::isStreamChange] is defined in
    pipe_data.cc, outside the files embedded here.  Section 3 of the spec:
    "Any reason other than NoBranch that represents a genuine stream change
    increments newStreamSeqNum"; a correctly predicted branch leaves fetch
    on the stream it already follows ([tryToBranch]: "kill the branch and
    carry on"), every other redirect makes fetch start a new stream. *)
Definition Reason_isStreamChange (r : Reason) : bool :=
  match r with
  | NoBranch | CorrectlyPredictedBranch => false
  | _ => true
  end.

Module BranchData.
Section Def.
Context `{IsaTypes}.
Record t := mk {
  reason : Reason;
  newStreamSeqNum : InstSeqNum;
  newPredictionSeqNum : InstSeqNum;
  target : PCState;
  inst : InstPtr;
}.
(** [BranchData::isBubble]: no redirect is carried. *)
Definition isBubble (b : t) : bool := bool_decide (reason b = NoBranch).
Definition isStreamChange (b : t) : bool := Reason_isStreamChange (reason b).
End Def.
End BranchData.

(** ** Threads and the world seen through an ExecContext *)
Inductive Status := Active | Suspended | Halted.

Global Instance Status_eq_dec : EqDecision Status.
Proof. solve_decision. Defined.

Module ThreadContext.
Section Def.
Context `{IsaTypes}.
Record t := mk {
  status : Status;
  pcState : PCState;
  predicate : bool;
  arch : Arch;
}.
Definition set_status (v : Status) (s : t) : t :=
  {| status := v; pcState := pcState s; predicate := predicate s;
     arch := arch s |}.
Definition set_pcState (v : PCState) (s : t) : t :=
  {| status := status s; pcState := v; predicate := predicate s;
     arch := arch s |}.
Definition set_predicate (v : bool) (s : t) : t :=
  {| status := status s; pcState := pcState s; predicate := v;
     arch := arch s |}.
Definition set_arch (v : Arch) (s : t) : t :=
  {| status := status s; pcState := pcState s; predicate := predicate s;
     arch := v |}.
End Def.
End ThreadContext.

Module World.
Section Def.
Context `{IsaTypes}.
(** What an instruction, a fault or a memory-queue call can reach:
    the thread contexts, the memory queues, the fault-injection latch
    ([Execute::faultIsInjected], written from [ExecContext]) and the
    rest of the system. *)
Record t := mk {
  threads : ThreadID -> ThreadContext.t;
  lsq : LSQ;
  faultIsInjected : bool;
  sys : Sys;
}.
Definition set_threads (v : ThreadID -> ThreadContext.t) (s : t) : t :=
  {| threads := v; lsq := lsq s; faultIsInjected := faultIsInjected s;
     sys := sys s |}.
Definition set_lsq (v : LSQ) (s : t) : t :=
  {| threads := threads s; lsq := v; faultIsInjected := faultIsInjected s;
     sys := sys s |}.
Definition set_faultIsInjected (v : bool) (s : t) : t :=
  {| threads := threads s; lsq := lsq s; faultIsInjected := v;
     sys := sys s |}.
Definition set_sys (v : Sys) (s : t) : t :=
  {| threads := threads s; lsq := lsq s;
     faultIsInjected := faultIsInjected s; sys := v |}.
Definition upd_thread (tid : ThreadID)
    (f : ThreadContext.t -> ThreadContext.t) (w : t) : t :=
  set_threads (<[tid := f (threads w tid)]> (threads w)) w.
End Def.
End World.

(** A response at the head of the memory queue's transfers
    ([LSQ::LSQRequest]). *)
Module LSQRequest.
Section Def.
Context `{IsaTypes}.
Record t := mk {
  inst : InstPtr;
  fault : Fault;
  packet : option Packet;
  needsToBeSentToStoreBuffer : bool;
}.
End Def.
End LSQRequest.

(** Per-opcode timing overrides of a functional unit ([MinorFUTiming]). *)
Module MinorFUTiming.
Section Def.
Context `{IsaTypes}.
Record t := mk {
  suppress : bool;
  extraCommitLat : Cycles;
  extraCommitLatExpr : option TimingExpr;
  extraAssumedLat : Cycles;
  srcRegsRelativeLats : list Cycles;
}.
End Def.
End MinorFUTiming.

(** One functional-unit pipeline: its description's latency, the public
    [stalled] flag and the stages. *)
Module FUPipeline.
Section Def.
Context `{IsaTypes}.
Record t := mk {
  opLat : Cycles;
  cantForwardFromFUIndices : list bool;
  stalled : bool;
  pipe : FUPipe;
}.
Definition set_stalled (v : bool) (f : t) : t :=
  {| opLat := opLat f; cantForwardFromFUIndices := cantForwardFromFUIndices f;
     stalled := v; pipe := pipe f |}.
Definition set_pipe (v : FUPipe) (f : t) : t :=
  {| opLat := opLat f; cantForwardFromFUIndices := cantForwardFromFUIndices f;
     stalled := stalled f; pipe := v |}.
End Def.
End FUPipeline.

(** The counters of [MinorStats] that the engine bumps. *)
Module Stats.
Record t := mk {
  numInsts : Z;
  numOps : Z;
  numDiscardedOps : Z;
  numFetchSuspends : Z;
}.
Definition set_numInsts (v : Z) (s : t) : t :=
  {| numInsts := v; numOps := numOps s; numDiscardedOps := numDiscardedOps s;
     numFetchSuspends := numFetchSuspends s |}.
Definition set_numOps (v : Z) (s : t) : t :=
  {| numInsts := numInsts s; numOps := v;
     numDiscardedOps := numDiscardedOps s;
     numFetchSuspends := numFetchSuspends s |}.
Definition set_numDiscardedOps (v : Z) (s : t) : t :=
  {| numInsts := numInsts s; numOps := numOps s; numDiscardedOps := v;
     numFetchSuspends := numFetchSuspends s |}.
Definition set_numFetchSuspends (v : Z) (s : t) : t :=
  {| numInsts := numInsts s; numOps := numOps s;
     numDiscardedOps := numDiscardedOps s; numFetchSuspends := v |}.
End Stats.

(** ** The log of collaborator calls *)
Section Events.
Context `{IsaTypes}.
Inductive Event :=
  | EvExecute (p : InstPtr)                 (* staticInst->execute *)
  | EvInitiateAcc (p : InstPtr)             (* staticInst->initiateAcc *)
  | EvCompleteAcc (p : InstPtr)             (* staticInst->completeAcc *)
  | EvFaultInvoke (f : FaultObj)            (* fault->invoke *)
  | EvSetPC (tid : ThreadID) (pc : PCState) (* thread->pcState(target) *)
  | EvBranch (b : BranchData.t)             (* branch = BranchData(...) *)
  | EvCommitAccounting (p : InstPtr)        (* doInstCommitAccounting *)
  | EvEvalExpr (p : InstPtr) (e : TimingExpr)
  | EvPCEventService
  | EvPopResponse (p : InstPtr)
  | EvPushFailedRequest (p : InstPtr)
  | EvSendStoreToStoreBuffer (p : InstPtr)
  | EvIssuedMemBarrier (p : InstPtr)
  | EvCompleteMemBarrier (p : InstPtr) (committed : bool)
  | EvMarkupInstDests (p : InstPtr) (retire_time : Cycles)
      (mark_unpredictable : bool)
  | EvClearInstDests (p : InstPtr) (clear_unpredictable : bool)
  | EvPushFU (fu_index : Z) (p : InstPtr)
  | EvLsqStep
  | EvActivity
  | EvWakeup.

(** How many events of a log satisfy [P]. *)
Fixpoint count_events (P : Event -> bool) (l : list Event) : nat :=
  match l with
  | [] => O
  | e :: l' => ((if P e then 1 else 0) + count_events P l')%nat
  end.

(** Events other than the evaluation of a timing expression. *)
Definition not_eval (e : Event) : bool :=
  match e with EvEvalExpr _ _ => false | _ => true end.

Definition is_branch (e : Event) : bool :=
  match e with EvBranch _ => true | _ => false end.

(** The calls that change what the program being simulated can observe. *)
Definition is_arch_effect (e : Event) : bool :=
  match e with
  | EvExecute _ | EvInitiateAcc _ | EvCompleteAcc _
  | EvFaultInvoke _ | EvSetPC _ _ => true
  | _ => false
  end.
End Events.

(** ** Configuration and engine state *)
Module Params.
Record t := mk {
  executeIssueLimit : Z;
  executeMemoryIssueLimit : Z;
  executeCommitLimit : Z;
  executeMemoryCommitLimit : Z;
  executeInputBufferSize : Z;
  executeCycleInput : bool;
  executeAllowEarlyMemoryIssue : bool;
  FItarget : Z;
  FItargetReg : Z;
  ScoreboardFI : bool;
}.
End Params.

Inductive DrainState :=
  | NotDraining | DrainCurrentInst | DrainHaltFetch | DrainAllInsts.

Global Instance DrainState_eq_dec : EqDecision DrainState.
Proof. solve_decision. Defined.

(** A line of instructions from decode ([ForwardInstData]); its width is
    the length of the list. *)
Definition ForwardInstData := list InstPtr.

Module Execute.
Section Def.
Context `{IsaTypes}.
Record t := mk {
  params : Params.t;
  curCycle : Cycles;                     (* cpu.curCycle() *)
  curTick : Tick;                        (* curTick() *)
  inputBuffer : list ForwardInstData;
  inputIndex : Z;
  lastCommitWasEndOfMacroop : bool;
  streamSeqNum : InstSeqNum;
  lastPredictionSeqNum : InstSeqNum;
  drainState : DrainState;
  funcUnits : list FUPipeline.t;
  inFlightInsts : list InstPtr;
  inFUMemInsts : list InstPtr;
  scoreboard : Scoreboard;
  insts : nat -> MinorDynInst.t;         (* the objects behind the pointers *)
  world : World.t;
  stats : Stats.t;
  log : list Event;                      (* newest first *)
}.
Definition set_inputBuffer (v : list ForwardInstData) (s : t) : t :=
  {| params := params s; curCycle := curCycle s; curTick := curTick s;
     inputBuffer := v; inputIndex := inputIndex s;
     lastCommitWasEndOfMacroop := lastCommitWasEndOfMacroop s;
     streamSeqNum := streamSeqNum s;
     lastPredictionSeqNum := lastPredictionSeqNum s;
     drainState := drainState s; funcUnits := funcUnits s;
     inFlightInsts := inFlightInsts s; inFUMemInsts := inFUMemInsts s;
     scoreboard := scoreboard s; insts := insts s; world := world s;
     stats := stats s; log := log s |}.
Definition set_inputIndex (v : Z) (s : t) : t :=
  {| params := params s; curCycle := curCycle s; curTick := curTick s;
     inputBuffer := inputBuffer s; inputIndex := v;
     lastCommitWasEndOfMacroop := lastCommitWasEndOfMacroop s;
     streamSeqNum := streamSeqNum s;
     lastPredictionSeqNum := lastPredictionSeqNum s;
     drainState := drainState s; funcUnits := funcUnits s;
     inFlightInsts := inFlightInsts s; inFUMemInsts := inFUMemInsts s;
     scoreboard := scoreboard s; insts := insts s; world := world s;
     stats := stats s; log := log s |}.
Definition set_lastCommitWasEndOfMacroop (v : bool) (s : t) : t :=
  {| params := params s; curCycle := curCycle s; curTick := curTick s;
     inputBuffer := inputBuffer s; inputIndex := inputIndex s;
     lastCommitWasEndOfMacroop := v; streamSeqNum := streamSeqNum s;
     lastPredictionSeqNum := lastPredictionSeqNum s;
     drainState := drainState s; funcUnits := funcUnits s;
     inFlightInsts := inFlightInsts s; inFUMemInsts := inFUMemInsts s;
     scoreboard := scoreboard s; insts := insts s; world := world s;
     stats := stats s; log := log s |}.
Definition set_streamSeqNum (v : InstSeqNum) (s : t) : t :=
  {| params := params s; curCycle := curCycle s; curTick := curTick s;
     inputBuffer := inputBuffer s; inputIndex := inputIndex s;
     lastCommitWasEndOfMacroop := lastCommitWasEndOfMacroop s;
     streamSeqNum := v; lastPredictionSeqNum := lastPredictionSeqNum s;
     drainState := drainState s; funcUnits := funcUnits s;
     inFlightInsts := inFlightInsts s; inFUMemInsts := inFUMemInsts s;
     scoreboard := scoreboard s; insts := insts s; world := world s;
     stats := stats s; log := log s |}.
Definition set_lastPredictionSeqNum (v : InstSeqNum) (s : t) : t :=
  {| params := params s; curCycle := curCycle s; curTick := curTick s;
     inputBuffer := inputBuffer s; inputIndex := inputIndex s;
     lastCommitWasEndOfMacroop := lastCommitWasEndOfMacroop s;
     streamSeqNum := streamSeqNum s; lastPredictionSeqNum := v;
     drainState := drainState s; funcUnits := funcUnits s;
     inFlightInsts := inFlightInsts s; inFUMemInsts := inFUMemInsts s;
     scoreboard := scoreboard s; insts := insts s; world := world s;
     stats := stats s; log := log s |}.
Definition set_drainState (v : DrainState) (s : t) : t :=
  {| params := params s; curCycle := curCycle s; curTick := curTick s;
     inputBuffer := inputBuffer s; inputIndex := inputIndex s;
     lastCommitWasEndOfMacroop := lastCommitWasEndOfMacroop s;
     streamSeqNum := streamSeqNum s;
     lastPredictionSeqNum := lastPredictionSeqNum s; drainState := v;
     funcUnits := funcUnits s; inFlightInsts := inFlightInsts s;
     inFUMemInsts := inFUMemInsts s; scoreboard := scoreboard s;
     insts := insts s; world := world s; stats := stats s; log := log s |}.
Definition set_funcUnits (v : list FUPipeline.t) (s : t) : t :=
  {| params := params s; curCycle := curCycle s; curTick := curTick s;
     inputBuffer := inputBuffer s; inputIndex := inputIndex s;
     lastCommitWasEndOfMacroop := lastCommitWasEndOfMacroop s;
     streamSeqNum := streamSeqNum s;
     lastPredictionSeqNum := lastPredictionSeqNum s;
     drainState := drainState s; funcUnits := v;
     inFlightInsts := inFlightInsts s; inFUMemInsts := inFUMemInsts s;
     scoreboard := scoreboard s; insts := insts s; world := world s;
     stats := stats s; log := log s |}.
Definition set_inFlightInsts (v : list InstPtr) (s : t) : t :=
  {| params := params s; curCycle := curCycle s; curTick := curTick s;
     inputBuffer := inputBuffer s; inputIndex := inputIndex s;
     lastCommitWasEndOfMacroop := lastCommitWasEndOfMacroop s;
     streamSeqNum := streamSeqNum s;
     lastPredictionSeqNum := lastPredictionSeqNum s;
     drainState := drainState s; funcUnits := funcUnits s;
     inFlightInsts := v; inFUMemInsts := inFUMemInsts s;
     scoreboard := scoreboard s; insts := insts s; world := world s;
     stats := stats s; log := log s |}.
Definition set_inFUMemInsts (v : list InstPtr) (s : t) : t :=
  {| params := params s; curCycle := curCycle s; curTick := curTick s;
     inputBuffer := inputBuffer s; inputIndex := inputIndex s;
     lastCommitWasEndOfMacroop := lastCommitWasEndOfMacroop s;
     streamSeqNum := streamSeqNum s;
     lastPredictionSeqNum := lastPredictionSeqNum s;
     drainState := drainState s; funcUnits := funcUnits s;
     inFlightInsts := inFlightInsts s; inFUMemInsts := v;
     scoreboard := scoreboard s; insts := insts s; world := world s;
     stats := stats s; log := log s |}.
Definition set_scoreboard (v : Scoreboard) (s : t) : t :=
  {| params := params s; curCycle := curCycle s; curTick := curTick s;
     inputBuffer := inputBuffer s; inputIndex := inputIndex s;
     lastCommitWasEndOfMacroop := lastCommitWasEndOfMacroop s;
     streamSeqNum := streamSeqNum s;
     lastPredictionSeqNum := lastPredictionSeqNum s;
     drainState := drainState s; funcUnits := funcUnits s;
     inFlightInsts := inFlightInsts s; inFUMemInsts := inFUMemInsts s;
     scoreboard := v; insts := insts s; world := world s; stats := stats s;
     log := log s |}.
Definition set_insts (v : nat -> MinorDynInst.t) (s : t) : t :=
  {| params := params s; curCycle := curCycle s; curTick := curTick s;
     inputBuffer := inputBuffer s; inputIndex := inputIndex s;
     lastCommitWasEndOfMacroop := lastCommitWasEndOfMacroop s;
     streamSeqNum := streamSeqNum s;
     lastPredictionSeqNum := lastPredictionSeqNum s;
     drainState := drainState s; funcUnits := funcUnits s;
     inFlightInsts := inFlightInsts s; inFUMemInsts := inFUMemInsts s;
     scoreboard := scoreboard s; insts := v; world := world s;
     stats := stats s; log := log s |}.
Definition set_world (v : World.t) (s : t) : t :=
  {| params := params s; curCycle := curCycle s; curTick := curTick s;
     inputBuffer := inputBuffer s; inputIndex := inputIndex s;
     lastCommitWasEndOfMacroop := lastCommitWasEndOfMacroop s;
     streamSeqNum := streamSeqNum s;
     lastPredictionSeqNum := lastPredictionSeqNum s;
     drainState := drainState s; funcUnits := funcUnits s;
     inFlightInsts := inFlightInsts s; inFUMemInsts := inFUMemInsts s;
     scoreboard := scoreboard s; insts := insts s; world := v;
     stats := stats s; log := log s |}.
Definition set_stats (v : Stats.t) (s : t) : t :=
  {| params := params s; curCycle := curCycle s; curTick := curTick s;
     inputBuffer := inputBuffer s; inputIndex := inputIndex s;
     lastCommitWasEndOfMacroop := lastCommitWasEndOfMacroop s;
     streamSeqNum := streamSeqNum s;
     lastPredictionSeqNum := lastPredictionSeqNum s;
     drainState := drainState s; funcUnits := funcUnits s;
     inFlightInsts := inFlightInsts s; inFUMemInsts := inFUMemInsts s;
     scoreboard := scoreboard s; insts := insts s; world := world s;
     stats := v; log := log s |}.
Definition set_log (v : list Event) (s : t) : t :=
  {| params := params s; curCycle := curCycle s; curTick := curTick s;
     inputBuffer := inputBuffer s; inputIndex := inputIndex s;
     lastCommitWasEndOfMacroop := lastCommitWasEndOfMacroop s;
     streamSeqNum := streamSeqNum s;
     lastPredictionSeqNum := lastPredictionSeqNum s;
     drainState := drainState s; funcUnits := funcUnits s;
     inFlightInsts := inFlightInsts s; inFUMemInsts := inFUMemInsts s;
     scoreboard := scoreboard s; insts := insts s; world := world s;
     stats := stats s; log := v |}.

Definition issueLimit (s : t) : Z := Params.executeIssueLimit (params s).
Definition memoryIssueLimit (s : t) : Z :=
  Params.executeMemoryIssueLimit (params s).
Definition commitLimit (s : t) : Z := Params.executeCommitLimit (params s).
Definition memoryCommitLimit (s : t) : Z :=
  Params.executeMemoryCommitLimit (params s).
Definition processMoreThanOneInput (s : t) : bool :=
  Params.executeCycleInput (params s).
Definition allowEarlyMemIssue (s : t) : bool :=
  Params.executeAllowEarlyMemoryIssue (params s).
(** [numFuncUnits(fuDescriptions.funcUnits.size())] *)
Definition numFuncUnits (s : t) : Z := wrap32 (Z.of_nat (length (funcUnits s))).
(** [noCostFUIndex(fuDescriptions.funcUnits.size() + 1)] *)
Definition noCostFUIndex (s : t) : Z :=
  wrap32 (Z.of_nat (length (funcUnits s)) + 1).

Definition emit (e : Event) (s : t) : t := set_log (e :: log s) s.
Definition upd_inst (p : InstPtr) (f : MinorDynInst.t -> MinorDynInst.t)
    (s : t) : t :=
  match p with
  | BubblePtr => s
  | Ptr n => set_insts (<[n := f (insts s n)]> (insts s)) s
  end.
Definition upd_world (f : World.t -> World.t) (s : t) : t :=
  set_world (f (world s)) s.
Definition upd_lsq (f : LSQ -> LSQ) (s : t) : t :=
  upd_world (fun w => World.set_lsq (f (World.lsq w)) w) s.
Definition upd_stats (f : Stats.t -> Stats.t) (s : t) : t :=
  set_stats (f (stats s)) s.
End Def.
End Execute.

(** ** The collaborators' interface *)

Class Collaborators `{IsaTypes} := {
  (* TheISA *)
  pc_eqb : PCState -> PCState -> bool;        (* PCState::operator== *)
  PCState_default : PCState;                  (* TheISA::PCState() *)
  PCState_at : Z -> PCState;                  (* TheISA::PCState(addr) *)
  instAddr : PCState -> Z;
  advancePC : PCState -> option StaticInst.t -> PCState;
  Arch_clearZeroReg : Arch -> Arch;           (* setIntReg(ZeroReg, 0) *)
  (* StaticInst, faults, packets, timing expressions *)
  isa_execute :
    option StaticInst.t -> InstPtr -> World.t -> Fault * World.t;
  isa_initiateAcc :
    option StaticInst.t -> InstPtr -> World.t -> Fault * World.t;
  isa_completeAcc :
    option StaticInst.t -> Packet -> InstPtr -> World.t -> Fault * World.t;
  Fault_invoke :
    FaultObj -> ThreadID -> option StaticInst.t -> World.t -> World.t;
  Packet_isError : Packet -> bool;
  TimingExpr_eval :
    TimingExpr -> option StaticInst.t -> ThreadContext.t -> Z;
  (* the first sequence numbers (InstId) *)
  firstStreamSeqNum : InstSeqNum;
  firstPredictionSeqNum : InstSeqNum;
  (* interrupts, PC events, instruction-count events, rand() *)
  hasInterruptController : World.t -> bool;
  checkInterrupts : World.t -> ThreadID -> bool;
  getInterrupt : World.t -> ThreadID -> Fault;
  updateIntrInfo : ThreadID -> World.t -> World.t;
  pcEventQueue_service : World.t -> World.t;
  pcEventBudget : World.t -> nat;
  serviceInstEvents : ThreadID -> World.t -> World.t;
  rand_mod_500 : World.t -> nat;
  (* the memory queues *)
  lsq_canRequest : LSQ -> bool;
  lsq_findResponse : LSQ -> InstPtr -> option LSQRequest.t;
  lsq_popResponse : LSQRequest.t -> LSQ -> LSQ;
  lsq_pushFailedRequest : InstPtr -> LSQ -> LSQ;
  lsq_sendStoreToStoreBuffer : LSQRequest.t -> LSQ -> LSQ;
  lsq_getLastMemBarrier : LSQ -> InstSeqNum;
  lsq_canPushIntoStoreBuffer : LSQ -> bool;
  lsq_accessesInFlight : LSQ -> bool;
  lsq_issuedMemBarrierInst : InstPtr -> MinorDynInst.t -> LSQ -> LSQ;
  lsq_completeMemBarrierInst : InstPtr -> bool -> LSQ -> LSQ;
  lsq_isDrained : LSQ -> bool;
  lsq_needsToTick : LSQ -> bool;
  lsq_step : LSQ -> LSQ;
  (* the scoreboard *)
  sb_canInstIssue :
    Scoreboard -> MinorDynInst.t -> option (list Cycles) ->
    option (list bool) -> Cycles -> ThreadContext.t -> bool;
  sb_markupInstDests :
    InstPtr -> MinorDynInst.t -> Cycles -> ThreadContext.t -> bool ->
    bool -> Z -> Scoreboard -> Scoreboard;
  sb_clearInstDests :
    InstPtr -> MinorDynInst.t -> bool -> Scoreboard -> Scoreboard;
  sb_execSeqNumToWaitFor :
    Scoreboard -> MinorDynInst.t -> ThreadContext.t -> InstSeqNum;
  (* the functional-unit pipelines *)
  fu_provides : FUPipeline.t -> OpClass -> bool;
  fu_alreadyPushed : FUPipeline.t -> bool;
  fu_canInsert : FUPipeline.t -> bool;
  fu_findTiming :
    FUPipeline.t -> option StaticInst.t -> option MinorFUTiming.t;
  fu_push : InstPtr -> FUPipeline.t -> FUPipeline.t;
  fu_front : FUPipeline.t -> InstPtr;
  fu_advance : FUPipeline.t -> FUPipeline.t;
  fu_occupancy : FUPipeline.t -> Z;
  (* ForwardInstData::isBubble *)
  ForwardInstData_isBubble : ForwardInstData -> bool;
}.

(** ** Outcomes *)

(** [fatal()] ends the process; loops whose exit depends on the
    collaborators are run on fuel. *)
Inductive Outcome (A : Type) :=
  | Done (a : A)
  | Fatal (msg : string)
  | OutOfFuel.
Arguments Done {A} a.
Arguments Fatal {A} msg.
Arguments OutOfFuel {A}.

Definition obind {A B} (x : Outcome A) (k : A -> Outcome B) : Outcome B :=
  match x with
  | Done a => k a
  | Fatal m => Fatal m
  | OutOfFuel => OutOfFuel
  end.

Notation "x <- c ;;; k" := (obind c (fun x => k))
  (at level 100, c at next level, right associativity, only parsing).

Section Model.
Context `{IsaTypes} `{!Collaborators}.

(** *** Instructions through their pointers *)

(** [new MinorDynInst()], the object behind [MinorDynInst::bubble()]. *)
Definition bubbleInst : MinorDynInst.t :=
  {| MinorDynInst.id := InstId.zero;
     MinorDynInst.pc := PCState_default;
     MinorDynInst.staticInst := None;
     MinorDynInst.fault := NoFault;
     MinorDynInst.predictedTaken := false;
     MinorDynInst.predictedTarget := PCState_default;
     MinorDynInst.fuIndex := 0;
     MinorDynInst.inLSQ := false;
     MinorDynInst.canEarlyIssue := false;
     MinorDynInst.instToWaitFor := 0;
     MinorDynInst.extraCommitDelay := 0;
     MinorDynInst.extraCommitDelayExpr := None;
     MinorDynInst.minimumCommitCycle := 0 |}.

Definition deref (s : Execute.t) (p : InstPtr) : MinorDynInst.t :=
  match p with
  | BubblePtr => bubbleInst
  | Ptr n => Execute.insts s n
  end.

(** Modelled from the spec: [MinorDynInst::isBubble] is declared in
    dyn_inst.hh, which is not among the sources.  Section 3: "A
    distinguished bubble value represents 'no instruction this slot' ...
    is immutable, and is shared rather than reallocated per cycle": the
    bubble is the one object handed out by [MinorDynInst::bubble()]. *)
Definition isBubble (p : InstPtr) : bool :=
  match p with BubblePtr => true | Ptr _ => false end.

(** Modelled from the spec: [isInst] and [isMemRef] are declared in
    dyn_inst.hh too.  Section 3 separates the bubble, an instruction with
    "an optional captured fault" and a real instruction. *)
Definition isInst (s : Execute.t) (p : InstPtr) : bool :=
  negb (isBubble p) && negb (MinorDynInst.isFault (deref s p)).

Definition isMemRef (s : Execute.t) (p : InstPtr) : bool :=
  isInst s p && MinorDynInst.sflag StaticInst.isMemRef (deref s p).

(** [MinorDynInst::isNoCostInst] *)
Definition isNoCostInst (s : Execute.t) (p : InstPtr) : bool :=
  isInst s p &&
  MinorDynInst.sflag (fun si => StaticInst.opClass si =? No_OpClass)
    (deref s p).

Definition getContext (s : Execute.t) (tid : ThreadID) : ThreadContext.t :=
  World.threads (Execute.world s) tid.

Definition threadOf (s : Execute.t) (p : InstPtr) : ThreadID :=
  InstId.threadId (MinorDynInst.id (deref s p)).

(** *** [Execute::updateBranchData] *)
Definition updateBranchData (reason : Reason) (inst : InstPtr)
    (target : PCState) (branch : BranchData.t) (s : Execute.t)
    : BranchData.t * Execute.t :=
  if bool_decide (reason <> NoBranch) then
    (* Bump up the stream sequence number on a real branch *)
    let s :=
      if Reason_isStreamChange reason
      then Execute.set_streamSeqNum
             (InstSeqNum_inc (Execute.streamSeqNum s)) s
      else s in
    let b :=
      {| BranchData.reason := reason;
         BranchData.newStreamSeqNum := Execute.streamSeqNum s;
         BranchData.newPredictionSeqNum :=
           (if isBubble inst then Execute.lastPredictionSeqNum s
            else InstId.predictionSeqNum (MinorDynInst.id (deref s inst)));
         BranchData.target := target;
         BranchData.inst := inst |} in
    (b, Execute.emit (EvBranch b) s)
  else (branch, s).

(** *** [Execute::tryToBranch] *)

(** "Force a branch for SerializeAfter instructions at the end of micro-op
    sequence when we're not suspended" *)
Definition force_branch (inst : InstPtr) (s : Execute.t) : bool :=
  let i := deref s inst in
  let thread := getContext s (threadOf s inst) in
  bool_decide (ThreadContext.status thread <> Suspended) &&
  negb (MinorDynInst.isFault i) &&
  MinorDynInst.isLastOpInInst i &&
  (MinorDynInst.sflag StaticInst.isSerializeAfter i ||
   MinorDynInst.sflag StaticInst.isIprAccess i).

(** "Will we change the PC to something other than the next instruction?" *)
Definition must_branch (inst : InstPtr) (fault : Fault) (s : Execute.t)
    : bool :=
  let i := deref s inst in
  let thread := getContext s (threadOf s inst) in
  negb (pc_eqb (MinorDynInst.pc i) (ThreadContext.pcState thread)) ||
  negb (isNoFault fault) ||
  force_branch inst s.

(** The PC after the instruction: with no fault the thread's PC is
    advanced past the instruction and written back.  The fault-injection
    experiment on the PC ([FItargetReg == 1001]) advances it [rand() % 500]
    more times, once. *)
Definition advance_target (inst : InstPtr) (fault : Fault) (s : Execute.t)
    : PCState * Execute.t :=
  let i := deref s inst in
  let tid := threadOf s inst in
  let target := ThreadContext.pcState (getContext s tid) in
  if isNoFault fault then
    let inject :=
      negb (World.faultIsInjected (Execute.world s)) &&
      (Params.FItargetReg (Execute.params s) =? 1001) &&
      (Execute.curTick s =? Params.FItarget (Execute.params s)) &&
      must_branch inst fault s in
    let randBit := rand_mod_500 (Execute.world s) in
    let s1 :=
      if inject
      then Execute.upd_world (World.set_faultIsInjected true) s
      else s in
    let target1 :=
      if inject
      then Nat.iter randBit
             (fun t => advancePC t (MinorDynInst.staticInst i)) target
      else target in
    let target2 := advancePC target1 (MinorDynInst.staticInst i) in
    let s2 :=
      Execute.upd_world
        (World.upd_thread tid (ThreadContext.set_pcState target2)) s1 in
    (target2, Execute.emit (EvSetPC tid target2) s2)
  else (target, s).

(** The [if] chain that picks the reason. *)
Definition branch_reason (predictedTaken force must target_matches : bool)
    : Reason :=
  if predictedTaken && negb force then
    (* Predicted to branch *)
    if negb must then BadlyPredictedBranch
    else if target_matches then CorrectlyPredictedBranch
    else BadlyPredictedBranchTarget
  else if must then UnpredictedBranch
  else NoBranch.

(** The reason [tryToBranch] hands to [updateBranchData], with the target
    and the state at that point. *)
Definition tryToBranch_reason (inst : InstPtr) (fault : Fault)
    (s : Execute.t) : Reason * PCState * Execute.t :=
  let i := deref s inst in
  let '(target, s1) := advance_target inst fault s in
  let reason :=
    branch_reason (MinorDynInst.predictedTaken i) (force_branch inst s)
      (must_branch inst fault s)
      (pc_eqb (MinorDynInst.predictedTarget i) target) in
  (reason, target, s1).

Definition tryToBranch (inst : InstPtr) (fault : Fault)
    (branch : BranchData.t) (s : Execute.t) : BranchData.t * Execute.t :=
  let '(reason, target, s1) := tryToBranch_reason inst fault s in
  updateBranchData reason inst target branch s1.


(** *** [ExecContext::ExecContext] *)
(** Building an execution context sets the thread's PC to the
    instruction's, sets the predicate and clears the zero register. *)
Definition ExecContext_new (inst : InstPtr) (s : Execute.t) : Execute.t :=
  let i := deref s inst in
  Execute.upd_world
    (World.upd_thread (threadOf s inst)
       (fun t =>
          {| ThreadContext.status := ThreadContext.status t;
             ThreadContext.pcState := MinorDynInst.pc i;
             ThreadContext.predicate := true;
             ThreadContext.arch := Arch_clearZeroReg (ThreadContext.arch t) |}))
    s.

(** [fault->invoke(thread, inst)] *)
Definition invokeFault (f : FaultObj) (tid : ThreadID)
    (si : option StaticInst.t) (s : Execute.t) : Execute.t :=
  Execute.emit (EvFaultInvoke f)
    (Execute.upd_world (Fault_invoke f tid si) s).

(** *** [Execute::doInstCommitAccounting] *)
(** The instruction and op counters and the instruction-count events.
    The count of "unnecessary" instructions of the SWIFT/ZDC experiments
    is a statistic computed from register names; it is not modelled. *)
Definition doInstCommitAccounting (inst : InstPtr) (s : Execute.t)
    : Execute.t :=
  let i := deref s inst in
  let s1 :=
    if negb (MinorDynInst.sflag StaticInst.isMicroop i) ||
       MinorDynInst.sflag StaticInst.isLastMicroop i
    then Execute.upd_stats
           (fun st => Stats.set_numInsts (Stats.numInsts st + 1) st) s
    else s in
  let s2 :=
    Execute.upd_stats
      (fun st => Stats.set_numOps (Stats.numOps st + 1) st) s1 in
  let s3 := Execute.upd_world (serviceInstEvents (threadOf s inst)) s2 in
  Execute.emit (EvCommitAccounting inst) s3.

(** *** [Execute::handleMemResponse] *)
Definition handleMemResponse (inst : InstPtr) (response : LSQRequest.t)
    (branch : BranchData.t) (fault : Fault) (s : Execute.t)
    : Outcome (BranchData.t * Fault * Execute.t) :=
  let i := deref s inst in
  let tid := threadOf s inst in
  let s0 := ExecContext_new inst s in
  let is_load := MinorDynInst.sflag StaticInst.isLoad i in
  let is_store := MinorDynInst.sflag StaticInst.isStore i in
  let is_prefetch := MinorDynInst.sflag StaticInst.isDataPrefetch i in
  r <- (match LSQRequest.fault response with
        | Some rf =>
            (* Invoke memory faults. *)
            if MinorDynInst.sflag StaticInst.isPrefetch i
            then Done (fault, s0)       (* Don't assign to fault *)
            else Done (Some rf,
                       invokeFault rf tid (MinorDynInst.staticInst i) s0)
        | None =>
            match LSQRequest.packet response with
            | None => Done (fault, s0)  (* Completing failed request *)
            | Some packet =>
                if Packet_isError packet
                then Fatal "Received error response packet for inst: %s\n"
                else if is_store || is_load || is_prefetch then
                  (* Complete the memory access instruction *)
                  let '(f, w) :=
                    isa_completeAcc (MinorDynInst.staticInst i) packet inst
                      (Execute.world s0) in
                  let s1 :=
                    Execute.emit (EvCompleteAcc inst)
                      (Execute.set_world w s0) in
                  match f with
                  | Some cf =>
                      Done (f, invokeFault cf tid
                                 (MinorDynInst.staticInst i) s1)
                  | None =>
                      if LSQRequest.needsToBeSentToStoreBuffer response
                      then Done (f,
                             Execute.emit (EvSendStoreToStoreBuffer inst)
                               (Execute.upd_lsq
                                  (lsq_sendStoreToStoreBuffer response) s1))
                      else Done (f, s1)
                  end
                else Fatal ("There should only ever be reads, " ++
                            "writes or faults at this point\n")
            end
        end) ;;;
  let '(fault1, s1) := r in
  let s2 :=
    Execute.emit (EvPopResponse inst)
      (Execute.upd_lsq (lsq_popResponse response) s1) in
  let s3 := doInstCommitAccounting inst s2 in
  (* Generate output to account for branches *)
  let '(branch1, s4) := tryToBranch inst fault1 branch s3 in
  Done (branch1, fault1, s4).

(** *** [Execute::isInterrupted] *)
Definition isInterrupted (tid : ThreadID) (s : Execute.t) : bool :=
  checkInterrupts (Execute.world s) tid.

(** *** [Execute::executeMemRefInst] *)
(** Returns [(issued, passed_predicate, fault)] and the state. *)
Definition executeMemRefInst (inst : InstPtr) (fault : Fault)
    (s : Execute.t) : bool * bool * Fault * Execute.t :=
  if negb (lsq_canRequest (World.lsq (Execute.world s))) then
    (* Not acting on instruction yet as the memory queues are full *)
    (false, false, fault, s)
  else
    let i := deref s inst in
    let tid := threadOf s inst in
    let old_pc := ThreadContext.pcState (getContext s tid) in
    let s0 := ExecContext_new inst s in
    let '(init_fault, w) :=
      isa_initiateAcc (MinorDynInst.staticInst i) inst (Execute.world s0) in
    let s1 := Execute.emit (EvInitiateAcc inst) (Execute.set_world w s0) in
    let '(passed_predicate, fault1, s2) :=
      match init_fault with
      | Some _ => (false, init_fault, s1)
      | None =>
          let passed := ThreadContext.predicate (getContext s1 tid) in
          if negb passed then
            (* Leave it up to commit to handle the fault *)
            (passed, fault,
             Execute.emit (EvPushFailedRequest inst)
               (Execute.upd_lsq (lsq_pushFailedRequest inst) s1))
          else (passed, fault, s1)
      end in
    (* Restore thread PC *)
    let s3 :=
      Execute.upd_world
        (World.upd_thread tid (ThreadContext.set_pcState old_pc)) s2 in
    (true, passed_predicate, fault1, s3).

(** *** [Execute::commitInst] *)
Record CommitInstResult := {
  ci_completed_inst : bool;
  ci_branch : BranchData.t;
  ci_fault : Fault;
  ci_committed : bool;
  ci_completed_mem_issue : bool;
}.

Definition commitInst (inst : InstPtr) (early_memory_issue : bool)
    (branch : BranchData.t) (committed completed_mem_issue : bool)
    (s : Execute.t) : CommitInstResult * Execute.t :=
  let i := deref s inst in
  let tid := threadOf s inst in
  let thread := getContext s tid in
  if bool_decide (ThreadContext.status thread = Suspended) &&
     negb (isInterrupted tid s) then
    (* Not committing inst from suspended thread *)
    ({| ci_completed_inst := false; ci_branch := branch;
        ci_fault := NoFault; ci_committed := committed;
        ci_completed_mem_issue := completed_mem_issue |}, s)
  else
    let '(r, s1) :=
      match MinorDynInst.fault i with
      | Some f =>
          (* Fault inst reached Execute *)
          let s0 := invokeFault f tid None (ExecContext_new inst s) in
          let '(b, s1) := tryToBranch inst (Some f) branch s0 in
          ({| ci_completed_inst := true; ci_branch := b;
              ci_fault := Some f; ci_committed := committed;
              ci_completed_mem_issue := completed_mem_issue |}, s1)
      | None =>
          if MinorDynInst.sflag StaticInst.isMemRef i then
            let '(completed_mem_inst, _, fault, s0) :=
              executeMemRefInst inst NoFault s in
            let '(completed_inst, b, s1) :=
              match fault with
              | Some f =>
                  if completed_mem_inst then
                    if early_memory_issue then
                      (* Don't execute the fault, just stall the
                         instruction until it gets to the head of
                         inFlightInsts *)
                      (false, branch,
                       Execute.upd_inst inst
                         (MinorDynInst.set_canEarlyIssue false) s0)
                    else
                      let '(b, s1) :=
                        tryToBranch inst fault branch
                          (invokeFault f tid None s0) in
                      (true, b, s1)
                  else (completed_mem_inst, branch, s0)
              | None => (completed_mem_inst, branch, s0)
              end in
            ({| ci_completed_inst := completed_inst; ci_branch := b;
                ci_fault := fault; ci_committed := committed;
                ci_completed_mem_issue := completed_inst |}, s1)
          else if isInst s inst &&
                  MinorDynInst.sflag StaticInst.isMemBarrier i &&
                  negb (lsq_canPushIntoStoreBuffer
                          (World.lsq (Execute.world s))) then
            (* Can't commit data barrier inst yet *)
            ({| ci_completed_inst := false; ci_branch := branch;
                ci_fault := NoFault; ci_committed := committed;
                ci_completed_mem_issue := completed_mem_issue |}, s)
          else
            let s0 := ExecContext_new inst s in
            let '(fault, w) :=
              isa_execute (MinorDynInst.staticInst i) inst
                (Execute.world s0) in
            let s1 := Execute.emit (EvExecute inst) (Execute.set_world w s0) in
            let s2 :=
              match fault with
              | Some f => invokeFault f tid (MinorDynInst.staticInst i) s1
              | None => s1
              end in
            let s3 := doInstCommitAccounting inst s2 in
            let '(b, s4) := tryToBranch inst fault branch s3 in
            ({| ci_completed_inst := true; ci_branch := b;
                ci_fault := fault; ci_committed := true;
                ci_completed_mem_issue := completed_mem_issue |}, s4)
      end in
    if ci_completed_inst r then
      (* Keep a copy of this instruction's predictionSeqNum just in case
         we need to issue a branch without an instruction *)
      let s2 :=
        Execute.set_lastPredictionSeqNum
          (InstId.predictionSeqNum (MinorDynInst.id (deref s1 inst))) s1 in
      (* Check to see if this instruction suspended the current thread. *)
      if negb (MinorDynInst.isFault (deref s2 inst)) &&
         bool_decide (ThreadContext.status (getContext s2 tid) = Suspended) &&
         BranchData.isBubble (ci_branch r) &&
         negb (isInterrupted tid s2) then
        let resume_pc := ThreadContext.pcState (getContext s2 0) in
        let s3 :=
          Execute.upd_stats
            (fun st =>
               Stats.set_numFetchSuspends (Stats.numFetchSuspends st + 1) st)
            s2 in
        let '(b, s4) :=
          updateBranchData SuspendThread inst resume_pc (ci_branch r) s3 in
        ({| ci_completed_inst := ci_completed_inst r; ci_branch := b;
            ci_fault := ci_fault r; ci_committed := ci_committed r;
            ci_completed_mem_issue := ci_completed_mem_issue r |}, s4)
      else (r, s2)
    else (r, s1).


(** *** [Execute::tryPCEvents] *)
(** The source services the PC event queue until the PC stops moving.
    Whether that happens is up to the queue; [pcEventBudget] bounds the
    number of further rounds the queue can ask for. *)
Fixpoint tryPCEvents_loop (fuel : nat) (num_pc_event_checks : Z)
    (s : Execute.t) : Z * Execute.t :=
  let oldPC := instAddr (ThreadContext.pcState (getContext s 0)) in
  let s1 :=
    Execute.emit EvPCEventService
      (Execute.upd_world pcEventQueue_service s) in
  let n := uint_inc num_pc_event_checks in
  if oldPC =? instAddr (ThreadContext.pcState (getContext s1 0))
  then (n, s1)
  else match fuel with
       | O => (n, s1)
       | S fuel' => tryPCEvents_loop fuel' n s1
       end.

Definition tryPCEvents (s : Execute.t) : bool * Execute.t :=
  let '(n, s1) :=
    tryPCEvents_loop (pcEventBudget (Execute.world s)) 0 s in
  (1 <? n, s1).

(** *** [Execute::isInbetweenInsts] *)
Definition isInbetweenInsts (s : Execute.t) : bool :=
  Execute.lastCommitWasEndOfMacroop s &&
  negb (lsq_accessesInFlight (World.lsq (Execute.world s))).

(** *** [Execute::commit] *)

(** [funcUnits[index]]; indexing outside the vector is undefined in the
    source, the model finds no unit there. *)
Definition funcUnit (s : Execute.t) (index : Z) : option FUPipeline.t :=
  if index <? 0 then None else Execute.funcUnits s !! Z.to_nat index.

(** [funcUnits[index]->front().inst] *)
Definition funcUnit_front (s : Execute.t) (index : Z) : InstPtr :=
  match funcUnit s index with
  | Some fu => fu_front fu
  | None => BubblePtr
  end.

(** [funcUnits[index]->stalled = false] *)
Definition unstall (index : Z) (s : Execute.t) : Execute.t :=
  if index <? 0 then s
  else Execute.set_funcUnits
         (alter (FUPipeline.set_stalled false) (Z.to_nat index)
            (Execute.funcUnits s)) s.

(** The variables of [commit] that live across iterations. *)
Record CommitVars := {
  cv_branch : BranchData.t;
  cv_fault : Fault;
  cv_completed_inst : bool;
  cv_num_insts_committed : Z;
  cv_num_mem_refs_committed : Z;
}.

(** The variables at the end of one iteration of the loop. *)
Record CommitIter := {
  it_vars : CommitVars;
  it_inst : InstPtr;                  (* the instruction processed *)
  it_pc_event : bool;                 (* a PC event redirected instead *)
  it_from_mem_response : bool;        (* completed from a memory response *)
  it_try_to_commit : bool;
  it_committed_inst : bool;
  it_discard_inst : bool;
  it_completed_mem_ref : bool;
  it_issued_mem_ref : bool;
  it_early_memory_issue : bool;
}.

(** [assert(!(discard_inst && !completed_inst))] *)
Definition discard_assertion (it : CommitIter) : bool :=
  negb (it_discard_inst it && negb (cv_completed_inst (it_vars it))).

(** Which instruction can complete from the functional units: the
    choice between early memory issue, a no-cost instruction and the tail
    of the head instruction's unit.  Returns
    [(inst, try_to_commit, early_memory_issue, completed_inst)]. *)
Definition commit_candidate (head : InstPtr) (s : Execute.t)
    : InstPtr * bool * bool * bool :=
  let head_exec_seq_num :=
    InstId.execSeqNum (MinorDynInst.id (deref s head)) in
  (* Try and issue memory ops early *)
  let '(inst, try_to_commit, early_memory_issue, completed_inst) :=
    match Execute.inFUMemInsts s with
    | head_mem_ref_inst :: _ =>
        if lsq_canRequest (World.lsq (Execute.world s)) then
          let fu_inst :=
            funcUnit_front s
              (MinorDynInst.fuIndex (deref s head_mem_ref_inst)) in
          let fi := deref s fu_inst in
          if negb (isBubble fu_inst) &&
             negb (MinorDynInst.inLSQ fi) &&
             MinorDynInst.canEarlyIssue fi &&
             (Execute.streamSeqNum s =?
              InstId.streamSeqNum (MinorDynInst.id fi)) &&
             (MinorDynInst.instToWaitFor fi <? head_exec_seq_num)
          then (fu_inst, true, true, true)
          else (head, false, false, false)
        else (head, false, false, false)
    | [] => (head, false, false, false)
    end in
  (* Try and commit FU-less insts *)
  let '(try_to_commit, completed_inst) :=
    if negb completed_inst && isNoCostInst s inst
    then (true, true)
    else (try_to_commit, completed_inst) in
  (* Try to issue from the ends of FUs and the inFlightInsts queue *)
  let '(try_to_commit, completed_inst) :=
    if negb completed_inst && negb (MinorDynInst.inLSQ (deref s inst)) then
      let fu_inst := funcUnit_front s (MinorDynInst.fuIndex (deref s inst)) in
      let fu_inst_seq_num :=
        InstId.execSeqNum (MinorDynInst.id (deref s fu_inst)) in
      if isBubble fu_inst then (try_to_commit, false)
      else if negb (fu_inst_seq_num =? head_exec_seq_num)
      then (try_to_commit, completed_inst)
      else (true, true)
    else (try_to_commit, completed_inst) in
  (inst, try_to_commit, early_memory_issue, completed_inst).

(** The extra commit delay: the expression, if any, is evaluated and
    dropped, and the delay is moved into [minimumCommitCycle]. *)
Definition fold_extra_commit_delay (inst : InstPtr) (s : Execute.t)
    : Execute.t :=
  let i := deref s inst in
  let s1 :=
    match MinorDynInst.extraCommitDelayExpr i with
    | Some e =>
        let thread := getContext s (threadOf s inst) in
        let extra_delay :=
          wrap64 (TimingExpr_eval e (MinorDynInst.staticInst i) thread) in
        let s0 := Execute.emit (EvEvalExpr inst e) s in
        let s0' :=
          if extra_delay <? 128
          then Execute.upd_inst inst
                 (fun i =>
                    MinorDynInst.set_extraCommitDelay
                      (Cycles_add (MinorDynInst.extraCommitDelay i)
                         extra_delay) i) s0
          else s0 in
        Execute.upd_inst inst (MinorDynInst.set_extraCommitDelayExpr None) s0'
    | None => s
    end in
  (* Move the extraCommitDelay from the instruction into the
     minimumCommitCycle *)
  if negb (MinorDynInst.extraCommitDelay (deref s1 inst) =? 0) then
    Execute.upd_inst inst
      (fun i =>
         MinorDynInst.set_extraCommitDelay 0
           (MinorDynInst.set_minimumCommitCycle
              (Cycles_add (Execute.curCycle s1)
                 (MinorDynInst.extraCommitDelay i)) i)) s1
  else s1.

(** The body of [if (try_to_commit)]: discard, stall or [commitInst]. *)
Definition commit_try (discard : bool) (now : Cycles) (inst : InstPtr)
    (early_memory_issue : bool) (branch : BranchData.t) (fault : Fault)
    (s : Execute.t)
    : bool * CommitInstResult * Execute.t :=
  let discard_inst :=
    negb (InstId.streamSeqNum (MinorDynInst.id (deref s inst)) =?
          Execute.streamSeqNum s) || discard in
  let '(r, s1) :=
    if negb discard_inst then
      let s0 := fold_extra_commit_delay inst s in
      let i := deref s0 inst in
      let lastMemBarrier :=
        lsq_getLastMemBarrier (World.lsq (Execute.world s0)) in
      if negb (MinorDynInst.isFault i) && isMemRef s0 inst &&
         (lastMemBarrier <? InstId.execSeqNum (MinorDynInst.id i)) &&
         negb (lastMemBarrier =? 0) then
        (* incomplete barriers in flight *)
        ({| ci_completed_inst := false; ci_branch := branch;
            ci_fault := fault; ci_committed := false;
            ci_completed_mem_issue := false |}, s0)
      else if now <? MinorDynInst.minimumCommitCycle i then
        (* it wants to be stalled for more cycles *)
        ({| ci_completed_inst := false; ci_branch := branch;
            ci_fault := fault; ci_committed := false;
            ci_completed_mem_issue := false |}, s0)
      else commitInst inst early_memory_issue branch false false s0
    else
      (* Discard instruction *)
      ({| ci_completed_inst := true; ci_branch := branch;
          ci_fault := fault; ci_committed := false;
          ci_completed_mem_issue := false |}, s) in
  let s2 :=
    if ci_completed_inst r then
      (* Allow the pipeline to advance. *)
      let fuIndex := MinorDynInst.fuIndex (deref s1 inst) in
      if negb (fuIndex =? Execute.noCostFUIndex s1)
      then unstall fuIndex s1
      else s1
    else s1 in
  (discard_inst, r, s2).

(** The [else if (can_commit_insts)] arm of the loop body. *)
Definition commit_from_fus (discard : bool) (now : Cycles)
    (can_commit_insts : bool) (head : InstPtr) (v : CommitVars)
    (s : Execute.t) : CommitIter * Execute.t :=
  let vars b f c :=
    {| cv_branch := b; cv_fault := f; cv_completed_inst := c;
       cv_num_insts_committed := cv_num_insts_committed v;
       cv_num_mem_refs_committed := cv_num_mem_refs_committed v |} in
  if can_commit_insts then
    let '(inst, try_to_commit, early_memory_issue, completed_inst) :=
      commit_candidate head s in
    if try_to_commit then
      let '(discard_inst, r, s1) :=
        commit_try discard now inst early_memory_issue (cv_branch v)
          (cv_fault v) s in
      ({| it_vars := vars (ci_branch r) (ci_fault r) (ci_completed_inst r);
          it_inst := inst; it_pc_event := false;
          it_from_mem_response := false; it_try_to_commit := true;
          it_committed_inst := ci_committed r;
          it_discard_inst := discard_inst;
          it_completed_mem_ref := false;
          it_issued_mem_ref := ci_completed_mem_issue r;
          it_early_memory_issue := early_memory_issue |}, s1)
    else
      ({| it_vars := vars (cv_branch v) (cv_fault v) completed_inst;
          it_inst := inst; it_pc_event := false;
          it_from_mem_response := false; it_try_to_commit := false;
          it_committed_inst := false; it_discard_inst := false;
          it_completed_mem_ref := false; it_issued_mem_ref := false;
          it_early_memory_issue := early_memory_issue |}, s)
  else
    (* No instructions to commit *)
    ({| it_vars := vars (cv_branch v) (cv_fault v) false;
        it_inst := head; it_pc_event := false;
        it_from_mem_response := false; it_try_to_commit := false;
        it_committed_inst := false; it_discard_inst := false;
        it_completed_mem_ref := false; it_issued_mem_ref := false;
        it_early_memory_issue := false |}, s).

(** What follows the choice of a completion source in the loop body. *)
Definition commit_finish (it : CommitIter) (s : Execute.t)
    : CommitIter * Execute.t :=
  let inst := it_inst it in
  let v := it_vars it in
  let completed_inst := cv_completed_inst v in
  let fault := cv_fault v in
  (* Instruction committed but was discarded due to streamSeqNum mismatch *)
  let s1 :=
    if it_discard_inst it && isNoFault fault
    then Execute.upd_stats
           (fun st =>
              Stats.set_numDiscardedOps (Stats.numDiscardedOps st + 1) st) s
    else s in
  (* Mark the mem inst as being in the LSQ *)
  let s2 :=
    if it_issued_mem_ref it
    then Execute.upd_inst inst
           (fun i => MinorDynInst.set_inLSQ true
                       (MinorDynInst.set_fuIndex 0 i)) s1
    else s1 in
  (* Pop issued (to LSQ) and discarded mem refs from the inFUMemInsts *)
  let s3 :=
    if completed_inst && isMemRef s2 inst then
      match Execute.inFUMemInsts s2 with
      | front :: rest =>
          if InstPtr_eqb front inst
          then Execute.set_inFUMemInsts rest s2
          else s2
      | [] => s2
      end
    else s2 in
  let s4 :=
    if completed_inst && negb (it_issued_mem_ref it && isNoFault fault) then
      (* Note that this includes discarded insts *)
      let i := deref s3 inst in
      let s30 :=
        Execute.set_lastCommitWasEndOfMacroop
          (MinorDynInst.isFault i || MinorDynInst.isLastOpInInst i) s3 in
      let s31 :=
        Execute.set_lastPredictionSeqNum
          (InstId.predictionSeqNum (MinorDynInst.id i)) s30 in
      (* Finished with the inst, remove it from the inst queue and clear
         its dependencies *)
      let s32 := Execute.set_inFlightInsts (tail (Execute.inFlightInsts s31)) s31 in
      let s33 :=
        if isInst s32 inst && MinorDynInst.sflag StaticInst.isMemBarrier i
        then Execute.emit (EvCompleteMemBarrier inst (it_committed_inst it))
               (Execute.upd_lsq
                  (lsq_completeMemBarrierInst inst (it_committed_inst it))
                  s32)
        else s32 in
      Execute.emit (EvClearInstDests inst (isMemRef s33 inst))
        (Execute.set_scoreboard
           (sb_clearInstDests inst (deref s33 inst) (isMemRef s33 inst)
              (Execute.scoreboard s33)) s33)
    else s3 in
  (* Handle per-cycle instruction counting *)
  let v' :=
    if it_committed_inst it then
      let n1 :=
        if negb (isNoCostInst s4 inst)
        then uint_inc (cv_num_insts_committed v)
        else cv_num_insts_committed v in
      let m1 :=
        if it_completed_mem_ref it
        then uint_inc (cv_num_mem_refs_committed v)
        else cv_num_mem_refs_committed v in
      {| cv_branch := cv_branch v; cv_fault := fault;
         cv_completed_inst := completed_inst;
         cv_num_insts_committed := n1;
         cv_num_mem_refs_committed := m1 |}
    else v in
  ({| it_vars := v'; it_inst := inst; it_pc_event := it_pc_event it;
      it_from_mem_response := it_from_mem_response it;
      it_try_to_commit := it_try_to_commit it;
      it_committed_inst := it_committed_inst it;
      it_discard_inst := it_discard_inst it;
      it_completed_mem_ref := it_completed_mem_ref it;
      it_issued_mem_ref := it_issued_mem_ref it;
      it_early_memory_issue := it_early_memory_issue it |}, s4).

(** The first part of the loop body: the PC events, then the choice of
    a completion source and the attempt to complete from it.  [v] holds
    the variables as the loop condition saw them. *)
Definition commit_attempt (only_commit_microops discard : bool)
    (now : Cycles) (v : CommitVars) (s : Execute.t)
    : Outcome (CommitIter * Execute.t) :=
  let head := hd BubblePtr (Execute.inFlightInsts s) in
  let branch := cv_branch v in
  let fault := cv_fault v in
  let vars b f c :=
    {| cv_branch := b; cv_fault := f; cv_completed_inst := c;
       cv_num_insts_committed := cv_num_insts_committed v;
       cv_num_mem_refs_committed := cv_num_mem_refs_committed v |} in
  (* can we still commit another microop without crossing into the next
     full instruction? *)
  let can_commit_insts :=
    negb (bool_decide (Execute.inFlightInsts s = [])) &&
    negb (only_commit_microops && Execute.lastCommitWasEndOfMacroop s) in
  (* Can we find a mem response for this inst *)
  let mem_response :=
    if MinorDynInst.inLSQ (deref s head)
    then lsq_findResponse (World.lsq (Execute.world s)) head
    else None in
  (* Test for PC events after every instruction *)
  let '(pc_event, s0) :=
    if isInbetweenInsts s then tryPCEvents s else (false, s) in
  if pc_event then
    (* Branch as there was a change in PC *)
    let '(b, s1) :=
      updateBranchData UnpredictedBranch BubblePtr
        (ThreadContext.pcState (getContext s0 0)) branch s0 in
    Done ({| it_vars := vars b fault false; it_inst := head;
             it_pc_event := true; it_from_mem_response := false;
             it_try_to_commit := false; it_committed_inst := false;
             it_discard_inst := false; it_completed_mem_ref := false;
             it_issued_mem_ref := false;
             it_early_memory_issue := false |}, s1)
  else
    match mem_response with
    | Some response =>
        if cv_num_mem_refs_committed v <? Execute.memoryCommitLimit s0
        then
          (* Try to commit from the memory responses next *)
          let discard_inst :=
            negb (InstId.streamSeqNum (MinorDynInst.id (deref s0 head)) =?
                  Execute.streamSeqNum s0) || discard in
          if discard_inst then
            let s1 :=
              Execute.emit (EvPopResponse head)
                (Execute.upd_lsq (lsq_popResponse response) s0) in
            Done ({| it_vars := vars branch fault true; it_inst := head;
                     it_pc_event := false; it_from_mem_response := true;
                     it_try_to_commit := false;
                     it_committed_inst := false;
                     it_discard_inst := true;
                     it_completed_mem_ref := true;
                     it_issued_mem_ref := false;
                     it_early_memory_issue := false |}, s1)
          else
            r <- handleMemResponse head response branch fault s0 ;;;
            let '(b, f, s1) := r in
            Done ({| it_vars := vars b f true; it_inst := head;
                     it_pc_event := false; it_from_mem_response := true;
                     it_try_to_commit := false;
                     it_committed_inst := true;
                     it_discard_inst := false;
                     it_completed_mem_ref := true;
                     it_issued_mem_ref := false;
                     it_early_memory_issue := false |}, s1)
        else Done (commit_from_fus discard now can_commit_insts head v s0)
    | None =>
        Done (commit_from_fus discard now can_commit_insts head v s0)
    end.

(** One iteration of the [while] loop of [commit]. *)
Definition commit_iteration (only_commit_microops discard : bool)
    (now : Cycles) (v : CommitVars) (s : Execute.t)
    : Outcome (CommitIter * Execute.t) :=
  it <- commit_attempt only_commit_microops discard now v s ;;;
  Done (commit_finish (fst it) (snd it)).


(** The condition of the [while] loop. *)
Definition commit_continues (v : CommitVars) (s : Execute.t) : bool :=
  negb (bool_decide (Execute.inFlightInsts s = [])) &&
  negb (BranchData.isStreamChange (cv_branch v)) &&
  isNoFault (cv_fault v) &&
  cv_completed_inst v &&
  negb (cv_num_insts_committed v =? Execute.commitLimit s).

Fixpoint commit_loop (fuel : nat) (only_commit_microops discard : bool)
    (now : Cycles) (v : CommitVars) (s : Execute.t)
    : Outcome (CommitVars * Execute.t) :=
  if commit_continues v s then
    match fuel with
    | O => OutOfFuel
    | S fuel' =>
        it <- commit_iteration only_commit_microops discard now v s ;;;
        commit_loop fuel' only_commit_microops discard now
          (it_vars (fst it)) (snd it)
    end
  else Done (v, s).

(** The variables on entry to the loop. *)
Definition commit_entry (branch : BranchData.t) : CommitVars :=
  {| cv_branch := branch; cv_fault := NoFault;
     cv_completed_inst := true; cv_num_insts_committed := 0;
     cv_num_mem_refs_committed := 0 |}.

Definition commit (fuel : nat) (only_commit_microops discard : bool)
    (branch : BranchData.t) (s : Execute.t)
    : Outcome (BranchData.t * Execute.t) :=
  r <- commit_loop fuel only_commit_microops discard (Execute.curCycle s)
         (commit_entry branch) s ;;;
  Done (cv_branch (fst r), snd r).


(** *** [Execute::getInput], [Execute::popInput] *)
Definition getInput (s : Execute.t) : option ForwardInstData :=
  match Execute.inputBuffer s with
  | head :: _ => if ForwardInstData_isBubble head then None else Some head
  | [] => None
  end.

Definition popInput (s : Execute.t) : Execute.t :=
  Execute.set_inputIndex 0
    (Execute.set_inputBuffer (tail (Execute.inputBuffer s)) s).

(** [insts_in->width()] and [insts_in->insts[index]] *)
Definition width (line : ForwardInstData) : Z :=
  wrap32 (Z.of_nat (length line)).

Definition inst_at (line : ForwardInstData) (index : Z) : InstPtr :=
  if index <? 0 then BubblePtr
  else nth (Z.to_nat index) line BubblePtr.

(** *** [Execute::issue] *)

Definition sopClass (i : MinorDynInst.t) : OpClass :=
  match MinorDynInst.staticInst i with
  | Some si => StaticInst.opClass si
  | None => No_OpClass
  end.

(** The body of the inner [do] loop up to [fu_index++]: one attempt to
    put [inst] into unit [fu_index].  Returns
    [(fu_index, issued, issued_mem_ref)] and the state. *)
Definition issue_try_fu (inst : InstPtr) (fu_index : Z) (s : Execute.t)
    : Z * bool * bool * Execute.t :=
  let i := deref s inst in
  let thread := getContext s (threadOf s inst) in
  if isNoCostInst s inst then
    (* Issue free insts. to a fake numbered FU *)
    let s1 := Execute.emit EvActivity s in
    let retire := Cycles_add (Execute.curCycle s1) 0 in
    let s2 :=
      Execute.emit (EvMarkupInstDests inst retire false)
        (Execute.set_scoreboard
           (sb_markupInstDests inst i retire thread false
              (Params.ScoreboardFI (Execute.params s1))
              (Params.FItarget (Execute.params s1))
              (Execute.scoreboard s1)) s1) in
    let s3 :=
      Execute.upd_inst inst
        (fun i =>
           MinorDynInst.set_extraCommitDelayExpr None
             (MinorDynInst.set_extraCommitDelay 0
                (MinorDynInst.set_fuIndex (Execute.noCostFUIndex s2) i)))
        s2 in
    (* Push the instruction onto the inFlight queue so it can be
       committed in order *)
    let s4 :=
      Execute.set_inFlightInsts (Execute.inFlightInsts s3 ++ [inst]) s3 in
    (Execute.noCostFUIndex s, true, false, s4)
  else
    match funcUnit s fu_index with
    | None => (fu_index, false, false, s)
    | Some fu =>
        let fu_is_capable :=
          if negb (MinorDynInst.isFault i)
          then fu_provides fu (sopClass i)
          else true in
        if negb fu_is_capable || fu_alreadyPushed fu then
          (fu_index, false, false, s)
        else if FUPipeline.stalled fu then (fu_index, false, false, s)
        else if negb (fu_canInsert fu) then (fu_index, false, false, s)
        else
          let timing :=
            if negb (MinorDynInst.isFault i)
            then fu_findTiming fu (MinorDynInst.staticInst i)
            else None in
          let src_latencies :=
            option_map MinorFUTiming.srcRegsRelativeLats timing in
          let cant_forward_from_fu_indices :=
            Some (FUPipeline.cantForwardFromFUIndices fu) in
          if match timing with
             | Some t => MinorFUTiming.suppress t
             | None => false
             end
          then (fu_index, false, false, s)
          else if negb (sb_canInstIssue (Execute.scoreboard s) i
                          src_latencies cant_forward_from_fu_indices
                          (Execute.curCycle s) thread)
          then (fu_index, false, false, s)
          else
            (* Can insert the instruction into this FU *)
            let extra_dest_retire_lat :=
              match timing with
              | Some t => MinorFUTiming.extraCommitLat t
              | None => 0
              end in
            let extra_dest_retire_lat_expr :=
              match timing with
              | Some t => MinorFUTiming.extraCommitLatExpr t
              | None => None
              end in
            let extra_assumed_lat :=
              match timing with
              | Some t => MinorFUTiming.extraAssumedLat t
              | None => 0
              end in
            let issued_mem_ref := isMemRef s inst in
            (* Decorate the inst with FU details *)
            let s1 :=
              Execute.upd_inst inst
                (fun i =>
                   MinorDynInst.set_extraCommitDelayExpr
                     extra_dest_retire_lat_expr
                     (MinorDynInst.set_extraCommitDelay
                        extra_dest_retire_lat
                        (MinorDynInst.set_fuIndex fu_index i))) s in
            let s2 :=
              if issued_mem_ref then
                let s10 :=
                  if Execute.allowEarlyMemIssue s1 then
                    let toWaitFor :=
                      sb_execSeqNumToWaitFor (Execute.scoreboard s1)
                        (deref s1 inst) thread in
                    let lastMemBarrier :=
                      lsq_getLastMemBarrier
                        (World.lsq (Execute.world s1)) in
                    let toWaitFor' :=
                      if toWaitFor <? lastMemBarrier
                      then lastMemBarrier else toWaitFor in
                    Execute.upd_inst inst
                      (fun i =>
                         MinorDynInst.set_canEarlyIssue true
                           (MinorDynInst.set_instToWaitFor toWaitFor' i))
                      s1
                  else s1 in
                (* Also queue this instruction in the memory ref queue *)
                Execute.set_inFUMemInsts
                  (Execute.inFUMemInsts s10 ++ [inst]) s10
              else s1 in
            (* Issue to FU *)
            let s3 :=
              Execute.emit EvActivity
                (Execute.emit (EvPushFU fu_index inst)
                   (Execute.set_funcUnits
                      (alter (fu_push inst) (Z.to_nat fu_index)
                         (Execute.funcUnits s2)) s2)) in
            (* Mark the destinations for this instruction as busy *)
            let retire :=
              Cycles_add
                (Cycles_add
                   (Cycles_add (Execute.curCycle s3) (FUPipeline.opLat fu))
                   extra_dest_retire_lat)
                extra_assumed_lat in
            let mark_unpredictable :=
              issued_mem_ref && (extra_assumed_lat =? 0) in
            let s4 :=
              Execute.emit (EvMarkupInstDests inst retire mark_unpredictable)
                (Execute.set_scoreboard
                   (sb_markupInstDests inst (deref s3 inst) retire thread
                      mark_unpredictable
                      (Params.ScoreboardFI (Execute.params s3))
                      (Params.FItarget (Execute.params s3))
                      (Execute.scoreboard s3)) s3) in
            (* Push the instruction onto the inFlight queue so it can be
               committed in order *)
            let s5 :=
              Execute.set_inFlightInsts
                (Execute.inFlightInsts s4 ++ [inst]) s4 in
            (fu_index, true, issued_mem_ref, s5)
    end.

(** The inner [do ... while (fu_index != numFuncUnits && !issued)].  Every
    round moves to the next unit, so the units left bound the rounds. *)
Fixpoint issue_to_fus (fuel : nat) (inst : InstPtr) (fu_index : Z)
    (s : Execute.t) : Z * bool * bool * Execute.t :=
  let '(fu_index1, issued, issued_mem_ref, s1) :=
    issue_try_fu inst fu_index s in
  let fu_index2 := uint_inc fu_index1 in
  if negb (fu_index2 =? Execute.numFuncUnits s1) && negb issued then
    match fuel with
    | O => (fu_index2, issued, issued_mem_ref, s1)
    | S fuel' => issue_to_fus fuel' inst fu_index2 s1
    end
  else (fu_index2, issued, issued_mem_ref, s1).

(** The variables of [issue] that live across iterations. *)
Record IssueVars := {
  iv_insts_in : option ForwardInstData;
  iv_fu_index : Z;
  iv_issued : bool;
  iv_num_insts_issued : Z;
  iv_num_mem_insts_issued : Z;
  iv_num_insts_discarded : Z;
}.

(** One iteration of the outer [do] loop on the line [insts_in]. *)
Definition issue_iteration (only_issue_microops : bool)
    (insts_in : ForwardInstData) (v : IssueVars) (s : Execute.t)
    : IssueVars * Execute.t :=
  let inst := inst_at insts_in (Execute.inputIndex s) in
  let i := deref s inst in
  let thread_id := threadOf s inst in
  let fault := MinorDynInst.fault i in
  let '(fu_index, issued, discarded, issued_mem_ref, s1) :=
    if isBubble inst then
      (* Skip *)
      (iv_fu_index v, true, false, false, s)
    else if bool_decide
              (ThreadContext.status (getContext s thread_id) = Suspended)
    then (iv_fu_index v, false, false, false, s)
    else if negb (InstId.streamSeqNum (MinorDynInst.id i) =?
                  Execute.streamSeqNum s)
    then
      (* Discarding inst as its stream state was unexpected *)
      (iv_fu_index v, true, true, false, s)
    else if isNoFault fault && only_issue_microops &&
            (* Is this anything other than a non-first microop *)
            (negb (MinorDynInst.sflag StaticInst.isMicroop i) ||
             negb (MinorDynInst.sflag StaticInst.isFirstMicroop i))
    then (iv_fu_index v, false, false, false, s)
    else
      (* Try FU from 0 each instruction *)
      let '(fu_index, issued, issued_mem_ref, s1) :=
        issue_to_fus (length (Execute.funcUnits s)) inst 0 s in
      (fu_index, issued, false, issued_mem_ref, s1) in
  let '(v1, s2) :=
    if issued then
      (* Mark up barriers in the LSQ *)
      let s10 :=
        if negb discarded && isInst s1 inst &&
           MinorDynInst.sflag StaticInst.isMemBarrier (deref s1 inst)
        then Execute.emit (EvIssuedMemBarrier inst)
               (Execute.upd_lsq
                  (lsq_issuedMemBarrierInst inst (deref s1 inst)) s1)
        else s1 in
      let num_mem_insts_issued :=
        if issued_mem_ref then uint_inc (iv_num_mem_insts_issued v)
        else iv_num_mem_insts_issued v in
      let num_insts_discarded :=
        if discarded then uint_inc (iv_num_insts_discarded v)
        else iv_num_insts_discarded v in
      let num_insts_issued :=
        if discarded then iv_num_insts_issued v
        else uint_inc (iv_num_insts_issued v) in
      ({| iv_insts_in := Some insts_in; iv_fu_index := fu_index;
          iv_issued := issued;
          iv_num_insts_issued := num_insts_issued;
          iv_num_mem_insts_issued := num_mem_insts_issued;
          iv_num_insts_discarded := num_insts_discarded |},
       Execute.set_inputIndex (uint_inc (Execute.inputIndex s10)) s10)
    else
      ({| iv_insts_in := Some insts_in; iv_fu_index := fu_index;
          iv_issued := issued;
          iv_num_insts_issued := iv_num_insts_issued v;
          iv_num_mem_insts_issued := iv_num_mem_insts_issued v;
          iv_num_insts_discarded := iv_num_insts_discarded v |}, s1) in
  (* Got to the end of a line *)
  if Execute.inputIndex s2 =? width insts_in then
    let s3 := popInput s2 in
    let insts_in' :=
      if Execute.processMoreThanOneInput s3 then getInput s3 else None in
    ({| iv_insts_in := insts_in'; iv_fu_index := iv_fu_index v1;
        iv_issued := iv_issued v1;
        iv_num_insts_issued := iv_num_insts_issued v1;
        iv_num_mem_insts_issued := iv_num_mem_insts_issued v1;
        iv_num_insts_discarded := iv_num_insts_discarded v1 |}, s3)
  else (v1, s2).

(** The condition of the outer [do ... while]. *)
Definition issue_continues (v : IssueVars) (s : Execute.t) : bool :=
  match iv_insts_in v with
  | Some insts_in =>
      (Execute.inputIndex s <? width insts_in) &&
      negb (iv_fu_index v =? Execute.numFuncUnits s) &&
      iv_issued v &&
      negb (iv_num_insts_issued v =? Execute.issueLimit s) &&
      negb (iv_num_mem_insts_issued v =? Execute.memoryIssueLimit s)
  | None => false
  end.

(** The outer loop.  A round that goes on has consumed an instruction
    of the input buffer, so the instructions waiting there bound the
    rounds. *)
Fixpoint issue_loop (fuel : nat) (only_issue_microops : bool)
    (insts_in : ForwardInstData) (v : IssueVars) (s : Execute.t)
    : IssueVars * Execute.t :=
  let '(v1, s1) := issue_iteration only_issue_microops insts_in v s in
  if issue_continues v1 s1 then
    match fuel, iv_insts_in v1 with
    | S fuel', Some insts_in' =>
        issue_loop fuel' only_issue_microops insts_in' v1 s1
    | _, _ => (v1, s1)
    end
  else (v1, s1).

Definition issue_fuel (s : Execute.t) : nat :=
  length (concat (Execute.inputBuffer s)).

Definition issue (only_issue_microops : bool) (s : Execute.t)
    : Z * Execute.t :=
  match getInput s with
  | None => (0, s)      (* Early termination if we have no instructions *)
  | Some insts_in =>
      let '(v, s1) :=
        issue_loop (issue_fuel s) only_issue_microops insts_in
          {| iv_insts_in := Some insts_in; iv_fu_index := 0;
             iv_issued := true; iv_num_insts_issued := 0;
             iv_num_mem_insts_issued := 0;
             iv_num_insts_discarded := 0 |} s in
      (iv_num_insts_issued v, s1)
  end.


(** *** [Execute::Execute] *)
(** The checks of the constructor, in the order of the source and with
    its messages; past them the engine starts with empty queues. *)
Definition Execute_new (params : Params.t) (funcUnits : list FUPipeline.t)
    (scoreboard : Scoreboard) (world : World.t) (curCycle : Cycles)
    (curTick : Tick) : Outcome Execute.t :=
  let issueLimit := Params.executeIssueLimit params in
  let memoryIssueLimit := Params.executeMemoryIssueLimit params in
  let commitLimit := Params.executeCommitLimit params in
  let memoryCommitLimit := Params.executeMemoryCommitLimit params in
  if commitLimit <? 1 then
    Fatal "%s: executeCommitLimit must be >= 1 (%d)\n"
  else if issueLimit <? 1 then
    Fatal "%s: executeCommitLimit must be >= 1 (%d)\n"
  else if memoryIssueLimit <? 1 then
    Fatal "%s: executeMemoryIssueLimit must be >= 1 (%d)\n"
  else if commitLimit <? memoryCommitLimit then
    Fatal ("%s: executeMemoryCommitLimit (%d) must be <=" ++
           " executeCommitLimit (%d)\n")
  else if Params.executeInputBufferSize params <? 1 then
    Fatal "%s: executeInputBufferSize must be >= 1 (%d)\n"
  else if Params.executeInputBufferSize params <? 1 then
    Fatal "%s: executeInputBufferSize must be >= 1 (%d)\n"
  else
    Done {| Execute.params := params;
            Execute.curCycle := curCycle;
            Execute.curTick := curTick;
            Execute.inputBuffer := [];
            Execute.inputIndex := 0;
            Execute.lastCommitWasEndOfMacroop := true;
            Execute.streamSeqNum := firstStreamSeqNum;
            Execute.lastPredictionSeqNum := firstPredictionSeqNum;
            Execute.drainState := NotDraining;
            Execute.funcUnits := funcUnits;
            Execute.inFlightInsts := [];
            Execute.inFUMemInsts := [];
            Execute.scoreboard := scoreboard;
            Execute.insts := fun _ => bubbleInst;
            Execute.world := world;
            Execute.stats := Stats.mk 0 0 0 0;
            Execute.log := [] |}.

(** *** Draining *)

(** [Execute::setDrainState] *)
Definition setDrainState (state : DrainState) (s : Execute.t) : Execute.t :=
  Execute.set_drainState state s.

(** [Execute::isDrained] *)
Definition isDrained (s : Execute.t) : bool :=
  bool_decide (Execute.drainState s = DrainAllInsts) &&
  bool_decide (Execute.inputBuffer s = []) &&
  bool_decide (Execute.inFlightInsts s = []) &&
  lsq_isDrained (World.lsq (Execute.world s)).

(** [Execute::drain] *)
Definition drain (s : Execute.t) : Z * Execute.t :=
  let s1 :=
    if bool_decide (Execute.drainState s = NotDraining) then
      let s0 := Execute.emit EvWakeup s in
      if isInbetweenInsts s0
      then setDrainState DrainHaltFetch s0
      else setDrainState DrainCurrentInst s0
    else s in
  (if isDrained s1 then 0 else 1, s1).

(** [BranchData::bubble()] *)
Definition BranchData_bubble : BranchData.t :=
  {| BranchData.reason := NoBranch;
     BranchData.newStreamSeqNum := 0;
     BranchData.newPredictionSeqNum := 0;
     BranchData.target := PCState_default;
     BranchData.inst := BubblePtr |}.

(** [Execute::wakeupFetch]; returns what is written to the output wire. *)
Definition wakeupFetch (reason : Reason) (s : Execute.t)
    : BranchData.t * Execute.t :=
  let branch := BranchData_bubble in
  let '(b, s1) :=
    if negb (BranchData.isStreamChange branch) then
      updateBranchData reason BubblePtr
        (ThreadContext.pcState (getContext s 0)) branch s
    else (branch, s) in
  (b, Execute.emit EvWakeup s1).

(** [Execute::drainResume] *)
Definition drainResume (s : Execute.t) : BranchData.t * Execute.t :=
  let '(b, s1) := wakeupFetch WakeupFetch (setDrainState NotDraining s) in
  (b, Execute.emit EvWakeup s1).

(** *** [Execute::takeInterrupt] *)
Definition takeInterrupt (thread_id : ThreadID) (branch : BranchData.t)
    (s : Execute.t) : bool * BranchData.t * Execute.t :=
  match getInterrupt (Execute.world s) thread_id with
  | Some interrupt =>
      (* The interrupt *must* set pcState *)
      let s1 := Execute.upd_world (updateIntrInfo thread_id) s in
      let s2 := invokeFault interrupt thread_id None s1 in
      let '(b, s3) :=
        updateBranchData Interrupt BubblePtr
          (ThreadContext.pcState (getContext s2 thread_id)) branch s2 in
      (true, b, s3)
  | None => (false, branch, s)
  end.

(** *** [Execute::evaluate] *)

(** [while (getInput()) popInput();] *)
Fixpoint discardInput (fuel : nat) (s : Execute.t) : Execute.t :=
  match getInput s, fuel with
  | Some _, S fuel' => discardInput fuel' (popInput s)
  | _, _ => s
  end.

(** Commit and issue as the drain state allows; the arm of [evaluate]
    taken when no interrupt was taken and the output wire is free. *)
Definition evaluate_commit_issue (fuel : nat) (interrupted : bool)
    (insts_in : option ForwardInstData) (branch : BranchData.t)
    (s : Execute.t) : Outcome (Z * BranchData.t * Execute.t) :=
  r <- (if negb (bool_decide (Execute.drainState s = NotDraining)) then
          if bool_decide (Execute.drainState s = DrainCurrentInst) then
            (* Commit only micro-ops, don't kill anything else *)
            r <- commit fuel true false branch s ;;;
            let s1 := snd r in
            let s2 :=
              if isInbetweenInsts s1
              then setDrainState DrainHaltFetch s1
              else s1 in
            (* Discard any generated branch *)
            Done (BranchData_bubble, s2)
          else if bool_decide (Execute.drainState s = DrainAllInsts) then
            (* Kill all instructions *)
            commit fuel false true branch
              (discardInput (length (Execute.inputBuffer s)) s)
          else Done (branch, s)
        else
          (* Commit micro-ops only if interrupted.  Otherwise, commit
             anything you like *)
          commit fuel interrupted false branch s) ;;;
  let '(b, s1) := r in
  match insts_in with
  | Some _ =>
      let '(num_issued, s2) := issue false s1 in
      Done (num_issued, b, s2)
  | None => Done (0, b, s1)
  end.

(** The cycle: [inp] is the line on the input wire, [branch] the content
    of the output wire.  What follows the decision to tick again
    (statistics per function and the register-file fault injection of the
    experiments) touches neither queues nor drain state and is left out. *)
Definition evaluate (fuel : nat) (inp : ForwardInstData)
    (branch : BranchData.t) (s : Execute.t)
    : Outcome (BranchData.t * Execute.t) :=
  (* inputBuffer.setTail of the line on the input wire *)
  let s0 :=
    if ForwardInstData_isBubble inp then s
    else Execute.set_inputBuffer (Execute.inputBuffer s ++ [inp]) s in
  let insts_in := getInput s0 in
  let s1 := Execute.emit EvLsqStep (Execute.upd_lsq lsq_step s0) in
  (* Has an interrupt been signalled? *)
  let interrupted :=
    if hasInterruptController (Execute.world s1)
    then bool_decide (Execute.drainState s1 = NotDraining) &&
         isInterrupted 0 s1
    else false in
  (* Act on interrupts *)
  let '(took_interrupt, b1, s2) :=
    if interrupted && isInbetweenInsts s1
    then takeInterrupt 0 branch s1
    else (false, branch, s1) in
  let interrupted :=
    if interrupted && isInbetweenInsts s1 then took_interrupt
    else interrupted in
  r <- (if took_interrupt then Done (0, b1, s2)
        else if negb (BranchData.isBubble b1) then Done (0, b1, s2)
        else evaluate_commit_issue fuel interrupted insts_in b1 s2) ;;;
  let '(num_issued, b2, s3) := r in
  (* Halt fetch, but don't do it until we have the current instruction in
     the bag *)
  let '(b3, s4) :=
    if bool_decide (Execute.drainState s3 = DrainHaltFetch) then
      let '(b, s30) :=
        updateBranchData HaltFetch BubblePtr (PCState_at 0) b2 s3 in
      (b, setDrainState DrainAllInsts (Execute.emit EvWakeup s30))
    else (b2, s3) in
  (* Find the next issuable instruction and see if it can be issued *)
  let '(next_issuable_inst, can_issue_next) :=
    match getInput s4 with
    | Some line =>
        let inst := inst_at line (Execute.inputIndex s4) in
        if MinorDynInst.isFault (deref s4 inst) then (None, true)
        else if negb (isBubble inst) then
          if negb (bool_decide
                     (ThreadContext.status (getContext s4 (threadOf s4 inst))
                      = Suspended))
          then (Some inst, false)
          else (None, false)
        else (None, false)
    | None => (None, false)
    end in
  (* Advance the pipelines and note whether they still need to be
     advanced *)
  let advanced := map fu_advance (Execute.funcUnits s4) in
  let s5 := Execute.set_funcUnits advanced s4 in
  let becoming_stalled :=
    forallb
      (fun fu => negb (negb (fu_occupancy fu =? 0) &&
                       negb (FUPipeline.stalled fu))) advanced in
  let can_issue_next :=
    can_issue_next ||
    match next_issuable_inst with
    | Some inst =>
        existsb
          (fun fu =>
             negb (FUPipeline.stalled fu) &&
             sb_canInstIssue (Execute.scoreboard s5) (deref s5 inst)
               None None (Cycles_add (Execute.curCycle s5) 1)
               (getContext s5 (threadOf s5 inst)) &&
             fu_provides fu (sopClass (deref s5 inst))) advanced
    | None => false
    end in
  (* Could the head in flight insts be committed *)
  let head_inst_might_commit :=
    match Execute.inFlightInsts s5 with
    | head_inst :: _ =>
        if isNoCostInst s5 head_inst then true
        else
          match funcUnit s5 (MinorDynInst.fuIndex (deref s5 head_inst)) with
          | Some fu =>
              (FUPipeline.stalled fu &&
               InstId.eqb (MinorDynInst.id (deref s5 (fu_front fu)))
                 (MinorDynInst.id (deref s5 head_inst))) ||
              bool_decide
                (is_Some (lsq_findResponse (World.lsq (Execute.world s5))
                            head_inst))
          | None =>
              bool_decide
                (is_Some (lsq_findResponse (World.lsq (Execute.world s5))
                            head_inst))
          end
    | [] => false
    end in
  let need_to_tick :=
    negb (num_issued =? 0) || negb becoming_stalled || can_issue_next ||
    head_inst_might_commit ||
    lsq_needsToTick (World.lsq (Execute.world s5)) || interrupted in
  (* Wake up if we need to tick again *)
  let s6 := if need_to_tick then Execute.emit EvWakeup s5 else s5 in
  (* Note activity of following buffer *)
  let s7 :=
    if negb (BranchData.isBubble b3) then Execute.emit EvActivity s6
    else s6 in
  Done (b3, s7).

End Model.

(** ** The specification's wording *)

(** The table of section 4.4 as a function of the three inputs it names,
    (predictedTaken, mustBranch, predictedTarget == actualTarget). *)
Definition table_reason (predictedTaken mustBranch targetsMatch : bool)
    : Reason :=
  if predictedTaken then
    if negb mustBranch then BadlyPredictedBranch
    else if targetsMatch then CorrectlyPredictedBranch
    else BadlyPredictedBranchTarget
  else if mustBranch then UnpredictedBranch
  else NoBranch.

(** The legal configurations in the words of the error-handling section:
    no issue, commit or memory limit that is zero or negative, no memory
    commit limit above the commit limit, no buffer without a slot. *)
Definition legal_configuration (p : Params.t) : bool :=
  (1 <=? Params.executeCommitLimit p) &&
  (1 <=? Params.executeIssueLimit p) &&
  (1 <=? Params.executeMemoryIssueLimit p) &&
  (1 <=? Params.executeMemoryCommitLimit p) &&
  (Params.executeMemoryCommitLimit p <=? Params.executeCommitLimit p) &&
  (1 <=? Params.executeInputBufferSize p).

(** Whether a run came to its end. *)
Definition is_done {A} (o : Outcome A) : bool :=
  match o with Done _ => true | _ => false end.

(** * The vocabulary of the statements *)

Section Vocabulary.
Context `{IsaTypes} `{!Collaborators}.

(** [frame P s s']: going from [s] to [s'] the drain state is kept and the
    log has only grown, by events that satisfy [P]. *)
Definition frame (P : Event -> bool) (s s' : Execute.t) : Prop :=
  Execute.drainState s' = Execute.drainState s /\
  exists k, Execute.log s' = k ++ Execute.log s /\ forallb P k = true.

(** What the PC events and a discard leave alone: the queues, the
    instructions, the sequence numbers, the counters and the scoreboard;
    the log gains no architectural effect. *)
Record kept (s s' : Execute.t) : Prop := {
  kept_inFlightInsts : Execute.inFlightInsts s' = Execute.inFlightInsts s;
  kept_inFUMemInsts : Execute.inFUMemInsts s' = Execute.inFUMemInsts s;
  kept_insts : Execute.insts s' = Execute.insts s;
  kept_streamSeqNum : Execute.streamSeqNum s' = Execute.streamSeqNum s;
  kept_params : Execute.params s' = Execute.params s;
  kept_drainState : Execute.drainState s' = Execute.drainState s;
  kept_stats : Execute.stats s' = Execute.stats s;
  kept_scoreboard : Execute.scoreboard s' = Execute.scoreboard s;
  kept_arch :
    count_events is_arch_effect (Execute.log s') =
    count_events is_arch_effect (Execute.log s);
}.

(** The stream check made on an instruction picked for completion. *)
Definition stale (discard : bool) (s : Execute.t) (inst : InstPtr) : bool :=
  negb (InstId.streamSeqNum (MinorDynInst.id (deref s inst)) =?
        Execute.streamSeqNum s) || discard.

(** The shape of an attempt that discards. *)
Definition discard_shape (discard : bool) (v : CommitVars) (s : Execute.t)
    (it0 : CommitIter) (s1 : Execute.t) : Prop :=
  it_vars it0 =
    {| cv_branch := cv_branch v; cv_fault := cv_fault v;
       cv_completed_inst := true;
       cv_num_insts_committed := cv_num_insts_committed v;
       cv_num_mem_refs_committed := cv_num_mem_refs_committed v |} /\
  it_committed_inst it0 = false /\
  it_issued_mem_ref it0 = false /\
  stale discard s (it_inst it0) = true /\
  kept s s1.

(** The timing overrides [issue] reads for [inst] in unit [fu]. *)
Definition timing_for (fu : FUPipeline.t) (i : MinorDynInst.t)
    : option MinorFUTiming.t :=
  if negb (MinorDynInst.isFault i)
  then fu_findTiming fu (MinorDynInst.staticInst i)
  else None.

Definition extraCommitLat_of (t : option MinorFUTiming.t) : Cycles :=
  match t with Some t => MinorFUTiming.extraCommitLat t | None => 0 end.

Definition extraAssumedLat_of (t : option MinorFUTiming.t) : Cycles :=
  match t with Some t => MinorFUTiming.extraAssumedLat t | None => 0 end.

(** What the scoreboard is told when [inst] goes into unit [fu]. *)
Definition marked_busy (inst : InstPtr) (fu_index : Z) (fu : FUPipeline.t)
    (s s' : Execute.t) : Prop :=
  let i := deref s inst in
  let timing := timing_for fu i in
  let retire :=
    Cycles_add
      (Cycles_add (Cycles_add (Execute.curCycle s) (FUPipeline.opLat fu))
         (extraCommitLat_of timing))
      (extraAssumedLat_of timing) in
  let mark_unpredictable :=
    isMemRef s inst && (extraAssumedLat_of timing =? 0) in
  funcUnit s fu_index = Some fu /\
  Execute.scoreboard s' =
    sb_markupInstDests inst (deref s' inst) retire
      (getContext s (threadOf s inst)) mark_unpredictable
      (Params.ScoreboardFI (Execute.params s))
      (Params.FItarget (Execute.params s)) (Execute.scoreboard s) /\
  hd_error (Execute.log s') =
    Some (EvMarkupInstDests inst retire mark_unpredictable) /\
  (0 <= Execute.curCycle s -> 0 <= FUPipeline.opLat fu ->
   0 <= extraCommitLat_of timing -> 0 <= extraAssumedLat_of timing ->
   Execute.curCycle s + FUPipeline.opLat fu + extraCommitLat_of timing +
     extraAssumedLat_of timing < 2 ^ 64 ->
   retire =
     Execute.curCycle s + FUPipeline.opLat fu + extraCommitLat_of timing +
     extraAssumedLat_of timing).

End Vocabulary.

(** The moves of the drain state that the engine makes by itself. *)
Inductive drain_step : DrainState -> DrainState -> Prop :=
  | drain_requested_in_macroop : drain_step NotDraining DrainCurrentInst
  | drain_requested_between : drain_step NotDraining DrainHaltFetch
  | drain_macroop_done : drain_step DrainCurrentInst DrainHaltFetch
  | drain_fetch_halted : drain_step DrainHaltFetch DrainAllInsts.

(** ** A small machine to run the model on *)

(** PCs are addresses and instructions are four bytes long; a control
    instruction jumps to the address held in its [sid]; a fault jumps to
    its vector; memory responses are served in order; the scoreboard keeps
    the last retire time it was given for each instruction; a functional
    unit is a list of stages with room for everything. *)
Module Demo.

Definition types : IsaTypes :=
  {| PCState := Z;
     FaultObj := Z;
     Arch := unit;
     LSQ := list (InstPtr * option Z * option Z * bool);
     Scoreboard := list (InstPtr * Cycles);
     FUPipe := list InstPtr;
     TimingExpr := Z;
     Packet := Z;
     Sys := unit |}.

#[local] Existing Instance types.

Definition set_pc (tid : ThreadID) (pc : Z) (w : World.t) : World.t :=
  World.upd_thread tid (ThreadContext.set_pcState pc) w.

Definition execute (si : option StaticInst.t) (p : InstPtr) (w : World.t)
    : Fault * World.t :=
  match si with
  | Some i =>
      if StaticInst.isControl i
      then (None, set_pc 0 (StaticInst.sid i) w)
      else (None, w)
  | None => (None, w)
  end.

Definition response (r : InstPtr * option Z * option Z * bool)
    : LSQRequest.t :=
  let '(p, f, pkt, sb) := r in
  {| LSQRequest.inst := p; LSQRequest.fault := f;
     LSQRequest.packet := pkt;
     LSQRequest.needsToBeSentToStoreBuffer := sb |}.

Definition findResponse (q : list (InstPtr * option Z * option Z * bool))
    (p : InstPtr) : option LSQRequest.t :=
  match q with
  | r :: _ =>
      if InstPtr_eqb (LSQRequest.inst (response r)) p
      then Some (response r) else None
  | [] => None
  end.

Definition findTiming (fu : FUPipeline.t) (si : option StaticInst.t)
    : option MinorFUTiming.t :=
  match si with
  | Some i =>
      if StaticInst.opClass i =? 2
      then Some {| MinorFUTiming.suppress := false;
                   MinorFUTiming.extraCommitLat := 2;
                   MinorFUTiming.extraCommitLatExpr := None;
                   MinorFUTiming.extraAssumedLat := 1;
                   MinorFUTiming.srcRegsRelativeLats := [] |}
      else None
  | None => None
  end.

Definition collab : Collaborators :=
  {| pc_eqb := Z.eqb;
     PCState_default := 0;
     PCState_at := fun a => a;
     instAddr := fun pc => pc;
     advancePC := fun pc _ => pc + 4;
     Arch_clearZeroReg := fun a => a;
     isa_execute := execute;
     isa_initiateAcc := fun _ _ w => (None, w);
     isa_completeAcc := fun _ _ _ w => (None, w);
     Fault_invoke := fun f tid _ w => set_pc tid f w;
     Packet_isError := fun p => p <? 0;
     TimingExpr_eval := fun e _ _ => e;
     firstStreamSeqNum := 1;
     firstPredictionSeqNum := 1;
     hasInterruptController := fun _ => true;
     checkInterrupts := fun _ _ => false;
     getInterrupt := fun _ _ => None;
     updateIntrInfo := fun _ w => w;
     pcEventQueue_service := fun w => w;
     pcEventBudget := fun _ => O;
     serviceInstEvents := fun _ w => w;
     rand_mod_500 := fun _ => O;
     lsq_canRequest := fun _ => true;
     lsq_findResponse := findResponse;
     lsq_popResponse := fun _ q => tail q;
     lsq_pushFailedRequest := fun _ q => q;
     lsq_sendStoreToStoreBuffer := fun _ q => q;
     lsq_getLastMemBarrier := fun _ => 0;
     lsq_canPushIntoStoreBuffer := fun _ => true;
     lsq_accessesInFlight := fun q => negb (bool_decide (q = []));
     lsq_issuedMemBarrierInst := fun _ _ q => q;
     lsq_completeMemBarrierInst := fun _ _ q => q;
     lsq_isDrained := fun q => bool_decide (q = []);
     lsq_needsToTick := fun q => negb (bool_decide (q = []));
     lsq_step := fun q => q;
     sb_canInstIssue := fun _ _ _ _ _ _ => true;
     sb_markupInstDests := fun p _ c _ _ _ _ sb => (p, c) :: sb;
     sb_clearInstDests :=
       fun p _ _ sb => filter (fun e => fst e <> p) sb;
     sb_execSeqNumToWaitFor := fun _ _ _ => 0;
     fu_provides := fun _ _ => true;
     fu_alreadyPushed := fun _ => false;
     fu_canInsert := fun _ => true;
     fu_findTiming := findTiming;
     fu_push := fun p fu => FUPipeline.set_pipe (p :: FUPipeline.pipe fu) fu;
     fu_front := fun fu => List.last (FUPipeline.pipe fu) BubblePtr;
     fu_advance := fun fu => fu;
     fu_occupancy := fun fu => Z.of_nat (length (FUPipeline.pipe fu));
     ForwardInstData_isBubble :=
       fun line => match line with
                   | [] => true
                   | p :: _ => InstPtr_eqb p BubblePtr
                   end |}.

#[local] Existing Instance collab.

Definition params : Params.t :=
  {| Params.executeIssueLimit := 2;
     Params.executeMemoryIssueLimit := 1;
     Params.executeCommitLimit := 2;
     Params.executeMemoryCommitLimit := 1;
     Params.executeInputBufferSize := 7;
     Params.executeCycleInput := true;
     Params.executeAllowEarlyMemoryIssue := true;
     Params.FItarget := 0;
     Params.FItargetReg := 0;
     Params.ScoreboardFI := false |}.

Definition thread0 : ThreadContext.t :=
  {| ThreadContext.status := Active; ThreadContext.pcState := 100;
     ThreadContext.predicate := true; ThreadContext.arch := tt |}.

Definition world0 : World.t :=
  {| World.threads := fun _ => thread0; World.lsq := [];
     World.faultIsInjected := false; World.sys := tt |}.

Definition unit0 : FUPipeline.t :=
  {| FUPipeline.opLat := 3; FUPipeline.cantForwardFromFUIndices := [];
     FUPipeline.stalled := false; FUPipeline.pipe := [] |}.

(** An engine with two units at cycle 10, on stream 1, configured by [p]. *)
Definition engine_with (p : Params.t) : Execute.t :=
  {| Execute.params := p;
     Execute.curCycle := 10;
     Execute.curTick := 5000;
     Execute.inputBuffer := [];
     Execute.inputIndex := 0;
     Execute.lastCommitWasEndOfMacroop := true;
     Execute.streamSeqNum := 1;
     Execute.lastPredictionSeqNum := 1;
     Execute.drainState := NotDraining;
     Execute.funcUnits := [unit0; unit0];
     Execute.inFlightInsts := [];
     Execute.inFUMemInsts := [];
     Execute.scoreboard := [];
     Execute.insts := fun _ => bubbleInst;
     Execute.world := world0;
     Execute.stats := Stats.mk 0 0 0 0;
     Execute.log := [] |}.

Definition engine : Execute.t := engine_with params.

(** Static instructions: an ALU op, a jump to 200 that serialises, a
    load, an op of class 2 (the one with timing overrides). *)
Definition alu : StaticInst.t :=
  StaticInst.mk 1 1 false false false false false false
    false false false false false false.
Definition jump (target : Z) (serialize : bool) : StaticInst.t :=
  StaticInst.mk target 1 true false false false serialize false
    false false false false false false.
Definition load : StaticInst.t :=
  StaticInst.mk 3 3 false false false false false false
    true true false false false false.
Definition slow : StaticInst.t :=
  StaticInst.mk 4 2 false false false false false false
    false false false false false false.

(** A fetched instruction of thread 0 at [pc]. *)
Definition fetched (si : StaticInst.t) (stream exec : InstSeqNum) (pc : Z)
    (predictedTaken : bool) (predictedTarget : Z) : MinorDynInst.t :=
  {| MinorDynInst.id := InstId.mk 0 stream 7 1 exec exec;
     MinorDynInst.pc := pc;
     MinorDynInst.staticInst := Some si;
     MinorDynInst.fault := None;
     MinorDynInst.predictedTaken := predictedTaken;
     MinorDynInst.predictedTarget := predictedTarget;
     MinorDynInst.fuIndex := 0;
     MinorDynInst.inLSQ := false;
     MinorDynInst.canEarlyIssue := false;
     MinorDynInst.instToWaitFor := 0;
     MinorDynInst.extraCommitDelay := 0;
     MinorDynInst.extraCommitDelayExpr := None;
     MinorDynInst.minimumCommitCycle := 0 |}.

(** Put [i] behind pointer [Ptr n]. *)
Definition store (n : nat) (i : MinorDynInst.t) (s : Execute.t)
    : Execute.t :=
  Execute.set_insts (<[n := i]> (Execute.insts s)) s.

(** The thread has just executed the instruction behind [Ptr 1], fetched
    at 100, and now stands at [pc]. *)
Definition after_execute (i : MinorDynInst.t) (pc : Z) : Execute.t :=
  Execute.upd_world (set_pc 0 pc) (store 1 i engine).

(** A serialising jump to 200, predicted taken with the target the
    engine will compute. *)
Definition forced_state : Execute.t :=
  after_execute (fetched (jump 200 true) 1 5 100 true 204) 200.

(** A plain jump to 200, predicted taken to the right target. *)
Definition well_predicted_state : Execute.t :=
  after_execute (fetched (jump 200 false) 1 5 100 true 204) 200.

(** The same jump predicted to go elsewhere. *)
Definition wrong_target_state : Execute.t :=
  after_execute (fetched (jump 200 false) 1 5 100 true 300) 200.

(** The instruction behind [Ptr 1] has been issued to unit 0, has reached
    its tail and heads the in-flight queue. *)
Definition at_unit0_tail (i : MinorDynInst.t) : Execute.t :=
  Execute.set_inFlightInsts [Ptr 1]
    (Execute.set_funcUnits [FUPipeline.set_pipe [Ptr 1] unit0; unit0]
       (store 1 i engine)).

(** An ALU instruction of stream 0, one behind the engine. *)
Definition stale_head_state : Execute.t :=
  at_unit0_tail (fetched alu 0 5 100 false 0).

(** An ALU instruction of the current stream whose extra commit delay is
    the expression [e] on top of [fixed] cycles. *)
Definition delayed (fixed : Cycles) (e : Z) : MinorDynInst.t :=
  MinorDynInst.set_extraCommitDelayExpr (Some e)
    (MinorDynInst.set_extraCommitDelay fixed (fetched alu 1 5 100 false 0)).

Definition short_delay_state : Execute.t := at_unit0_tail (delayed 2 5).
Definition long_delay_state : Execute.t := at_unit0_tail (delayed 0 200).

(** Two lines from decode, each an ALU instruction and a bubble that
    pads the line. *)
Definition two_lines_state : Execute.t :=
  Execute.set_inputBuffer [[Ptr 1; BubblePtr]; [Ptr 2; BubblePtr]]
    (store 2 (fetched alu 1 6 104 false 0)
       (store 1 (fetched alu 1 5 100 false 0) engine)).

(** An instruction of the class with timing overrides, not yet issued. *)
Definition slow_state : Execute.t :=
  store 1 (fetched slow 1 5 100 false 0) engine.

(** The engine asked to drain in the middle of a macro-op. *)
Definition draining_engine : Execute.t :=
  setDrainState DrainCurrentInst engine.

(** A load of the current stream whose response, at the head of the
    memory queue, carries fault 900. *)
Definition faulting_response : LSQRequest.t :=
  response (Ptr 1, Some 900, None, false).

Definition with_faulting_load (s : Execute.t) : Execute.t :=
  Execute.upd_lsq (fun _ => [(Ptr 1, Some 900, None, false)])
    (Execute.set_inFlightInsts [Ptr 1]
       (store 1 (MinorDynInst.set_inLSQ true
                   (fetched load 1 5 100 false 0)) s)).

Definition faulting_load_state : Execute.t := with_faulting_load engine.

(** A configuration that lets no memory reference commit. *)
Definition no_memory_commit_params : Params.t :=
  {| Params.executeIssueLimit := 1;
     Params.executeMemoryIssueLimit := 1;
     Params.executeCommitLimit := 1;
     Params.executeMemoryCommitLimit := 0;
     Params.executeInputBufferSize := 1;
     Params.executeCycleInput := true;
     Params.executeAllowEarlyMemoryIssue := true;
     Params.FItarget := 0;
     Params.FItargetReg := 0;
     Params.ScoreboardFI := false |}.

(** The same load and response in an engine of that configuration. *)
Definition starved_state : Execute.t :=
  with_faulting_load (engine_with no_memory_commit_params).

(** A configuration without an issue slot. *)
Definition no_issue_params : Params.t :=
  {| Params.executeIssueLimit := 0;
     Params.executeMemoryIssueLimit := 1;
     Params.executeCommitLimit := 1;
     Params.executeMemoryCommitLimit := 1;
     Params.executeInputBufferSize := 1;
     Params.executeCycleInput := true;
     Params.executeAllowEarlyMemoryIssue := true;
     Params.FItarget := 0;
     Params.FItargetReg := 0;
     Params.ScoreboardFI := false |}.

End Demo.

(** * Helpers of execute.cc outside the cycle *)

(** ** The cyclic buffer indices *)

(** The value of an [unsigned int] expression converted to [int]. *)
Definition to_int32 (z : Z) : Z :=
  let w := wrap32 z in
  if w <? 2 ^ 31 then w else w - 2 ^ 32.

(** [cyclicIndexInc]: "Increment a cyclic buffer index for indices
    [0, cycle_size-1]". *)
Definition cyclicIndexInc (index cycle_size : Z) : Z :=
  let ret := wrap32 (index + 1) in
  if ret =? cycle_size then 0 else ret.

(** [cyclicIndexDec]: the difference is computed on [unsigned int] and
    held in an [int]; the result goes back to [unsigned int]. *)
Definition cyclicIndexDec (index cycle_size : Z) : Z :=
  let ret := to_int32 (index - 1) in
  let ret := if ret <? 0 then to_int32 (cycle_size - 1) else ret in
  wrap32 ret.

(** ** The registers of the SWIFT and ZDC experiments *)

(** [enum Aarch64] *)
Module Aarch64.
Definition X0 : Z := 0.
Definition X1 : Z := 1.
Definition X2 : Z := 2.
Definition X3 : Z := 3.
Definition X4 : Z := 4.
Definition X5 : Z := 5.
Definition X19 : Z := 19.
Definition X20 : Z := 20.
Definition X23 : Z := 23.
Definition X24 : Z := 24.
Definition X28 : Z := 28.
Definition X29 : Z := 29.
Definition X30 : Z := 30.
Definition SP : Z := 43.
Definition XZR : Z := 31.
End Aarch64.

(** [Execute::isSWIFTMasterReg] *)
Definition isSWIFTMasterReg (reg : Z) : bool :=
  (reg =? Aarch64.X0) || (reg =? Aarch64.X1) || (reg =? Aarch64.X2) ||
  (reg =? Aarch64.X19) || (reg =? Aarch64.X20) || (reg =? Aarch64.X23) ||
  (reg =? Aarch64.X24) || (reg =? Aarch64.X29) || (reg =? Aarch64.X30) ||
  (reg =? Aarch64.SP).

(** [Execute::isSWIFTSlaveReg] *)
Definition isSWIFTSlaveReg (reg : Z) : bool :=
  if isSWIFTMasterReg reg then false else true.

(** [Execute::isZDCMasterReg] *)
Definition isZDCMasterReg (reg : Z) : bool :=
  (reg =? Aarch64.X0) || (reg =? Aarch64.X1) || (reg =? Aarch64.X2) ||
  (reg =? Aarch64.X3) || (reg =? Aarch64.X4) || (reg =? Aarch64.X5) ||
  (reg =? Aarch64.X19) || (reg =? Aarch64.X20) || (reg =? Aarch64.X23) ||
  (reg =? Aarch64.X24) || (reg =? Aarch64.X28) || (reg =? Aarch64.X29) ||
  (reg =? Aarch64.X30) || (reg =? Aarch64.SP).

(** [Execute::isZDCSlaveReg] *)
Definition isZDCSlaveReg (reg : Z) : bool :=
  if isZDCMasterReg reg then false else true.

(** What [isUnnecessaryInst] reads of the static instruction: its name
    and its register indices, [srcRegIdx(0..numSrcRegs-1)] and
    [destRegIdx(0..numDestRegs-1)]. *)
Record RegUse := {
  ru_name : string;
  ru_srcRegs : list Z;
  ru_destRegs : list Z;
}.

(** The flags [isUnnecessaryInst] accumulates. *)
Record UnnecessaryFlags := {
  desIsSlave : bool;
  srcIsMaster : bool;
  oneSrcIsZR : bool;
}.

(** The two [while] loops run for one scheme, over the destinations and
    then over the sources; they run only for an instruction named
    [sub]. *)
Definition scan_registers (isSlave isMaster : Z -> bool) (si : RegUse)
    (f : UnnecessaryFlags) : UnnecessaryFlags :=
  if String.eqb (ru_name si) "sub" then
    let d :=
      fold_left
        (fun acc reg => if isSlave reg && (reg <? 32) then true else acc)
        (ru_destRegs si) (desIsSlave f) in
    let '(m, z) :=
      fold_left
        (fun '(m, z) reg =>
           (if isMaster reg && ((reg <? 32) || (reg =? Aarch64.SP))
            then true else m,
            if reg =? Aarch64.XZR then true else z))
        (ru_srcRegs si) (srcIsMaster f, oneSrcIsZR f) in
    {| desIsSlave := d; srcIsMaster := m; oneSrcIsZR := z |}
  else f.

(** [Execute::isUnnecessaryInst]; [inMain] is the answer of the symbol
    table for the instruction's address. *)
Definition isUnnecessaryInst (enableSWIFT enableZDC inMain : bool)
    (si : RegUse) : bool :=
  let f :=
    {| desIsSlave := false; srcIsMaster := false; oneSrcIsZR := false |} in
  let f :=
    if enableSWIFT && inMain
    then scan_registers isSWIFTSlaveReg isSWIFTMasterReg si f else f in
  let f :=
    if enableZDC && inMain
    then scan_registers isZDCSlaveReg isZDCMasterReg si f else f in
  if desIsSlave f && srcIsMaster f && oneSrcIsZR f then true else false.

(** * More vocabulary *)

Section Invariants.
Context `{IsaTypes} `{!Collaborators}.

(** What a call of [commit] leaves of the engine it was given: the
    configuration, the clock and the input are kept, nothing enters a
    functional unit, the two queues lose instructions at their heads only
    and the counters only go up, the instructions no faster than the
    operations. *)
Record commit_keeps (s s' : Execute.t) : Prop := {
  ck_params : Execute.params s' = Execute.params s;
  ck_curCycle : Execute.curCycle s' = Execute.curCycle s;
  ck_curTick : Execute.curTick s' = Execute.curTick s;
  ck_inputBuffer : Execute.inputBuffer s' = Execute.inputBuffer s;
  ck_inputIndex : Execute.inputIndex s' = Execute.inputIndex s;
  ck_funcUnits :
    map FUPipeline.pipe (Execute.funcUnits s') =
    map FUPipeline.pipe (Execute.funcUnits s);
  ck_inFlightInsts :
    exists k, Execute.inFlightInsts s = k ++ Execute.inFlightInsts s';
  ck_inFUMemInsts :
    exists k, Execute.inFUMemInsts s = k ++ Execute.inFUMemInsts s';
  ck_numInsts :
    Stats.numInsts (Execute.stats s) <= Stats.numInsts (Execute.stats s');
  ck_insts_ops :
    Stats.numInsts (Execute.stats s') - Stats.numInsts (Execute.stats s) <=
    Stats.numOps (Execute.stats s') - Stats.numOps (Execute.stats s);
  ck_numDiscardedOps :
    Stats.numDiscardedOps (Execute.stats s) <=
    Stats.numDiscardedOps (Execute.stats s');
  ck_numFetchSuspends :
    Stats.numFetchSuspends (Execute.stats s) <=
    Stats.numFetchSuspends (Execute.stats s');
}.

(** What a call of [issue] leaves of the engine: it takes lines off the
    head of the input buffer and adds instructions at the ends of the two
    queues; the threads, the counters, the sequence numbers and the number
    of functional units are kept, and no call with an architectural effect
    is made. *)
Record issue_keeps (s s' : Execute.t) : Prop := {
  ik_params : Execute.params s' = Execute.params s;
  ik_curCycle : Execute.curCycle s' = Execute.curCycle s;
  ik_curTick : Execute.curTick s' = Execute.curTick s;
  ik_streamSeqNum : Execute.streamSeqNum s' = Execute.streamSeqNum s;
  ik_lastPredictionSeqNum :
    Execute.lastPredictionSeqNum s' = Execute.lastPredictionSeqNum s;
  ik_lastCommitWasEndOfMacroop :
    Execute.lastCommitWasEndOfMacroop s' =
    Execute.lastCommitWasEndOfMacroop s;
  ik_stats : Execute.stats s' = Execute.stats s;
  ik_threads :
    World.threads (Execute.world s') = World.threads (Execute.world s);
  ik_funcUnits :
    length (Execute.funcUnits s') = length (Execute.funcUnits s);
  ik_inFlightInsts :
    exists k, Execute.inFlightInsts s' = Execute.inFlightInsts s ++ k;
  ik_inFUMemInsts :
    exists k, Execute.inFUMemInsts s' = Execute.inFUMemInsts s ++ k;
  ik_inputBuffer :
    exists k, Execute.inputBuffer s = k ++ Execute.inputBuffer s';
  ik_arch :
    count_events is_arch_effect (Execute.log s') =
    count_events is_arch_effect (Execute.log s);
}.

(** The instructions still to be looked at in the input buffer. *)
Definition input_left (s : Execute.t) : Z :=
  Z.of_nat (length (concat (Execute.inputBuffer s))) - Execute.inputIndex s.

(** The line being issued from heads the input buffer and the index
    points into it. *)
Definition input_ok (insts_in : ForwardInstData) (s : Execute.t) : Prop :=
  getInput s = Some insts_in /\
  0 <= Execute.inputIndex s < Z.of_nat (length insts_in) /\
  Forall (fun line : ForwardInstData => Z.of_nat (length line) < 2 ^ 32)
    (Execute.inputBuffer s).

(** The stream sequence number against the redirect on the output wire:
    bumped once, to the number the redirect carries, when the redirect is
    a change of stream, and kept otherwise. *)
Definition stream_follows (s : Execute.t) (b' : BranchData.t)
    (s' : Execute.t) : Prop :=
  if BranchData.isStreamChange b'
  then Execute.streamSeqNum s' = InstSeqNum_inc (Execute.streamSeqNum s) /\
       BranchData.newStreamSeqNum b' = Execute.streamSeqNum s'
  else Execute.streamSeqNum s' = Execute.streamSeqNum s.

End Invariants.

(** * Operand access through the execution context (exec_context.hh) *)

Module ExecContext.

(** The fault-injection state of [Execute] that the operand accessors
    read and write. *)
Record FI := mkFI {
  faultIsInjected : bool;
  faultGetsMasked : bool;
  FItarget : Z;
  FItargetReg : Z;
  FItargetRegClass_is_INTEGER : bool;  (* FItargetRegClass == INTEGER *)
  headOfInFlightInst : InstSeqNum;
  pipelineRegisters : bool;
  FUsFI : bool;
  BranchsFI : bool;
  CMPsFI : bool;
}.

Definition set_faultIsInjected (v : bool) (fi : FI) : FI :=
  {| faultIsInjected := v; faultGetsMasked := faultGetsMasked fi;
     FItarget := FItarget fi; FItargetReg := FItargetReg fi;
     FItargetRegClass_is_INTEGER := FItargetRegClass_is_INTEGER fi;
     headOfInFlightInst := headOfInFlightInst fi;
     pipelineRegisters := pipelineRegisters fi; FUsFI := FUsFI fi;
     BranchsFI := BranchsFI fi; CMPsFI := CMPsFI fi |}.

Definition set_faultGetsMasked (v : bool) (fi : FI) : FI :=
  {| faultIsInjected := faultIsInjected fi; faultGetsMasked := v;
     FItarget := FItarget fi; FItargetReg := FItargetReg fi;
     FItargetRegClass_is_INTEGER := FItargetRegClass_is_INTEGER fi;
     headOfInFlightInst := headOfInFlightInst fi;
     pipelineRegisters := pipelineRegisters fi; FUsFI := FUsFI fi;
     BranchsFI := BranchsFI fi; CMPsFI := CMPsFI fi |}.

Section Operands.
(** The thread's register file ([thread.readIntReg], [thread.setIntReg])
    and the number of integer registers of the ISA. *)
Variable Regs : Type.
Variable readIntReg : Regs -> Z -> Z.
Variable setIntReg : Z -> Z -> Regs -> Regs.
Variable NUM_INTREGS : Z.

(** [rand() % 34], with 33 standing for [NUM_INTREGS]. *)
Definition faultyIDX (rnd : Z) : Z :=
  let idx := Z.rem rnd 34 in
  if idx =? 33 then NUM_INTREGS else idx.

(** [int temp = pow(2, rand() % 32)]; bit 31 does not fit an [int], the
    conversion is taken as it comes out on two's complement machines. *)
Definition faultyMask (rnd : Z) : Z := to_int32 (2 ^ Z.rem rnd 32).

(** [int faultyval = value xor temp]: the register is 64 bits wide, the
    result is kept in an [int]. *)
Definition flipped (value temp : Z) : Z :=
  to_int32 (Z.lxor (wrap64 value) (wrap64 temp)).

(** [if (faultyval < 0) faultyval = -faultyval;] *)
Definition positive (faultyval : Z) : Z :=
  if faultyval <? 0 then to_int32 (- faultyval) else faultyval.

(** [ExecContext::readIntRegOperand] for the source register
    [src = si->srcRegIdx(idx)] of the instruction numbered [execSeqNum];
    [rnd] is what [rand()] returns.  The value read, the fault-injection
    state and the register file. *)
Definition readIntRegOperand (src : Z) (execSeqNum : InstSeqNum)
    (isLoad isStore : bool) (rnd : Z) (fi : FI) (regs : Regs)
    : Z * FI * Regs :=
  if faultIsInjected fi && (FItargetReg fi =? src) &&
     negb (faultGetsMasked fi) && FItargetRegClass_is_INTEGER fi then
    (* the faulty register is read *)
    (readIntReg regs src, fi, regs)
  else if negb (faultIsInjected fi) &&
          (FItarget fi =? headOfInFlightInst fi) &&
          (FItargetReg fi =? src) && pipelineRegisters fi then
    (* registers pointer in pipeline *)
    (readIntReg regs (faultyIDX rnd), set_faultIsInjected true fi, regs)
  else if negb (faultIsInjected fi) &&
          ((FItarget fi =? headOfInFlightInst fi) ||
           (FItarget fi =? execSeqNum)) && FUsFI fi then
    (* FUs fault injection *)
    (wrap64 (positive (flipped (readIntReg regs src) (faultyMask rnd))),
     set_faultIsInjected true fi, regs)
  else if negb (faultIsInjected fi) &&
          (FItarget fi =? headOfInFlightInst fi) && BranchsFI fi then
    (* fault injection for branch registers: the register is rewritten *)
    let faultyval := flipped (readIntReg regs src) (faultyMask rnd) in
    let regs' := setIntReg src (wrap64 faultyval) regs in
    (readIntReg regs' src, set_faultIsInjected true fi, regs')
  else if negb (faultIsInjected fi) &&
          (FItarget fi =? headOfInFlightInst fi) && CMPsFI fi &&
          negb isLoad && negb isStore then
    (wrap64 (flipped (readIntReg regs src) (faultyMask rnd)),
     set_faultIsInjected true fi, regs)
  else (readIntReg regs src, fi, regs).

(** [ExecContext::setIntRegOperand] for the destination register
    [dest = si->destRegIdx(idx)]. *)
Definition setIntRegOperand (dest : Z) (val : Z) (rnd : Z) (fi : FI)
    (regs : Regs) : FI * Regs :=
  if faultIsInjected fi && (FItargetReg fi =? dest) &&
     negb (faultGetsMasked fi) && FItargetRegClass_is_INTEGER fi then
    (* the faulty register is overwritten *)
    (set_faultGetsMasked true fi, setIntReg dest val regs)
  else if negb (faultIsInjected fi) &&
          (FItarget fi =? headOfInFlightInst fi) &&
          (FItargetReg fi =? dest) && pipelineRegisters fi then
    (set_faultIsInjected true fi, setIntReg (faultyIDX rnd) val regs)
  else if negb (faultIsInjected fi) &&
          (FItarget fi =? headOfInFlightInst fi) &&
          (FItargetReg fi =? dest) && FUsFI fi && false then
    (set_faultIsInjected true fi,
     setIntReg dest (wrap64 (positive (flipped val (faultyMask rnd)))) regs)
  else (fi, setIntReg dest val regs).

End Operands.
End ExecContext.

(** * More states of the small machine *)

Module DemoMore.
#[local] Existing Instance Demo.types.
#[local] Existing Instance Demo.collab.

(** The collaborators of [Demo] with interrupt 700 pending on every
    thread. *)
Definition interrupting : Collaborators :=
  {| pc_eqb := pc_eqb;
     PCState_default := PCState_default;
     PCState_at := PCState_at;
     instAddr := instAddr;
     advancePC := advancePC;
     Arch_clearZeroReg := Arch_clearZeroReg;
     isa_execute := isa_execute;
     isa_initiateAcc := isa_initiateAcc;
     isa_completeAcc := isa_completeAcc;
     Fault_invoke := Fault_invoke;
     Packet_isError := Packet_isError;
     TimingExpr_eval := TimingExpr_eval;
     firstStreamSeqNum := firstStreamSeqNum;
     firstPredictionSeqNum := firstPredictionSeqNum;
     hasInterruptController := hasInterruptController;
     checkInterrupts := fun _ _ => true;
     getInterrupt := fun _ _ => Some 700;
     updateIntrInfo := updateIntrInfo;
     pcEventQueue_service := pcEventQueue_service;
     pcEventBudget := pcEventBudget;
     serviceInstEvents := serviceInstEvents;
     rand_mod_500 := rand_mod_500;
     lsq_canRequest := lsq_canRequest;
     lsq_findResponse := lsq_findResponse;
     lsq_popResponse := lsq_popResponse;
     lsq_pushFailedRequest := lsq_pushFailedRequest;
     lsq_sendStoreToStoreBuffer := lsq_sendStoreToStoreBuffer;
     lsq_getLastMemBarrier := lsq_getLastMemBarrier;
     lsq_canPushIntoStoreBuffer := lsq_canPushIntoStoreBuffer;
     lsq_accessesInFlight := lsq_accessesInFlight;
     lsq_issuedMemBarrierInst := lsq_issuedMemBarrierInst;
     lsq_completeMemBarrierInst := lsq_completeMemBarrierInst;
     lsq_isDrained := lsq_isDrained;
     lsq_needsToTick := lsq_needsToTick;
     lsq_step := lsq_step;
     sb_canInstIssue := sb_canInstIssue;
     sb_markupInstDests := sb_markupInstDests;
     sb_clearInstDests := sb_clearInstDests;
     sb_execSeqNumToWaitFor := sb_execSeqNumToWaitFor;
     fu_provides := fu_provides;
     fu_alreadyPushed := fu_alreadyPushed;
     fu_canInsert := fu_canInsert;
     fu_findTiming := fu_findTiming;
     fu_push := fu_push;
     fu_front := fu_front;
     fu_advance := fu_advance;
     fu_occupancy := fu_occupancy;
     ForwardInstData_isBubble := ForwardInstData_isBubble |}.

(** An ALU instruction of the current stream at the tail of unit 0. *)
Definition committing_state : Execute.t :=
  Demo.at_unit0_tail (Demo.fetched Demo.alu 1 5 100 false 0).

(** A jump to 200 that was not predicted taken, at the tail of unit 0. *)
Definition mispredicted_state : Execute.t :=
  Demo.at_unit0_tail (Demo.fetched (Demo.jump 200 false) 1 5 100 false 0).

(** An instruction that comes from fetch with fault 800. *)
Definition faulted_fetch : MinorDynInst.t :=
  {| MinorDynInst.id := InstId.mk 0 1 7 1 5 5;
     MinorDynInst.pc := 100;
     MinorDynInst.staticInst := None;
     MinorDynInst.fault := Some 800;
     MinorDynInst.predictedTaken := false;
     MinorDynInst.predictedTarget := 0;
     MinorDynInst.fuIndex := 0;
     MinorDynInst.inLSQ := false;
     MinorDynInst.canEarlyIssue := false;
     MinorDynInst.instToWaitFor := 0;
     MinorDynInst.extraCommitDelay := 0;
     MinorDynInst.extraCommitDelayExpr := None;
     MinorDynInst.minimumCommitCycle := 0 |}.

Definition faulted_fetch_state : Execute.t :=
  Demo.store 1 faulted_fetch Demo.engine.

(** The thread of the instruction at the tail of unit 0 is suspended. *)
Definition suspended_state : Execute.t :=
  Execute.upd_world
    (World.upd_thread 0 (ThreadContext.set_status Suspended))
    committing_state.

(** The engine asked to drain everything, a stale instruction in flight
    and a line waiting at its input. *)
Definition draining_all_state : Execute.t :=
  setDrainState DrainAllInsts
    (Execute.set_inputBuffer [[Ptr 2; BubblePtr]]
       (Demo.store 2 (Demo.fetched Demo.alu 1 6 104 false 0)
          Demo.stale_head_state)).

End DemoMore.

(** * Properties *)

Section BranchResolution.
Context `{IsaTypes} `{!Collaborators}.

Lemma updateBranchData_NoBranch inst target branch s :
  updateBranchData NoBranch inst target branch s = (branch, s).
Proof. reflexivity. Qed.

(** A forced branch is a branch. *)
Lemma force_implies_must inst fault s :
  force_branch inst s = true -> must_branch inst fault s = true.
Proof. unfold must_branch. intros ->. apply orb_true_r. Qed.

(** A fault is a branch. *)
Lemma fault_implies_must inst f s :
  must_branch inst (Some f) s = true.
Proof. unfold must_branch. simpl. apply orb_true_iff. left. apply orb_true_r. Qed.

Lemma updateBranchData_real reason inst target branch s :
  reason <> NoBranch ->
  updateBranchData reason inst target branch s =
  let s1 :=
    if Reason_isStreamChange reason
    then Execute.set_streamSeqNum (InstSeqNum_inc (Execute.streamSeqNum s)) s
    else s in
  let b :=
    {| BranchData.reason := reason;
       BranchData.newStreamSeqNum := Execute.streamSeqNum s1;
       BranchData.newPredictionSeqNum :=
         (if isBubble inst then Execute.lastPredictionSeqNum s
          else InstId.predictionSeqNum (MinorDynInst.id (deref s inst)));
       BranchData.target := target;
       BranchData.inst := inst |} in
  (b, Execute.emit (EvBranch b) s1).
Proof.
  intros Hne. unfold updateBranchData.
  rewrite bool_decide_eq_true_2 by exact Hne.
  destruct (Reason_isStreamChange reason); reflexivity.
Qed.

Lemma tryToBranch_unfold inst fault branch s :
  tryToBranch inst fault branch s =
  updateBranchData
    (branch_reason (MinorDynInst.predictedTaken (deref s inst))
       (force_branch inst s) (must_branch inst fault s)
       (pc_eqb (MinorDynInst.predictedTarget (deref s inst))
          (fst (advance_target inst fault s))))
    inst (fst (advance_target inst fault s)) branch
    (snd (advance_target inst fault s)).
Proof.
  unfold tryToBranch, tryToBranch_reason.
  destruct (advance_target inst fault s) as [t s1]. reflexivity.
Qed.



End BranchResolution.


Lemma Done_inj {A} (a b : A) : Done a = Done b -> a = b.
Proof. intros [= ->]. reflexivity. Qed.

(** ** What a function leaves alone *)

Create HintDb frame.

Section Frame.
Context `{IsaTypes} `{!Collaborators}.
Variable P : Event -> bool.

Lemma frame_refl s : frame P s s.
Proof. split; [reflexivity|]. exists []. split; reflexivity. Qed.

Lemma frame_trans s0 s1 s2 : frame P s0 s1 -> frame P s1 s2 -> frame P s0 s2.
Proof.
  intros [Hd1 (k1 & Hl1 & Hp1)] [Hd2 (k2 & Hl2 & Hp2)].
  split; [congruence|].
  exists (k2 ++ k1). split.
  - rewrite Hl2, Hl1. apply app_assoc.
  - rewrite forallb_app, Hp1, Hp2. reflexivity.
Qed.

(** A step that keeps the drain state and the log. *)
Lemma frame_silent s s1 s2 :
  Execute.drainState s2 = Execute.drainState s1 ->
  Execute.log s2 = Execute.log s1 ->
  frame P s s1 -> frame P s s2.
Proof.
  intros Hd Hl [Hd1 (k & Hl1 & Hp)].
  split; [congruence|]. exists k. split; [congruence|assumption].
Qed.

Lemma frame_emit e s s1 :
  P e = true -> frame P s s1 -> frame P s (Execute.emit e s1).
Proof.
  intros He [Hd1 (k & Hl1 & Hp)].
  split; [exact Hd1|]. exists (e :: k). simpl. split.
  - f_equal. exact Hl1.
  - rewrite He, Hp. reflexivity.
Qed.

Lemma frame_upd_world f s s1 :
  frame P s s1 -> frame P s (Execute.upd_world f s1).
Proof. apply frame_silent; reflexivity. Qed.

Lemma frame_set_world w s s1 :
  frame P s s1 -> frame P s (Execute.set_world w s1).
Proof. apply frame_silent; reflexivity. Qed.

Lemma frame_upd_lsq f s s1 :
  frame P s s1 -> frame P s (Execute.upd_lsq f s1).
Proof. apply frame_silent; reflexivity. Qed.

Lemma frame_upd_stats f s s1 :
  frame P s s1 -> frame P s (Execute.upd_stats f s1).
Proof. apply frame_silent; reflexivity. Qed.

Lemma frame_upd_inst p f s s1 :
  frame P s s1 -> frame P s (Execute.upd_inst p f s1).
Proof. destruct p; [auto|]. apply frame_silent; reflexivity. Qed.

Lemma frame_set_streamSeqNum n s s1 :
  frame P s s1 -> frame P s (Execute.set_streamSeqNum n s1).
Proof. apply frame_silent; reflexivity. Qed.

Lemma frame_set_lastPredictionSeqNum n s s1 :
  frame P s s1 -> frame P s (Execute.set_lastPredictionSeqNum n s1).
Proof. apply frame_silent; reflexivity. Qed.

Lemma frame_ExecContext_new inst s s1 :
  frame P s s1 -> frame P s (ExecContext_new inst s1).
Proof. apply frame_silent; reflexivity. Qed.

Lemma frame_if (b : bool) s s1 s2 :
  frame P s s1 -> frame P s s2 -> frame P s (if b then s1 else s2).
Proof. destruct b; auto. Qed.

End Frame.

#[local] Hint Resolve frame_refl frame_emit frame_upd_world frame_set_world
  frame_upd_lsq frame_upd_stats frame_upd_inst frame_set_streamSeqNum
  frame_set_lastPredictionSeqNum frame_ExecContext_new frame_if : frame.

Section CommitInstFrame.
Context `{IsaTypes} `{!Collaborators}.

Lemma frame_invokeFault f tid si s s1 :
  frame not_eval s s1 -> frame not_eval s (invokeFault f tid si s1).
Proof. intros. unfold invokeFault. auto with frame. Qed.

Lemma frame_doInstCommitAccounting inst s s1 :
  frame not_eval s s1 -> frame not_eval s (doInstCommitAccounting inst s1).
Proof. intros. unfold doInstCommitAccounting. auto 10 with frame. Qed.

Lemma frame_updateBranchData reason inst target branch s s1 :
  frame not_eval s s1 ->
  frame not_eval s (snd (updateBranchData reason inst target branch s1)).
Proof.
  intros. unfold updateBranchData.
  destruct (bool_decide (reason <> NoBranch)); simpl; [|assumption].
  destruct (Reason_isStreamChange reason); auto with frame.
Qed.

Lemma frame_advance_target inst fault s s1 :
  frame not_eval s s1 ->
  frame not_eval s (snd (advance_target inst fault s1)).
Proof.
  intros. unfold advance_target.
  destruct (isNoFault fault); simpl; [|assumption].
  auto 10 with frame.
Qed.

Lemma frame_tryToBranch inst fault branch s s1 :
  frame not_eval s s1 ->
  frame not_eval s (snd (tryToBranch inst fault branch s1)).
Proof.
  intros. rewrite tryToBranch_unfold.
  apply frame_updateBranchData, frame_advance_target. assumption.
Qed.

End CommitInstFrame.

(** The state a call returns extends the state it was given: assert it
    from the call's own lemma, then name the results. *)
Ltac frame_via lem call :=
  match goal with
  | |- frame ?P ?s _ =>
      let Hx := fresh "Hf" in
      assert (Hx : frame P s (snd call)) by (apply lem; auto 10 with frame);
      destruct call as [? ?]; simpl in Hx
  end.

Ltac split_pairs :=
  repeat match goal with p : (_ * _)%type |- _ => destruct p end.

Ltac case_all :=
  repeat (simpl;
          match goal with
          | |- context [if ?b then _ else _] => destruct b
          | |- context [match ?x with _ => _ end] => destruct x
          end).

#[local] Hint Resolve frame_invokeFault frame_doInstCommitAccounting : frame.

Section CommitInstFrame2.
Context `{IsaTypes} `{!Collaborators}.

Lemma frame_executeMemRefInst inst fault s s1 :
  frame not_eval s s1 ->
  frame not_eval s (snd (executeMemRefInst inst fault s1)).
Proof.
  intros Hs. unfold executeMemRefInst.
  destruct (negb (lsq_canRequest (World.lsq (Execute.world s1))));
    [exact Hs|].
  destruct (isa_initiateAcc _ _ _) as [init_fault w].
  destruct init_fault; simpl; [auto 10 with frame|].
  destruct (negb _); simpl; auto 10 with frame.
Qed.

Ltac frame_call :=
  match goal with
  | |- context [tryToBranch ?i ?f ?b ?s0] =>
      frame_via frame_tryToBranch (tryToBranch i f b s0)
  | |- context [updateBranchData ?r ?i ?t ?b ?s0] =>
      frame_via frame_updateBranchData (updateBranchData r i t b s0)
  | |- context [executeMemRefInst ?i ?f ?s0] =>
      frame_via frame_executeMemRefInst (executeMemRefInst i f s0)
  end.

Ltac frame_crush :=
  repeat first
    [ assumption
    | progress simpl
    | frame_call
    | progress split_pairs
    | match goal with
      | |- context [if ?b then _ else _] => destruct b
      | |- context [match ?x with _ => _ end] =>
          lazymatch type of x with
          | (_ * Execute.t)%type => fail
          | _ => destruct x
          end
      end ];
  auto 12 with frame.

Lemma frame_commitInst inst early branch committed cmi s s1 :
  frame not_eval s s1 ->
  frame not_eval s (snd (commitInst inst early branch committed cmi s1)).
Proof. intros Hs. unfold commitInst. frame_crush. Qed.

End CommitInstFrame2.

(** ** Memory responses *)

Section MemResponse.
Context `{IsaTypes} `{!Collaborators}.

Lemma branch_reason_must pt forced m :
  branch_reason pt forced true m <> NoBranch.
Proof. unfold branch_reason. destruct pt, forced, m; discriminate. Qed.

Lemma advance_target_fault inst f s :
  advance_target inst (Some f) s =
  (ThreadContext.pcState (getContext s (threadOf s inst)), s).
Proof. reflexivity. Qed.


End MemResponse.

(** ** Discarding at commit *)

Section Discard.
Context `{IsaTypes} `{!Collaborators}.

Lemma kept_refl s : kept s s.
Proof. split; reflexivity. Qed.

Lemma kept_trans s0 s1 s2 : kept s0 s1 -> kept s1 s2 -> kept s0 s2.
Proof. intros [] []. split; congruence. Qed.

Lemma kept_tryPCEvents_loop fuel n s :
  kept s (snd (tryPCEvents_loop fuel n s)).
Proof.
  revert n s. induction fuel as [|fuel IH]; intros n s; simpl.
  - destruct (_ =? _); split; reflexivity.
  - destruct (_ =? _); [split; reflexivity|].
    eapply kept_trans; [|apply IH]. split; reflexivity.
Qed.

Lemma kept_tryPCEvents s : kept s (snd (tryPCEvents s)).
Proof.
  unfold tryPCEvents.
  pose proof (kept_tryPCEvents_loop (pcEventBudget (Execute.world s)) 0 s)
    as Hk.
  destruct (tryPCEvents_loop _ 0 s). exact Hk.
Qed.

Lemma kept_unstall index s : kept s (unstall index s).
Proof. unfold unstall. destruct (index <? 0); split; reflexivity. Qed.

(** The predicates on instructions only read the instruction store. *)
Lemma deref_insts s s' p :
  Execute.insts s' = Execute.insts s -> deref s' p = deref s p.
Proof. intros Hi. destruct p; simpl; [reflexivity|]. rewrite Hi. reflexivity. Qed.

Lemma isInst_insts s s' p :
  Execute.insts s' = Execute.insts s -> isInst s' p = isInst s p.
Proof. intros Hi. unfold isInst. rewrite (deref_insts _ _ _ Hi). reflexivity. Qed.

Lemma isMemRef_insts s s' p :
  Execute.insts s' = Execute.insts s -> isMemRef s' p = isMemRef s p.
Proof.
  intros Hi. unfold isMemRef.
  rewrite (isInst_insts _ _ _ Hi), (deref_insts _ _ _ Hi). reflexivity.
Qed.

Lemma stale_kept discard s s' inst :
  kept s s' -> stale discard s' inst = stale discard s inst.
Proof.
  intros Hk. unfold stale.
  rewrite (deref_insts _ _ _ (kept_insts _ _ Hk)).
  rewrite (kept_streamSeqNum _ _ Hk). reflexivity.
Qed.

(** [commit_try] on a stale instruction: nothing is run, the unit is
    released. *)
Lemma commit_try_stale discard now inst early branch fault s :
  stale discard s inst = true ->
  commit_try discard now inst early branch fault s =
  (true,
   {| ci_completed_inst := true; ci_branch := branch; ci_fault := fault;
      ci_committed := false; ci_completed_mem_issue := false |},
   if negb (MinorDynInst.fuIndex (deref s inst) =? Execute.noCostFUIndex s)
   then unstall (MinorDynInst.fuIndex (deref s inst)) s
   else s).
Proof.
  intros Hst. unfold commit_try. fold (stale discard s inst).
  rewrite Hst. reflexivity.
Qed.

Lemma commit_try_fresh discard now inst early branch fault s :
  stale discard s inst = false ->
  fst (fst (commit_try discard now inst early branch fault s)) = false.
Proof.
  intros Hst. unfold commit_try. fold (stale discard s inst).
  rewrite Hst. simpl.
  destruct (_ && _ && _ && _).
  - reflexivity.
  - destruct (now <? _); [reflexivity|].
    destruct (commitInst _ _ _ _ _ _). reflexivity.
Qed.

Lemma commit_from_fus_discard discard now can head v s it0 s1 :
  commit_from_fus discard now can head v s = (it0, s1) ->
  it_discard_inst it0 = true ->
  discard_shape discard v s it0 s1.
Proof.
  unfold commit_from_fus.
  destruct can; [|intros [= <- <-]; discriminate].
  destruct (commit_candidate head s) as [[[inst try] early] c].
  destruct try; [|intros [= <- <-]; discriminate].
  destruct (stale discard s inst) eqn:Hst.
  - rewrite commit_try_stale by exact Hst.
    intros [= <- <-] _.
    split; [reflexivity|]. split; [reflexivity|]. split; [reflexivity|].
    split; [exact Hst|].
    destruct (negb _); [apply kept_unstall|apply kept_refl].
  - pose proof (commit_try_fresh discard now inst early (cv_branch v)
                  (cv_fault v) s Hst) as Hd.
    destruct (commit_try _ _ _ _ _ _ _) as [[d r] s2]. simpl in Hd.
    subst d. intros [= <- <-]. discriminate.
Qed.

Lemma commit_from_fus_stale discard now can head v s it0 s1 :
  commit_from_fus discard now can head v s = (it0, s1) ->
  it_try_to_commit it0 = true ->
  it_discard_inst it0 = stale discard s (it_inst it0).
Proof.
  unfold commit_from_fus.
  destruct can; [|intros [= <- <-]; discriminate].
  destruct (commit_candidate head s) as [[[inst try] early] c].
  destruct try; [|intros [= <- <-]; discriminate].
  destruct (stale discard s inst) eqn:Hst.
  - rewrite commit_try_stale by exact Hst.
    intros [= <- <-] _. simpl. symmetry. exact Hst.
  - pose proof (commit_try_fresh discard now inst early (cv_branch v)
                  (cv_fault v) s Hst) as Hd.
    destruct (commit_try _ _ _ _ _ _ _) as [[d r] s2]. simpl in Hd.
    subst d. intros [= <- <-] _. simpl. symmetry. exact Hst.
Qed.

Lemma commit_attempt_pc_events s :
  kept s (snd (if isInbetweenInsts s then tryPCEvents s else (false, s))).
Proof.
  destruct (isInbetweenInsts s); [apply kept_tryPCEvents|apply kept_refl].
Qed.

Lemma discard_shape_kept discard v s s0 it0 s1 :
  kept s s0 -> discard_shape discard v s0 it0 s1 ->
  discard_shape discard v s it0 s1.
Proof.
  intros Hk (Hv & Hc & Hi & Hst & Hk1).
  split; [exact Hv|]. split; [exact Hc|]. split; [exact Hi|]. split.
  - rewrite <- (stale_kept discard s s0 _ Hk). exact Hst.
  - eapply kept_trans; eassumption.
Qed.

Lemma commit_attempt_discard ocm discard now v s it0 s1 :
  commit_attempt ocm discard now v s = Done (it0, s1) ->
  it_discard_inst it0 = true ->
  discard_shape discard v s it0 s1.
Proof.
  unfold commit_attempt.
  pose proof (commit_attempt_pc_events s) as Hk.
  destruct (if isInbetweenInsts s then tryPCEvents s else (false, s))
    as [pc s0]. simpl in Hk.
  destruct pc.
  { destruct (updateBranchData _ _ _ _ _). intros [= <- <-]. discriminate. }
  assert (Hfus : forall can,
            Done (commit_from_fus discard now can
                    (hd BubblePtr (Execute.inFlightInsts s)) v s0) =
            Done (it0, s1) ->
            it_discard_inst it0 = true -> discard_shape discard v s it0 s1).
  { intros can [= Hc] Hd. eapply discard_shape_kept; [exact Hk|].
    eapply commit_from_fus_discard; eassumption. }
  destruct (if MinorDynInst.inLSQ _ then _ else None) as [response|];
    [|apply Hfus].
  destruct (_ <? _); [|apply Hfus].
  fold (stale discard s0 (hd BubblePtr (Execute.inFlightInsts s))).
  destruct (stale discard s0 _) eqn:Hst.
  - intros [= <- <-] _. eapply discard_shape_kept; [exact Hk|].
    split; [reflexivity|]. split; [reflexivity|]. split; [reflexivity|].
    split; [exact Hst|]. split; reflexivity.
  - destruct (handleMemResponse _ _ _ _ _) as [[[b f] s2]| |]; simpl;
      try discriminate.
    intros [= <- <-]. discriminate.
Qed.

(** An attempt on an instruction of another stream discards it. *)
Lemma commit_attempt_stale ocm discard now v s it0 s1 :
  commit_attempt ocm discard now v s = Done (it0, s1) ->
  it_from_mem_response it0 = true \/ it_try_to_commit it0 = true ->
  it_discard_inst it0 = stale discard s (it_inst it0).
Proof.
  unfold commit_attempt.
  pose proof (commit_attempt_pc_events s) as Hk.
  destruct (if isInbetweenInsts s then tryPCEvents s else (false, s))
    as [pc s0]. simpl in Hk.
  destruct pc.
  { destruct (updateBranchData _ _ _ _ _).
    intros [= <- <-] [Hx|Hx]; discriminate. }
  assert (Hfus : forall can,
            Done (commit_from_fus discard now can
                    (hd BubblePtr (Execute.inFlightInsts s)) v s0) =
            Done (it0, s1) ->
            it_from_mem_response it0 = true \/ it_try_to_commit it0 = true ->
            it_discard_inst it0 = stale discard s (it_inst it0)).
  { intros can [= Hc] Hor.
    rewrite <- (stale_kept discard s s0 _ Hk).
    eapply commit_from_fus_stale; [eassumption|].
    destruct Hor as [Hm|Ht]; [|exact Ht].
    revert Hc Hm. unfold commit_from_fus.
    destruct can; [|intros [= <- <-]; discriminate].
    destruct (commit_candidate _ s0) as [[[inst try] early] c].
    destruct try; [|intros [= <- <-]; discriminate].
    destruct (commit_try _ _ _ _ _ _ _) as [[d r] s2].
    intros [= <- <-] Hm. discriminate. }
  destruct (if MinorDynInst.inLSQ _ then _ else None) as [response|];
    [|apply Hfus].
  destruct (_ <? _); [|apply Hfus].
  fold (stale discard s0 (hd BubblePtr (Execute.inFlightInsts s))).
  rewrite (stale_kept discard s s0 _ Hk).
  destruct (stale discard s (hd BubblePtr (Execute.inFlightInsts s)))
    eqn:Hst.
  - intros [= <- <-] _. simpl. symmetry. exact Hst.
  - destruct (handleMemResponse _ _ _ _ _) as [[[b f] s2]| |]; simpl;
      try discriminate.
    intros [= <- <-] _. simpl. symmetry. exact Hst.
Qed.

(** Early memory issue only picks an instruction of the current stream;
    otherwise the candidate is the head of the queue. *)
Lemma commit_candidate_inst head s :
  let inst := fst (fst (fst (commit_candidate head s))) in
  inst = head \/
  InstId.streamSeqNum (MinorDynInst.id (deref s inst)) =
  Execute.streamSeqNum s.
Proof.
  unfold commit_candidate.
  assert (Hrest : forall inst t (e : bool) c,
            fst (fst (fst
              (let '(try_to_commit, completed_inst) :=
                 if negb c && isNoCostInst s inst
                 then (true, true) else (t, c) in
               let '(try_to_commit0, completed_inst0) :=
                 if negb completed_inst &&
                    negb (MinorDynInst.inLSQ (deref s inst))
                 then
                   if isBubble
                        (funcUnit_front s
                           (MinorDynInst.fuIndex (deref s inst)))
                   then (try_to_commit, false)
                   else if negb
                             (InstId.execSeqNum
                                (MinorDynInst.id
                                   (deref s
                                      (funcUnit_front s
                                         (MinorDynInst.fuIndex
                                            (deref s inst))))) =?
                              InstId.execSeqNum
                                (MinorDynInst.id (deref s head)))
                        then (try_to_commit, completed_inst)
                        else (true, true)
                 else (try_to_commit, completed_inst) in
               (inst, try_to_commit0, e, completed_inst0)))) = inst).
  { intros. repeat match goal with
                   | |- context [if ?b then _ else _] => destruct b
                   end; reflexivity. }
  destruct (Execute.inFUMemInsts s) as [|m rest].
  - left. apply Hrest.
  - destruct (lsq_canRequest _); [|left; apply Hrest].
    destruct (negb (isBubble _) && _ && _ && (_ =? _) && _) eqn:Hc;
      [|left; apply Hrest].
    right. cbv zeta. rewrite Hrest.
    apply andb_prop in Hc as [Hc _]. apply andb_prop in Hc as [_ Hc].
    apply Z.eqb_eq in Hc. symmetry. exact Hc.
Qed.

Lemma commit_attempt_inst ocm discard now v s it0 s1 :
  commit_attempt ocm discard now v s = Done (it0, s1) ->
  it_inst it0 = hd BubblePtr (Execute.inFlightInsts s) \/
  InstId.streamSeqNum (MinorDynInst.id (deref s (it_inst it0))) =
  Execute.streamSeqNum s.
Proof.
  unfold commit_attempt.
  pose proof (commit_attempt_pc_events s) as Hk.
  destruct (if isInbetweenInsts s then tryPCEvents s else (false, s))
    as [pc s0]. simpl in Hk.
  destruct pc.
  { destruct (updateBranchData _ _ _ _ _). intros [= <- <-]. left.
    reflexivity. }
  assert (Hfus : forall can,
            Done (commit_from_fus discard now can
                    (hd BubblePtr (Execute.inFlightInsts s)) v s0) =
            Done (it0, s1) ->
            it_inst it0 = hd BubblePtr (Execute.inFlightInsts s) \/
            InstId.streamSeqNum (MinorDynInst.id (deref s (it_inst it0))) =
            Execute.streamSeqNum s).
  { intros can [= Hc]. revert Hc. unfold commit_from_fus.
    destruct can; [|intros [= <- <-]; left; reflexivity].
    pose proof (commit_candidate_inst
                  (hd BubblePtr (Execute.inFlightInsts s)) s0) as Hi.
    destruct (commit_candidate _ s0) as [[[inst try] early] c].
    simpl in Hi.
    rewrite (deref_insts _ _ _ (kept_insts _ _ Hk)) in Hi.
    rewrite (kept_streamSeqNum _ _ Hk) in Hi.
    destruct try; [|intros [= <- <-]; exact Hi].
    destruct (commit_try _ _ _ _ _ _ _) as [[d r] s2].
    intros [= <- <-]. exact Hi. }
  destruct (if MinorDynInst.inLSQ _ then _ else None) as [response|];
    [|apply Hfus].
  destruct (_ <? _); [|apply Hfus].
  destruct (_ || _).
  - intros [= <- <-]. left. reflexivity.
  - destruct (handleMemResponse _ _ _ _ _) as [[[b f] s2]| |]; simpl;
      try discriminate.
    intros [= <- <-]. left. reflexivity.
Qed.

(** What the rest of the loop body does with a discarded instruction. *)
Lemma commit_finish_discard it0 s1 :
  it_discard_inst it0 = true ->
  cv_completed_inst (it_vars it0) = true ->
  it_committed_inst it0 = false ->
  it_issued_mem_ref it0 = false ->
  let inst := it_inst it0 in
  let out := commit_finish it0 s1 in
  it_vars (fst out) = it_vars it0 /\
  it_inst (fst out) = inst /\
  it_discard_inst (fst out) = true /\
  it_committed_inst (fst out) = false /\
  it_from_mem_response (fst out) = it_from_mem_response it0 /\
  it_try_to_commit (fst out) = it_try_to_commit it0 /\
  Execute.inFlightInsts (snd out) = tail (Execute.inFlightInsts s1) /\
  Stats.numDiscardedOps (Execute.stats (snd out)) =
    Stats.numDiscardedOps (Execute.stats s1) +
    (if isNoFault (cv_fault (it_vars it0)) then 1 else 0) /\
  Execute.scoreboard (snd out) =
    sb_clearInstDests inst (deref s1 inst) (isMemRef s1 inst)
      (Execute.scoreboard s1) /\
  count_events is_arch_effect (Execute.log (snd out)) =
    count_events is_arch_effect (Execute.log s1) /\
  hd_error (Execute.log (snd out)) =
    Some (EvClearInstDests inst (isMemRef s1 inst)).
Proof.
  intros Hd Hc Hcm Hi inst out. subst inst.
  assert (E : out = commit_finish it0 s1) by reflexivity. clearbody out.
  unfold commit_finish in E. rewrite Hd, Hc, Hcm, Hi in E.
  cbn [andb negb] in E. subst out.
  destruct (isNoFault (cv_fault (it_vars it0))) eqn:Hf;
    cbn [fst snd it_vars it_inst it_discard_inst it_committed_inst
         it_from_mem_response it_try_to_commit].
  all: repeat (split; [reflexivity|]).
  all: set (sa := Execute.upd_stats _ s1) || set (sa := s1).
  all: assert (Hsa : Execute.insts sa = Execute.insts s1) by reflexivity.
  all: rewrite (isMemRef_insts s1 sa _ Hsa).
  all: destruct (isMemRef s1 (it_inst it0)) eqn:Hm.
  all: try destruct (Execute.inFUMemInsts sa) as [|front rest] eqn:Hq.
  all: try destruct (InstPtr_eqb front (it_inst it0)).
  all: match goal with
       | |- context [Execute.set_inFlightInsts _
                       (Execute.set_lastPredictionSeqNum _
                          (Execute.set_lastCommitWasEndOfMacroop _ ?sb))] =>
           set (sc := Execute.set_inFlightInsts _
                        (Execute.set_lastPredictionSeqNum _
                           (Execute.set_lastCommitWasEndOfMacroop _ sb)));
           assert (Hsc : Execute.insts sc = Execute.insts s1) by reflexivity
       end.
  all: rewrite (isInst_insts s1 sc _ Hsc).
  all: destruct (isInst s1 (it_inst it0) && _);
         rewrite ?(isMemRef_insts s1 _ (it_inst it0)) by reflexivity;
         rewrite ?(deref_insts s1 _ (it_inst it0)) by reflexivity;
         rewrite ?Hm; simpl; rewrite ?Z.add_0_r; repeat split; reflexivity.
Qed.


(** C1.  An instruction that commit picks for completion, from a memory
    response or from the functional units, while its stream is not the
    engine's: it is the head of the in-flight queue, it is discarded and
    not committed, no operation with an architectural effect is invoked,
    the discarded-ops counter goes up by one, the head of the in-flight
    queue is popped and the scoreboard is told to clear the instruction's
    destinations. *)
Theorem commit_discards_stale_stream ocm discard now v s it s' :
  commit_iteration ocm discard now v s = Done (it, s') ->
  cv_fault v = NoFault ->
  it_from_mem_response it = true \/ it_try_to_commit it = true ->
  InstId.streamSeqNum (MinorDynInst.id (deref s (it_inst it))) <>
    Execute.streamSeqNum s ->
  it_inst it = hd BubblePtr (Execute.inFlightInsts s) /\
  it_discard_inst it = true /\
  it_committed_inst it = false /\
  count_events is_arch_effect (Execute.log s') =
    count_events is_arch_effect (Execute.log s) /\
  Stats.numDiscardedOps (Execute.stats s') =
    Stats.numDiscardedOps (Execute.stats s) + 1 /\
  Execute.inFlightInsts s' = tail (Execute.inFlightInsts s) /\
  Execute.scoreboard s' =
    sb_clearInstDests (it_inst it) (deref s (it_inst it))
      (isMemRef s (it_inst it)) (Execute.scoreboard s) /\
  hd_error (Execute.log s') =
    Some (EvClearInstDests (it_inst it) (isMemRef s (it_inst it))).
Proof.
  unfold commit_iteration.
  destruct (commit_attempt ocm discard now v s) as [[it0 s1]| |] eqn:Ha;
    cbn [obind fst snd]; try discriminate.
  intros Hfin Hnf Hpicked Hstream. apply Done_inj in Hfin.
  assert (Hproj : it_inst it = it_inst it0 /\
                  it_from_mem_response it = it_from_mem_response it0 /\
                  it_try_to_commit it = it_try_to_commit it0).
  { unfold commit_finish in Hfin. injection Hfin as <- _.
    repeat split; reflexivity. }
  destruct Hproj as (Ei & Em & Et). rewrite Ei in *. rewrite Em, Et in Hpicked.
  assert (Hst : stale discard s (it_inst it0) = true).
  { unfold stale. apply orb_true_iff. left. apply negb_true_iff.
    apply Z.eqb_neq. exact Hstream. }
  assert (Hd : it_discard_inst it0 = true).
  { rewrite (commit_attempt_stale _ _ _ _ _ _ _ Ha Hpicked). exact Hst. }
  destruct (commit_attempt_discard _ _ _ _ _ _ _ Ha Hd)
    as (Hv & Hc & Hi & _ & Hk).
  assert (Hcompl : cv_completed_inst (it_vars it0) = true)
    by (rewrite Hv; reflexivity).
  destruct (commit_finish_discard it0 s1 Hd Hcompl Hc Hi)
    as (_ & _ & Fd & Fc & _ & _ & Fq & Fs & Fsb & Fa & Fl).
  rewrite Hfin in Fd, Fc, Fq, Fs, Fsb, Fa, Fl.
  simpl in Fd, Fc, Fq, Fs, Fsb, Fa, Fl.
  rewrite Hv in Fs. simpl in Fs. rewrite Hnf in Fs. simpl in Fs.
  rewrite (isMemRef_insts s s1 _ (kept_insts _ _ Hk)) in Fsb, Fl.
  rewrite (deref_insts s s1 _ (kept_insts _ _ Hk)) in Fsb.
  destruct Hk. 
  split.
  { destruct (commit_attempt_inst _ _ _ _ _ _ _ Ha) as [Hh|Hs];
      [exact Hh|contradiction]. }
  repeat split; try assumption; congruence.
Qed.

End Discard.

(** ** The extra commit delay *)

Section ExtraCommitDelay.
Context `{IsaTypes} `{!Collaborators}.

Lemma deref_upd_inst_same n f s :
  deref (Execute.upd_inst (Ptr n) f s) (Ptr n) = f (deref s (Ptr n)).
Proof. simpl. apply fn_lookup_insert. Qed.

Lemma frame_unstall P index s s1 :
  frame P s s1 -> frame P s (unstall index s1).
Proof.
  intros Hf. unfold unstall. destruct (index <? 0); [exact Hf|].
  eapply frame_silent; [| |exact Hf]; reflexivity.
Qed.

(** Past the folding of the delay, [commit_try] evaluates no expression. *)
Lemma commit_try_after_fold discard now inst early branch fault s :
  stale discard s inst = false ->
  frame not_eval (fold_extra_commit_delay inst s)
    (snd (commit_try discard now inst early branch fault s)).
Proof.
  intros Hst. unfold commit_try. fold (stale discard s inst). rewrite Hst.
  cbn [negb].
  set (s0 := fold_extra_commit_delay inst s).
  destruct (_ && _ && _ && _); [apply frame_refl|].
  destruct (now <? _); [apply frame_refl|].
  pose proof (frame_commitInst inst early branch false false s0 s0
                (frame_refl _ s0)) as Hf.
  destruct (commitInst inst early branch false false s0) as [r s1].
  simpl in Hf. cbn [fst snd].
  destruct (ci_completed_inst r); [|exact Hf].
  destruct (negb _); [apply frame_unstall|]; exact Hf.
Qed.

Lemma fold_extra_commit_delay_none inst s :
  MinorDynInst.extraCommitDelayExpr (deref s inst) = None ->
  Execute.log (fold_extra_commit_delay inst s) = Execute.log s.
Proof.
  intros He. unfold fold_extra_commit_delay. rewrite He.
  destruct (negb _); [|reflexivity].
  destruct inst; reflexivity.
Qed.

(** C9, as amended.  For an instruction that commit tries to complete and
    does not discard: an extra-commit-delay expression is evaluated once,
    before anything else is done for the instruction, and is dropped from
    the instruction, so that it is never evaluated again; its value is
    added to the fixed extra commit delay when it is below 128 and ignored
    otherwise; a delay that is not zero sets the minimum commit cycle to
    the current cycle plus the delay; and while the cycle commit started
    in is below the minimum commit cycle the instruction is not completed
    and nothing else happens.  An instruction without an expression has
    none evaluated. *)
Theorem extra_commit_delay_gate :
  (forall discard now inst early branch fault s e,
     MinorDynInst.extraCommitDelayExpr (deref s inst) = Some e ->
     stale discard s inst = false ->
     let i := deref s inst in
     let value :=
       wrap64 (TimingExpr_eval e (MinorDynInst.staticInst i)
                 (getContext s (threadOf s inst))) in
     let delay :=
       if value <? 128
       then Cycles_add (MinorDynInst.extraCommitDelay i) value
       else MinorDynInst.extraCommitDelay i in
     let gate :=
       if delay =? 0 then MinorDynInst.minimumCommitCycle i
       else Cycles_add (Execute.curCycle s) delay in
     let s0 := fold_extra_commit_delay inst s in
     let out := commit_try discard now inst early branch fault s in
     Execute.log s0 = EvEvalExpr inst e :: Execute.log s /\
     (exists k, Execute.log (snd out) = k ++ Execute.log s0 /\
                forallb not_eval k = true) /\
     MinorDynInst.extraCommitDelayExpr (deref s0 inst) = None /\
     MinorDynInst.extraCommitDelay (deref s0 inst) = 0 /\
     MinorDynInst.minimumCommitCycle (deref s0 inst) = gate /\
     (if now <? gate
      then out =
           (false,
            {| ci_completed_inst := false; ci_branch := branch;
               ci_fault := fault; ci_committed := false;
               ci_completed_mem_issue := false |}, s0)
      else True)) /\
  (forall discard now inst early branch fault s,
     MinorDynInst.extraCommitDelayExpr (deref s inst) = None ->
     exists k,
       Execute.log (snd (commit_try discard now inst early branch fault s)) =
         k ++ Execute.log s /\
       forallb not_eval k = true).
Proof.
  split.
  - intros discard now inst early branch fault s e He Hst i value delay gate
      s0 out.
    destruct inst as [|n]; [discriminate He|].
    assert (Hfold :
      Execute.log s0 = EvEvalExpr (Ptr n) e :: Execute.log s /\
      MinorDynInst.extraCommitDelayExpr (deref s0 (Ptr n)) = None /\
      MinorDynInst.extraCommitDelay (deref s0 (Ptr n)) = 0 /\
      MinorDynInst.minimumCommitCycle (deref s0 (Ptr n)) = gate).
    { subst s0 gate delay value i. unfold fold_extra_commit_delay.
      rewrite He. cbv zeta.
      set (val := wrap64 _).
      destruct (val <? 128).
      - rewrite !deref_upd_inst_same. cbn [MinorDynInst.extraCommitDelay
          MinorDynInst.set_extraCommitDelayExpr
          MinorDynInst.set_extraCommitDelay].
        change (deref (Execute.emit (EvEvalExpr (Ptr n) e) s) (Ptr n))
          with (deref s (Ptr n)).
        destruct (Cycles_add _ val =? 0) eqn:Hz; cbn [negb].
        + rewrite !deref_upd_inst_same. simpl.
          apply Z.eqb_eq in Hz. simpl in Hz.
          repeat split; try reflexivity; exact Hz.
        + rewrite !deref_upd_inst_same. simpl. repeat split; reflexivity.
      - rewrite !deref_upd_inst_same. cbn [MinorDynInst.extraCommitDelay
          MinorDynInst.set_extraCommitDelayExpr].
        change (deref (Execute.emit (EvEvalExpr (Ptr n) e) s) (Ptr n))
          with (deref s (Ptr n)).
        destruct (MinorDynInst.extraCommitDelay (deref s (Ptr n)) =? 0)
          eqn:Hz; cbn [negb].
        + rewrite !deref_upd_inst_same. simpl.
          apply Z.eqb_eq in Hz. simpl in Hz.
          repeat split; try reflexivity; exact Hz.
        + rewrite !deref_upd_inst_same. simpl. repeat split; reflexivity. }
    destruct Hfold as (Hlog & Hexpr & Hdelay & Hgate).
    split; [exact Hlog|]. split.
    { destruct (commit_try_after_fold discard now (Ptr n) early branch fault
                  s Hst) as [_ Hk]. exact Hk. }
    split; [exact Hexpr|]. split; [exact Hdelay|]. split; [exact Hgate|].
    destruct (now <? gate) eqn:Hnow; [|exact I].
    subst out. unfold commit_try. fold (stale discard s (Ptr n)).
    rewrite Hst. cbn [negb]. fold s0. rewrite Hgate, Hnow.
    destruct (_ && _ && _ && _); reflexivity.
  - intros discard now inst early branch fault s He.
    destruct (stale discard s inst) eqn:Hst.
    + rewrite commit_try_stale by exact Hst. cbn [snd].
      exists []. split; [|reflexivity].
      destruct (negb _); [|reflexivity].
      unfold unstall. destruct (_ <? 0); reflexivity.
    + destruct (commit_try_after_fold discard now inst early branch fault s
                  Hst) as [_ (k & Hk & Hp)].
      exists k. rewrite Hk, (fold_extra_commit_delay_none _ _ He).
      split; [reflexivity|exact Hp].
Qed.

End ExtraCommitDelay.

(** ** Issue *)

Section Issue.
Context `{IsaTypes} `{!Collaborators}.

Lemma Cycles_add_small a b :
  0 <= a -> 0 <= b -> a + b < 2 ^ 64 -> Cycles_add a b = a + b.
Proof. intros. unfold Cycles_add, wrap64. apply Z.mod_small. lia. Qed.

Lemma issue_try_fu_failed inst fu_index s fi mem s' :
  issue_try_fu inst fu_index s = (fi, false, mem, s') ->
  s' = s /\ fi = fu_index.
Proof.
  unfold issue_try_fu.
  destruct (isNoCostInst s inst); [discriminate|].
  destruct (funcUnit s fu_index) as [fu|]; [|intros [= <- _ <-]; auto].
  repeat match goal with
         | |- context [if ?b then _ else _] => destruct b
         end;
    first [discriminate | intros [= <- _ <-]; auto].
Qed.

Lemma issue_try_fu_issued inst fu_index s fi mem s' :
  issue_try_fu inst fu_index s = (fi, true, mem, s') ->
  isNoCostInst s inst = false ->
  fi = fu_index /\
  exists fu, marked_busy inst fu_index fu s s'.
Proof.
  unfold issue_try_fu. intros Hi Hnc. rewrite Hnc in Hi.
  destruct (funcUnit s fu_index) as [fu|] eqn:Hfu; [|discriminate].
  destruct (negb _ || fu_alreadyPushed fu); [discriminate|].
  destruct (FUPipeline.stalled fu); [discriminate|].
  destruct (negb (fu_canInsert fu)); [discriminate|].
  fold (timing_for fu (deref s inst)) in Hi.
  set (timing := timing_for fu (deref s inst)) in *.
  destruct (match timing with Some t => MinorFUTiming.suppress t
                         | None => false end); [discriminate|].
  destruct (negb (sb_canInstIssue _ _ _ _ _ _)); [discriminate|].
  fold (extraCommitLat_of timing) in Hi.
  fold (extraAssumedLat_of timing) in Hi.
  injection Hi as <- <- <-. split; [reflexivity|].
  exists fu. unfold marked_busy. fold timing.
  split; [exact Hfu|].
  split; [|split].
  - destruct (isMemRef s inst); [destruct (Execute.allowEarlyMemIssue _)|];
      destruct inst; reflexivity.
  - destruct (isMemRef s inst); [destruct (Execute.allowEarlyMemIssue _)|];
      destruct inst; reflexivity.
  - intros.
    rewrite (Cycles_add_small (Execute.curCycle s) (FUPipeline.opLat fu))
      by lia.
    rewrite (Cycles_add_small _ (extraCommitLat_of timing)) by lia.
    rewrite Cycles_add_small by lia. reflexivity.
Qed.

(** C6.  When the scan of the functional units issues an instruction,
    other than a no-cost one, it went into a unit [fu], the last one
    looked at, and the scoreboard was handed, as the time at which the
    instruction's destinations become ready, the current cycle plus the
    unit's latency plus the extra commit latency and the extra assumed
    latency that the unit's timing overrides give this instruction (zero
    without override): a sum of [Cycles], that is the plain sum as long
    as it fits in 64 bits. *)
Theorem issue_marks_destinations_busy fuel inst fu_index s fi mem s' :
  issue_to_fus fuel inst fu_index s = (fi, true, mem, s') ->
  isNoCostInst s inst = false ->
  exists k fu, fi = uint_inc k /\ marked_busy inst k fu s s'.
Proof.
  revert fu_index. induction fuel as [|fuel IH]; intros fu_index Hi Hnc.
  - simpl in Hi.
    destruct (issue_try_fu inst fu_index s) as [[[fi1 issued] mem1] s1]
      eqn:Ht.
    destruct issued.
    + rewrite andb_false_r in Hi. injection Hi as <- <- <-.
      destruct (issue_try_fu_issued _ _ _ _ _ _ Ht Hnc) as [-> [fu Hm]].
      exists fu_index, fu. split; [reflexivity|exact Hm].
    + destruct (negb _ && negb false); discriminate.
  - simpl in Hi.
    destruct (issue_try_fu inst fu_index s) as [[[fi1 issued] mem1] s1]
      eqn:Ht.
    destruct issued.
    + rewrite andb_false_r in Hi. injection Hi as <- <- <-.
      destruct (issue_try_fu_issued _ _ _ _ _ _ Ht Hnc) as [-> [fu Hm]].
      exists fu_index, fu. split; [reflexivity|exact Hm].
    + destruct (issue_try_fu_failed _ _ _ _ _ _ Ht) as [-> ->].
      destruct (negb _ && negb false); [|discriminate].
      eapply IH; eassumption.
Qed.

(** A bubble in the line is stepped over and counted as an issued
    instruction. *)
Lemma issue_iteration_counts_bubble only_issue_microops insts_in v s :
  inst_at insts_in (Execute.inputIndex s) = BubblePtr ->
  let out := issue_iteration only_issue_microops insts_in v s in
  iv_issued (fst out) = true /\
  iv_num_insts_issued (fst out) = uint_inc (iv_num_insts_issued v) /\
  iv_num_insts_discarded (fst out) = iv_num_insts_discarded v /\
  Execute.inFlightInsts (snd out) = Execute.inFlightInsts s.
Proof.
  intros Hb out. subst out. unfold issue_iteration. rewrite Hb. simpl.
  destruct (uint_inc _ =? width _); simpl; repeat split; reflexivity.
Qed.

(** An instruction of another stream is stepped over and counted as
    discarded, not as issued. *)
Lemma issue_iteration_counts_discarded only_issue_microops insts_in v s :
  let inst := inst_at insts_in (Execute.inputIndex s) in
  isBubble inst = false ->
  ThreadContext.status (getContext s (threadOf s inst)) <> Suspended ->
  InstId.streamSeqNum (MinorDynInst.id (deref s inst)) <>
    Execute.streamSeqNum s ->
  let out := issue_iteration only_issue_microops insts_in v s in
  iv_issued (fst out) = true /\
  iv_num_insts_issued (fst out) = iv_num_insts_issued v /\
  iv_num_insts_discarded (fst out) = uint_inc (iv_num_insts_discarded v) /\
  Execute.inFlightInsts (snd out) = Execute.inFlightInsts s.
Proof.
  intros inst Hb Hs Hst out. subst out inst. unfold issue_iteration.
  rewrite Hb.
  rewrite bool_decide_eq_false_2 by exact Hs.
  apply Z.eqb_neq in Hst. rewrite Hst. simpl.
  destruct (uint_inc _ =? width _); simpl; repeat split; reflexivity.
Qed.

(** An instruction that fails to issue ends the call, and so does
    reaching either limit. *)
Lemma issue_stops v s :
  iv_issued v = false \/
  iv_num_insts_issued v = Execute.issueLimit s \/
  iv_num_mem_insts_issued v = Execute.memoryIssueLimit s ->
  issue_continues v s = false.
Proof.
  unfold issue_continues. destruct (iv_insts_in v); [|reflexivity].
  intros [->|[->| ->]]; rewrite ?Z.eqb_refl, ?andb_false_r; reflexivity.
Qed.

End Issue.

(** ** Draining *)

Section Drain.
Context `{IsaTypes} `{!Collaborators}.

Lemma drain_step_not_back a b : drain_step a b -> b <> NotDraining.
Proof. destruct 1; discriminate. Qed.

Lemma drain_steps_not_back a b :
  rtc drain_step a b -> b = NotDraining -> a = NotDraining.
Proof.
  induction 1 as [|a b c Hab Hbc IH]; [auto|].
  intros Hc. specialize (IH Hc). subst b.
  exfalso. exact (drain_step_not_back _ _ Hab eq_refl).
Qed.

Lemma drain_handleMemResponse inst response branch fault s b f s' :
  handleMemResponse inst response branch fault s = Done (b, f, s') ->
  Execute.drainState s' = Execute.drainState s.
Proof.
  unfold handleMemResponse.
  set (s0 := ExecContext_new inst s).
  assert (Hs0 : frame not_eval s s0) by (subst s0; auto with frame).
  clearbody s0.
  match goal with
  | |- obind ?x _ = _ -> _ =>
      assert (Hx : match x with
                   | Done (_, s1) => frame not_eval s s1
                   | _ => True
                   end);
      [|destruct x as [[f1 s1]| |]; cbn [obind]; try discriminate]
  end.
  { destruct (LSQRequest.fault response).
    - destruct (MinorDynInst.sflag _ _); auto with frame.
    - destruct (LSQRequest.packet response); [|exact Hs0].
      destruct (Packet_isError _); [exact I|].
      destruct (_ || _ || _); [|exact I].
      destruct (isa_completeAcc _ _ _ _) as [cf w].
      destruct cf; [auto 10 with frame|].
      destruct (LSQRequest.needsToBeSentToStoreBuffer _);
        auto 10 with frame. }
  pose proof (frame_tryToBranch inst f1 branch s
                (doInstCommitAccounting inst
                   (Execute.emit (EvPopResponse inst)
                      (Execute.upd_lsq (lsq_popResponse response) s1))))
    as Hf.
  destruct (tryToBranch _ _ _ _) as [b1 s4]. simpl in Hf.
  intros [= _ _ <-]. apply Hf. auto 10 with frame.
Qed.

Lemma drain_fold_extra_commit_delay inst s :
  Execute.drainState (fold_extra_commit_delay inst s) = Execute.drainState s.
Proof.
  unfold fold_extra_commit_delay.
  destruct (MinorDynInst.extraCommitDelayExpr _).
  - destruct (_ <? 128); destruct (negb _); destruct inst; reflexivity.
  - destruct (negb _); destruct inst; reflexivity.
Qed.

Lemma drain_commit_try discard now inst early branch fault s :
  Execute.drainState (snd (commit_try discard now inst early branch fault s))
  = Execute.drainState s.
Proof.
  destruct (stale discard s inst) eqn:Hst.
  - rewrite commit_try_stale by exact Hst. cbn [snd].
    destruct (negb _); [|reflexivity].
    apply (kept_drainState _ _ (kept_unstall _ _)).
  - destruct (commit_try_after_fold discard now inst early branch fault s
                Hst) as [Hd _].
    rewrite Hd. apply drain_fold_extra_commit_delay.
Qed.

Lemma drain_commit_from_fus discard now can head v s :
  Execute.drainState (snd (commit_from_fus discard now can head v s)) =
  Execute.drainState s.
Proof.
  unfold commit_from_fus. destruct can; [|reflexivity].
  destruct (commit_candidate head s) as [[[inst try] early] c].
  destruct try; [|reflexivity].
  pose proof (drain_commit_try discard now inst early (cv_branch v)
                (cv_fault v) s) as Hd.
  destruct (commit_try _ _ _ _ _ _ _) as [[d r] s1]. exact Hd.
Qed.

Lemma drain_commit_attempt ocm discard now v s it0 s1 :
  commit_attempt ocm discard now v s = Done (it0, s1) ->
  Execute.drainState s1 = Execute.drainState s.
Proof.
  unfold commit_attempt.
  pose proof (commit_attempt_pc_events s) as Hk.
  destruct (if isInbetweenInsts s then tryPCEvents s else (false, s))
    as [pc s0]. simpl in Hk. apply kept_drainState in Hk.
  destruct pc.
  { pose proof (frame_updateBranchData UnpredictedBranch BubblePtr
                  (ThreadContext.pcState (getContext s0 0)) (cv_branch v)
                  s0 s0 (frame_refl _ _)) as [Hd _].
    destruct (updateBranchData _ _ _ _ _). intros [= _ <-].
    simpl in Hd. congruence. }
  assert (Hfus : forall can,
            Done (commit_from_fus discard now can
                    (hd BubblePtr (Execute.inFlightInsts s)) v s0) =
            Done (it0, s1) ->
            Execute.drainState s1 = Execute.drainState s).
  { intros can Hc. apply Done_inj in Hc.
    pose proof (drain_commit_from_fus discard now can
                  (hd BubblePtr (Execute.inFlightInsts s)) v s0) as Hd.
    rewrite Hc in Hd. simpl in Hd. congruence. }
  destruct (if MinorDynInst.inLSQ _ then _ else None) as [response|];
    [|apply Hfus].
  destruct (_ <? _); [|apply Hfus].
  destruct (_ || _).
  - intros [= _ <-]. exact Hk.
  - destruct (handleMemResponse _ _ _ _ _) as [[[b f] s2]| |] eqn:Hh;
      simpl; try discriminate.
    intros [= _ <-]. rewrite (drain_handleMemResponse _ _ _ _ _ _ _ _ Hh).
    exact Hk.
Qed.

Lemma drain_commit_finish it0 s1 :
  Execute.drainState (snd (commit_finish it0 s1)) = Execute.drainState s1.
Proof.
  unfold commit_finish. cbn [snd].
  repeat match goal with
         | |- context [if ?b then _ else _] => destruct b
         | |- context [match ?x with _ => _ end] => destruct x
         end;
    first [reflexivity | destruct (it_inst it0); reflexivity].
Qed.

Lemma drain_commit_iteration ocm discard now v s it s' :
  commit_iteration ocm discard now v s = Done (it, s') ->
  Execute.drainState s' = Execute.drainState s.
Proof.
  unfold commit_iteration.
  destruct (commit_attempt ocm discard now v s) as [[it0 s1]| |] eqn:Ha;
    cbn [obind fst snd]; try discriminate.
  intros Hfin. apply Done_inj in Hfin.
  pose proof (drain_commit_finish it0 s1) as Hd. rewrite Hfin in Hd.
  simpl in Hd. rewrite Hd. eapply drain_commit_attempt. eassumption.
Qed.

Lemma drain_commit_loop fuel ocm discard now v s v' s' :
  commit_loop fuel ocm discard now v s = Done (v', s') ->
  Execute.drainState s' = Execute.drainState s.
Proof.
  revert v s. induction fuel as [|fuel IH]; intros v s; simpl.
  - destruct (commit_continues v s); [discriminate|].
    intros [= _ <-]. reflexivity.
  - destruct (commit_continues v s); [|intros [= _ <-]; reflexivity].
    destruct (commit_iteration ocm discard now v s) as [[it s1]| |] eqn:Hi;
      cbn [obind fst snd]; try discriminate.
    intros Hl. rewrite (IH _ _ Hl).
    eapply drain_commit_iteration. eassumption.
Qed.

Lemma drain_commit fuel ocm discard branch s b s' :
  commit fuel ocm discard branch s = Done (b, s') ->
  Execute.drainState s' = Execute.drainState s.
Proof.
  unfold commit.
  destruct (commit_loop _ _ _ _ _ _) as [[v1 s1]| |] eqn:Hl;
    cbn [obind fst snd]; try discriminate.
  intros [= _ <-]. eapply drain_commit_loop. eassumption.
Qed.

Lemma drain_issue_try_fu inst fu_index s :
  Execute.drainState (snd (issue_try_fu inst fu_index s)) =
  Execute.drainState s.
Proof.
  unfold issue_try_fu.
  destruct (isNoCostInst s inst); [destruct inst; reflexivity|].
  destruct (funcUnit s fu_index) as [fu|]; [|reflexivity].
  repeat match goal with
         | |- context [if ?b then _ else _] => destruct b
         end;
    first [reflexivity | destruct inst; reflexivity].
Qed.

Lemma drain_issue_to_fus fuel inst fu_index s :
  Execute.drainState (snd (issue_to_fus fuel inst fu_index s)) =
  Execute.drainState s.
Proof.
  revert fu_index s. induction fuel as [|fuel IH]; intros fu_index s; simpl.
  - pose proof (drain_issue_try_fu inst fu_index s) as Hd.
    destruct (issue_try_fu inst fu_index s) as [[[fi issued] mem] s1].
    destruct (_ && _); exact Hd.
  - pose proof (drain_issue_try_fu inst fu_index s) as Hd.
    destruct (issue_try_fu inst fu_index s) as [[[fi issued] mem] s1].
    simpl in Hd.
    destruct (_ && _); [|exact Hd]. rewrite IH. exact Hd.
Qed.

Lemma drain_issue_iteration only_issue_microops insts_in v s :
  Execute.drainState (snd (issue_iteration only_issue_microops insts_in v s))
  = Execute.drainState s.
Proof.
  unfold issue_iteration.
  pose proof (drain_issue_to_fus (length (Execute.funcUnits s))
                (inst_at insts_in (Execute.inputIndex s)) 0 s) as Hd.
  destruct (issue_to_fus _ _ 0 s) as [[[fi issued] mem] s1].
  simpl in Hd.
  repeat match goal with
         | |- context [if ?b then _ else _] => destruct b
         end; simpl; congruence.
Qed.

Lemma drain_issue_loop fuel only_issue_microops insts_in v s :
  Execute.drainState
    (snd (issue_loop fuel only_issue_microops insts_in v s)) =
  Execute.drainState s.
Proof.
  revert insts_in v s.
  induction fuel as [|fuel IH]; intros insts_in v s; simpl.
  - pose proof (drain_issue_iteration only_issue_microops insts_in v s)
      as Hd.
    destruct (issue_iteration _ _ _ _) as [v1 s1].
    destruct (issue_continues v1 s1); exact Hd.
  - pose proof (drain_issue_iteration only_issue_microops insts_in v s)
      as Hd.
    destruct (issue_iteration _ _ _ _) as [v1 s1]. simpl in Hd.
    destruct (issue_continues v1 s1); [|exact Hd].
    destruct (iv_insts_in v1); [|exact Hd]. rewrite IH. exact Hd.
Qed.

Lemma drain_issue only_issue_microops s :
  Execute.drainState (snd (issue only_issue_microops s)) =
  Execute.drainState s.
Proof.
  unfold issue. destruct (getInput s) as [insts_in|]; [|reflexivity].
  pose proof (drain_issue_loop (issue_fuel s) only_issue_microops insts_in
                {| iv_insts_in := Some insts_in; iv_fu_index := 0;
                   iv_issued := true; iv_num_insts_issued := 0;
                   iv_num_mem_insts_issued := 0;
                   iv_num_insts_discarded := 0 |} s) as Hd.
  destruct (issue_loop _ _ _ _ _) as [v1 s1]. exact Hd.
Qed.

Lemma drain_discardInput fuel s :
  Execute.drainState (discardInput fuel s) = Execute.drainState s.
Proof.
  revert s. induction fuel as [|fuel IH]; intros s; simpl.
  - destruct (getInput s); reflexivity.
  - destruct (getInput s); [|reflexivity]. rewrite IH. reflexivity.
Qed.

Lemma drain_takeInterrupt thread_id branch s :
  Execute.drainState (snd (takeInterrupt thread_id branch s)) =
  Execute.drainState s.
Proof.
  unfold takeInterrupt.
  destruct (getInterrupt _ _); reflexivity.
Qed.

(** The drain state after the commit and issue arm of [evaluate]. *)
Lemma drain_evaluate_commit_issue fuel interrupted insts_in branch s n b s' :
  evaluate_commit_issue fuel interrupted insts_in branch s = Done (n, b, s') ->
  Execute.drainState s' = Execute.drainState s \/
  Execute.drainState s = DrainCurrentInst /\
  Execute.drainState s' = DrainHaltFetch.
Proof.
  unfold evaluate_commit_issue.
  match goal with
  | |- obind ?x _ = _ -> _ =>
      assert (Hx : match x with
                   | Done (_, s1) =>
                       Execute.drainState s1 = Execute.drainState s \/
                       Execute.drainState s = DrainCurrentInst /\
                       Execute.drainState s1 = DrainHaltFetch
                   | _ => True
                   end);
      [|destruct x as [[b1 s1]| |]; cbn [obind]; try discriminate]
  end.
  { destruct (bool_decide (Execute.drainState s = NotDraining)); cbn [negb].
    - destruct (commit fuel interrupted false branch s) as [[b1 s1]| |]
        eqn:Hc; [|exact I|exact I].
      left. eapply drain_commit. eassumption.
    - destruct (bool_decide (Execute.drainState s = DrainCurrentInst))
        eqn:Hcur.
      + apply bool_decide_eq_true in Hcur.
        destruct (commit fuel true false branch s) as [[b1 s1]| |] eqn:Hc;
          cbn [obind snd]; [|exact I|exact I].
        apply drain_commit in Hc.
        destruct (isInbetweenInsts s1); [right|left]; simpl; auto.
      + destruct (bool_decide (Execute.drainState s = DrainAllInsts)).
        * destruct (commit fuel false true branch _) as [[b1 s1]| |] eqn:Hc;
            [|exact I|exact I].
          left. apply drain_commit in Hc. rewrite Hc.
          apply drain_discardInput.
        * left. reflexivity. }
  destruct insts_in.
  - pose proof (drain_issue false s1) as Hd.
    destruct (issue false s1) as [num s2]. simpl in Hd.
    intros [= _ _ <-]. rewrite Hd. exact Hx.
  - intros [= _ _ <-]. exact Hx.
Qed.

(** C7.  The drain state only moves forward along
    NotDraining, DrainCurrentInst, DrainHaltFetch, DrainAllInsts:
    [drain] leaves any state but [NotDraining] alone and takes
    [NotDraining] to [DrainHaltFetch] when the engine is between
    instructions and to [DrainCurrentInst] otherwise; a cycle of
    [evaluate] only makes forward moves (and none from [NotDraining]);
    only [drainResume] sets [NotDraining]; and [isDrained] holds exactly
    in [DrainAllInsts] with the input buffer, the in-flight queue and the
    memory queues empty. *)
Theorem drain_state_machine :
  (forall s,
     Execute.drainState (snd (drain s)) =
     match Execute.drainState s with
     | NotDraining =>
         if isInbetweenInsts s then DrainHaltFetch else DrainCurrentInst
     | d => d
     end) /\
  (forall fuel inp branch s b s',
     evaluate fuel inp branch s = Done (b, s') ->
     rtc drain_step (Execute.drainState s) (Execute.drainState s') /\
     (Execute.drainState s = NotDraining ->
      Execute.drainState s' = NotDraining) /\
     Execute.drainState s' <> DrainHaltFetch) /\
  (forall s, Execute.drainState (snd (drainResume s)) = NotDraining) /\
  (forall s,
     isDrained s = true <->
     Execute.drainState s = DrainAllInsts /\
     Execute.inputBuffer s = [] /\
     Execute.inFlightInsts s = [] /\
     lsq_isDrained (World.lsq (Execute.world s)) = true).
Proof.
  split; [|split; [|split]].
  - intros s. unfold drain.
    destruct (Execute.drainState s) eqn:Hd; simpl; try exact Hd.
    change (isInbetweenInsts (Execute.emit EvWakeup s))
      with (isInbetweenInsts s).
    destruct (isInbetweenInsts s); reflexivity.
  - intros fuel inp branch s b s'. unfold evaluate.
    set (s0 := if ForwardInstData_isBubble inp then s else _).
    assert (H0d : Execute.drainState s0 = Execute.drainState s)
      by (subst s0; destruct (ForwardInstData_isBubble inp); reflexivity).
    set (s1 := Execute.emit EvLsqStep (Execute.upd_lsq lsq_step s0)).
    assert (H1d : Execute.drainState s1 = Execute.drainState s)
      by (subst s1; exact H0d).
    clearbody s1. clear H0d.
    set (interrupted := if hasInterruptController _ then _ else false).
    clearbody interrupted.
    pose proof (drain_takeInterrupt 0 branch s1) as Hti.
    set (ti := if interrupted && isInbetweenInsts s1
               then takeInterrupt 0 branch s1 else (false, branch, s1)).
    assert (Htd : Execute.drainState (snd ti) = Execute.drainState s)
      by (subst ti; destruct (interrupted && isInbetweenInsts s1);
          [rewrite Hti; exact H1d | exact H1d]).
    clearbody ti. destruct ti as [[took b1] s2]. simpl in Htd.
    set (interrupted' := if interrupted && _ then took else interrupted).
    clearbody interrupted'.
    match goal with
    | |- obind ?x _ = _ -> _ =>
        assert (Hx : match x with
                     | Done (_, _, s3) =>
                         Execute.drainState s3 = Execute.drainState s \/
                         Execute.drainState s = DrainCurrentInst /\
                         Execute.drainState s3 = DrainHaltFetch
                     | _ => True
                     end);
        [|destruct x as [[[num b2] s3]| |]; cbn [obind]; try discriminate]
    end.
    { destruct took; [left; exact Htd|].
      destruct (negb (BranchData.isBubble b1)); [left; exact Htd|].
      destruct (evaluate_commit_issue _ _ _ _ _) as [[[num b2] s3]| |]
        eqn:He; [|exact I|exact I].
      apply drain_evaluate_commit_issue in He.
      rewrite Htd in He. exact He. }
    set (hf := if bool_decide (Execute.drainState s3 = DrainHaltFetch)
               then _ else (b2, s3)).
    assert (Hhf :
      Execute.drainState (snd hf) =
      if bool_decide (Execute.drainState s3 = DrainHaltFetch)
      then DrainAllInsts else Execute.drainState s3).
    { subst hf.
      destruct (bool_decide (Execute.drainState s3 = DrainHaltFetch));
        [|reflexivity].
      destruct (updateBranchData HaltFetch BubblePtr (PCState_at 0) b2 s3);
        reflexivity. }
    clearbody hf. destruct hf as [b3 s4]. simpl in Hhf.
    destruct (match getInput s4 with Some _ => _ | None => _ end)
      as [next can].
    intros Hfin. apply Done_inj in Hfin.
    assert (Hfinal : Execute.drainState s' = Execute.drainState s4).
    { injection Hfin as _ <-.
      repeat match goal with
             | |- context [if ?c then _ else _] => destruct c
             end; reflexivity. }
    rewrite Hfinal, Hhf. clear Hfinal Hfin.
    destruct (bool_decide (Execute.drainState s3 = DrainHaltFetch)) eqn:Hb.
    + apply bool_decide_eq_true in Hb.
      split; [|split; [|discriminate]].
      * destruct Hx as [Hx|[Hc Hx]].
        -- rewrite <- Hx, Hb. apply rtc_once. constructor.
        -- rewrite Hc. eapply rtc_l; [constructor|].
           apply rtc_once. constructor.
      * intros Hn. destruct Hx as [Hx|[Hc Hx]]; congruence.
    + apply bool_decide_eq_false in Hb.
      destruct Hx as [Hx|[Hc Hx]]; [|contradiction].
      rewrite Hx. split; [reflexivity|]. split; [auto|].
      congruence.
  - intros s. reflexivity.
  - intros s. unfold isDrained.
    rewrite !andb_true_iff, !bool_decide_eq_true. tauto.
Qed.

End Drain.

(** ** Construction *)

Section Construction.
Context `{IsaTypes} `{!Collaborators}.

(** What the checks of the constructor let through. *)
Lemma Execute_new_checks p fus sb w c t :
  is_done (Execute_new p fus sb w c t) =
  legal_configuration p ||
  (Params.executeMemoryCommitLimit p <? 1) &&
  (1 <=? Params.executeCommitLimit p) &&
  (1 <=? Params.executeIssueLimit p) &&
  (1 <=? Params.executeMemoryIssueLimit p) &&
  (1 <=? Params.executeInputBufferSize p).
Proof.
  unfold Execute_new, legal_configuration.
  destruct p as [iss miss com mcom buf cyc early fit fitr sbfi].
  cbn [Params.executeIssueLimit Params.executeMemoryIssueLimit
       Params.executeCommitLimit Params.executeMemoryCommitLimit
       Params.executeInputBufferSize].
  rewrite !(Z.leb_antisym _ 1), (Z.leb_antisym com mcom).
  destruct (Z.ltb_spec mcom 1) as [Hm|Hm];
    (destruct (Z.ltb_spec com 1) as [Hc|Hc]; [reflexivity|]);
    (destruct (iss <? 1); [reflexivity|]);
    (destruct (miss <? 1); [reflexivity|]);
    (destruct (Z.ltb_spec com mcom) as [Hcm|Hcm]; [try lia; reflexivity|]);
    destruct (buf <? 1); reflexivity.
Qed.

End Construction.

(** * The theorems at work on the small machine *)

Section Witnesses.
#[local] Existing Instance Demo.types.
#[local] Existing Instance Demo.collab.


Lemma commit_discards_stale_stream_witness :
  match commit_iteration false false 10 (commit_entry BranchData_bubble)
          Demo.stale_head_state with
  | Done (it, s') =>
      (cv_fault (commit_entry BranchData_bubble) = NoFault /\
       (it_from_mem_response it = true \/ it_try_to_commit it = true) /\
       InstId.streamSeqNum
         (MinorDynInst.id (deref Demo.stale_head_state (it_inst it))) <>
       Execute.streamSeqNum Demo.stale_head_state) /\
      it_discard_inst it = true /\
      Stats.numDiscardedOps (Execute.stats s') = 1 /\
      Execute.inFlightInsts s' = []
  | _ => False
  end.
Proof.
  pose proof (commit_discards_stale_stream false false 10
                (commit_entry BranchData_bubble) Demo.stale_head_state)
    as Hthm.
  destruct (commit_iteration false false 10 (commit_entry BranchData_bubble)
              Demo.stale_head_state) as [[it s']| |] eqn:E.
  - assert (Hhyp :
      cv_fault (commit_entry BranchData_bubble) = NoFault /\
      (it_from_mem_response it = true \/ it_try_to_commit it = true) /\
      InstId.streamSeqNum
        (MinorDynInst.id (deref Demo.stale_head_state (it_inst it))) <>
      Execute.streamSeqNum Demo.stale_head_state).
    { vm_compute in E. injection E as <- _.
      split; [reflexivity|]. split; [right; reflexivity|].
      vm_compute. discriminate. }
    split; [exact Hhyp|].
    destruct Hhyp as (H1 & H2 & H3).
    destruct (Hthm it s' eq_refl H1 H2 H3)
      as (_ & Hd & _ & _ & Hn & Hq & _).
    split; [exact Hd|]. split; [exact Hn|exact Hq].
  - vm_compute in E. discriminate.
  - vm_compute in E. discriminate.
Defined.

(** C9 as stated fails: an expression that evaluates to 200 is evaluated
    and dropped, its value is not folded into the gate, and the
    instruction commits in the cycle it reached the tail of its unit,
    cycle 10, not at cycle 210. *)
Lemma extra_commit_delay_long_value_dropped :
  let s := Demo.long_delay_state in
  let out := commit_try false 10 (Ptr 1) false BranchData_bubble NoFault s in
  MinorDynInst.extraCommitDelayExpr (deref s (Ptr 1)) = Some 200 /\
  TimingExpr_eval 200 (MinorDynInst.staticInst (deref s (Ptr 1)))
    (getContext s 0) = 200 /\
  Execute.curCycle s = 10 /\
  ci_completed_inst (snd (fst out)) = true /\
  ci_committed (snd (fst out)) = true /\
  Execute.log (snd out) <> Execute.log (fold_extra_commit_delay (Ptr 1) s) /\
  MinorDynInst.minimumCommitCycle (deref (snd out) (Ptr 1)) <> 210.
Proof. vm_compute. repeat split; try reflexivity; discriminate. Qed.

Lemma extra_commit_delay_gate_witness :
  let s := Demo.short_delay_state in
  let s0 := fold_extra_commit_delay (Ptr 1) s in
  (MinorDynInst.extraCommitDelayExpr (deref s (Ptr 1)) = Some 5 /\
   stale false s (Ptr 1) = false) /\
  Execute.log s0 = EvEvalExpr (Ptr 1) 5 :: Execute.log s /\
  MinorDynInst.minimumCommitCycle (deref s0 (Ptr 1)) = 17 /\
  commit_try false 10 (Ptr 1) false BranchData_bubble NoFault s =
  (false,
   {| ci_completed_inst := false; ci_branch := BranchData_bubble;
      ci_fault := NoFault; ci_committed := false;
      ci_completed_mem_issue := false |}, s0).
Proof.
  assert (Hhyp :
    MinorDynInst.extraCommitDelayExpr
      (deref Demo.short_delay_state (Ptr 1)) = Some 5 /\
    stale false Demo.short_delay_state (Ptr 1) = false)
    by (split; reflexivity).
  split; [exact Hhyp|]. destruct Hhyp as [He Hst].
  destruct (proj1 extra_commit_delay_gate false 10 (Ptr 1) false
              BranchData_bubble NoFault Demo.short_delay_state 5 He Hst)
    as (Hlog & _ & _ & _ & Hgate & Hstall).
  split; [exact Hlog|]. split; [exact Hgate|]. exact Hstall.
Defined.

(** C4 on the code: the bubble that pads the first line takes the second
    of the two issue slots, so the call stops with one instruction issued
    and reports two; the instruction that heads the next line was ready,
    the next call issues it. *)
Theorem issue_bubble_takes_issue_slot :
  let s := Demo.two_lines_state in
  let out := issue false s in
  Execute.issueLimit s = 2 /\
  Execute.processMoreThanOneInput s = true /\
  fst out = 2 /\
  Execute.inFlightInsts (snd out) = [Ptr 1] /\
  Execute.inputBuffer (snd out) = [[Ptr 2; BubblePtr]] /\
  Execute.inputIndex (snd out) = 0 /\
  Execute.inFlightInsts (snd (issue false (snd out))) = [Ptr 1; Ptr 2].
Proof. vm_compute. repeat split; reflexivity. Qed.

Lemma issue_marks_destinations_busy_witness :
  let s := Demo.slow_state in
  let out := issue_to_fus 2 (Ptr 1) 0 s in
  (out = (1, true, false, snd out) /\ isNoCostInst s (Ptr 1) = false) /\
  (exists k fu, 1 = uint_inc k /\ marked_busy (Ptr 1) k fu s (snd out)) /\
  Execute.curCycle s = 10 /\
  Execute.scoreboard (snd out) = [(Ptr 1, 16)].
Proof.
  assert (Hrun : issue_to_fus 2 (Ptr 1) 0 Demo.slow_state =
                 (1, true, false,
                  snd (issue_to_fus 2 (Ptr 1) 0 Demo.slow_state)))
    by (vm_compute; reflexivity).
  assert (Hnc : isNoCostInst Demo.slow_state (Ptr 1) = false)
    by (vm_compute; reflexivity).
  split; [split; [exact Hrun|exact Hnc]|].
  split; [exact (issue_marks_destinations_busy _ _ _ _ _ _ _ Hrun Hnc)|].
  split; vm_compute; reflexivity.
Defined.




Lemma drain_state_machine_witness :
  match evaluate 4 [] BranchData_bubble Demo.draining_engine with
  | Done (b, s') =>
      Execute.drainState Demo.draining_engine = DrainCurrentInst /\
      rtc drain_step DrainCurrentInst (Execute.drainState s') /\
      Execute.drainState s' <> DrainHaltFetch /\
      (isDrained s' = true <->
       Execute.drainState s' = DrainAllInsts /\
       Execute.inputBuffer s' = [] /\
       Execute.inFlightInsts s' = [] /\
       lsq_isDrained (World.lsq (Execute.world s')) = true)
  | _ => False
  end.
Proof.
  destruct drain_state_machine as (_ & Heval & _ & Hdrained).
  destruct (evaluate 4 [] BranchData_bubble Demo.draining_engine)
    as [[b s']| |] eqn:E.
  - destruct (Heval 4%nat [] BranchData_bubble Demo.draining_engine b s' E)
      as (Hsteps & _ & Hne).
    split; [reflexivity|]. split; [exact Hsteps|].
    split; [exact Hne|]. apply Hdrained.
  - vm_compute in E. discriminate.
  - vm_compute in E. discriminate.
Defined.

(** C8 on the code.  The constructor lets through the legal
    configurations and, besides them, those whose memory commit limit is
    below 1 and which are legal otherwise: with a memory commit limit of 0
    the engine is built, and no memory response is ever handled by
    [commit], the load stays at the head of the in-flight queue; and the
    configuration without an issue slot is refused with the message of
    the commit limit. *)
Theorem Execute_new_accepts_zero_memory_commit_limit :
  (forall `{IsaTypes} `{!Collaborators} p fus sb w c t,
     is_done (Execute_new p fus sb w c t) =
     legal_configuration p ||
     (Params.executeMemoryCommitLimit p <? 1) &&
     (1 <=? Params.executeCommitLimit p) &&
     (1 <=? Params.executeIssueLimit p) &&
     (1 <=? Params.executeMemoryIssueLimit p) &&
     (1 <=? Params.executeInputBufferSize p)) /\
  legal_configuration Demo.no_memory_commit_params = false /\
  Execute_new Demo.no_memory_commit_params [Demo.unit0; Demo.unit0] []
    Demo.world0 10 5000 =
    Done (Demo.engine_with Demo.no_memory_commit_params) /\
  (let s := Demo.starved_state in
   match commit 5 false false BranchData_bubble s with
   | Done (b, s') =>
       lsq_findResponse (World.lsq (Execute.world s)) (Ptr 1) =
         Some Demo.faulting_response /\
       Execute.inFlightInsts s' = [Ptr 1] /\
       World.lsq (Execute.world s') = World.lsq (Execute.world s) /\
       Execute.log s' = []
   | _ => False
   end) /\
  Execute_new Demo.no_issue_params [Demo.unit0; Demo.unit0] []
    Demo.world0 10 5000 =
    Fatal "%s: executeCommitLimit must be >= 1 (%d)\n".
Proof.
  split; [intros; apply Execute_new_checks|].
  vm_compute. repeat split; reflexivity.
Qed.

End Witnesses.
(** * Properties of the helpers *)

Section CyclicIndex.

Lemma wrap32_small z : 0 <= z < 2 ^ 32 -> wrap32 z = z.
Proof. intros Hz. unfold wrap32. apply Z.mod_small. exact Hz. Qed.

Lemma to_int32_small z : 0 <= z < 2 ^ 31 -> to_int32 z = z.
Proof.
  intros Hz. unfold to_int32. rewrite wrap32_small by lia.
  destruct (Z.ltb_spec z (2 ^ 31)); [reflexivity|lia].
Qed.

Lemma to_int32_large z : 2 ^ 31 <= z < 2 ^ 32 -> to_int32 z = z - 2 ^ 32.
Proof.
  intros Hz. unfold to_int32. rewrite wrap32_small by lia.
  destruct (Z.ltb_spec z (2 ^ 31)); [lia|reflexivity].
Qed.

Lemma wrap32_neg z : - 2 ^ 32 <= z < 0 -> wrap32 z = z + 2 ^ 32.
Proof.
  intros Hz. unfold wrap32.
  symmetry. apply Z.mod_unique with (q := -1); lia.
Qed.

Lemma cyclicIndex_mod index cycle_size :
  0 < cycle_size <= 2 ^ 31 + 1 ->
  0 <= index < cycle_size ->
  cyclicIndexInc index cycle_size = (index + 1) mod cycle_size /\
  cyclicIndexDec index cycle_size = (index - 1) mod cycle_size.
Proof.
  intros Hn Hi. split.
  - unfold cyclicIndexInc. rewrite wrap32_small by lia.
    destruct (Z.eqb_spec (index + 1) cycle_size) as [->|Hne].
    + symmetry. apply Z.mod_same. lia.
    + symmetry. apply Z.mod_small. lia.
  - unfold cyclicIndexDec.
    destruct (Z.eq_dec index 0) as [->|Hpos].
    + change (to_int32 (0 - 1)) with (-1). cbn [Z.ltb Z.compare].
      replace ((0 - 1) mod cycle_size) with (cycle_size - 1)
        by (apply Z.mod_unique with (q := -1); lia).
      destruct (Z.eq_dec (cycle_size - 1) (2 ^ 31)) as [He|He].
      * rewrite He. reflexivity.
      * rewrite to_int32_small by lia. apply wrap32_small. lia.
    + rewrite to_int32_small by lia.
      destruct (Z.ltb_spec (index - 1) 0); [lia|].
      rewrite wrap32_small by lia.
      symmetry. apply Z.mod_small. lia.
Qed.

(** X1.  On the indices of a buffer of at most 2^31 + 1 slots,
    [cyclicIndexInc] is the successor and [cyclicIndexDec] the
    predecessor modulo the size of the buffer. *)
Theorem cyclicIndex_modular index cycle_size :
  0 < cycle_size <= 2 ^ 31 + 1 ->
  0 <= index < cycle_size ->
  cyclicIndexInc index cycle_size = (index + 1) mod cycle_size /\
  cyclicIndexDec index cycle_size = (index - 1) mod cycle_size.
Proof. exact (cyclicIndex_mod index cycle_size). Qed.

(** X2.  Decrementing undoes incrementing, and the other way round. *)
Theorem cyclicIndex_round_trip index cycle_size :
  0 < cycle_size <= 2 ^ 31 + 1 ->
  0 <= index < cycle_size ->
  cyclicIndexDec (cyclicIndexInc index cycle_size) cycle_size = index /\
  cyclicIndexInc (cyclicIndexDec index cycle_size) cycle_size = index.
Proof.
  intros Hn Hi.
  assert (Hinc : 0 <= (index + 1) mod cycle_size < cycle_size)
    by (apply Z.mod_pos_bound; lia).
  assert (Hdec : 0 <= (index - 1) mod cycle_size < cycle_size)
    by (apply Z.mod_pos_bound; lia).
  destruct (cyclicIndex_mod index cycle_size Hn Hi) as [Ei Ed].
  split.
  - rewrite Ei.
    destruct (cyclicIndex_mod _ cycle_size Hn Hinc) as [_ ->].
    rewrite Zminus_mod_idemp_l.
    replace (index + 1 - 1) with index by lia. apply Z.mod_small. lia.
  - rewrite Ed.
    destruct (cyclicIndex_mod _ cycle_size Hn Hdec) as [-> _].
    rewrite Zplus_mod_idemp_l.
    replace (index - 1 + 1) with index by lia. apply Z.mod_small. lia.
Qed.

(** X3.  Outside these bounds the two functions do not step through the
    buffer: an index at or past the size is incremented without being
    brought back, and an index above 2^31 is decremented to the last
    slot, whatever the index was; so in a buffer of more than 2^31 + 1
    slots the decrement of slot 2^31 + 1 is not slot 2^31. *)
Theorem cyclicIndex_out_of_range index cycle_size :
  0 <= cycle_size < 2 ^ 32 ->
  (cycle_size <= index < 2 ^ 32 - 1 ->
   cyclicIndexInc index cycle_size = index + 1) /\
  (2 ^ 31 < index < 2 ^ 32 ->
   cyclicIndexDec index cycle_size = wrap32 (cycle_size - 1)) /\
  (2 ^ 31 + 1 < cycle_size ->
   cyclicIndexDec (2 ^ 31 + 1) cycle_size = cycle_size - 1).
Proof.
  intros Hn.
  assert (Hdec : forall i, 2 ^ 31 < i < 2 ^ 32 ->
            cyclicIndexDec i cycle_size = wrap32 (cycle_size - 1)).
  { intros i Hi. unfold cyclicIndexDec.
    rewrite (to_int32_large (i - 1)) by lia.
    destruct (Z.ltb_spec (i - 1 - 2 ^ 32) 0); [|lia].
    destruct (Z.eq_dec cycle_size 0) as [->|Hz]; [reflexivity|].
    destruct (Z.lt_ge_cases (cycle_size - 1) (2 ^ 31)).
    - rewrite to_int32_small by lia. reflexivity.
    - rewrite to_int32_large by lia. rewrite wrap32_neg by lia.
      rewrite wrap32_small by lia. lia. }
  split; [|split].
  - intros Hi. unfold cyclicIndexInc. rewrite wrap32_small by lia.
    destruct (Z.eqb_spec (index + 1) cycle_size); [lia|reflexivity].
  - apply Hdec.
  - intros Hbig. rewrite Hdec by lia. apply wrap32_small. lia.
Qed.

End CyclicIndex.

Section Registers.

Lemma fold_dest_flag (isSlave : Z -> bool) regs acc :
  fold_left
    (fun acc reg => if isSlave reg && (reg <? 32) then true else acc)
    regs acc =
  acc || existsb (fun reg => isSlave reg && (reg <? 32)) regs.
Proof.
  revert acc. induction regs as [|r regs IH]; intros acc; simpl.
  - rewrite orb_false_r. reflexivity.
  - rewrite IH. destruct (isSlave r && (r <? 32)), acc; reflexivity.
Qed.

Lemma fold_src_flags (isMaster : Z -> bool) regs m z :
  fold_left
    (fun '(m, z) reg =>
       (if isMaster reg && ((reg <? 32) || (reg =? Aarch64.SP))
        then true else m,
        if reg =? Aarch64.XZR then true else z))
    regs (m, z) =
  (m || existsb (fun reg => isMaster reg &&
                            ((reg <? 32) || (reg =? Aarch64.SP))) regs,
   z || existsb (fun reg => reg =? Aarch64.XZR) regs).
Proof.
  revert m z. induction regs as [|r regs IH]; intros m z; simpl.
  - rewrite !orb_false_r. reflexivity.
  - rewrite IH.
    destruct (isMaster r && ((r <? 32) || (r =? Aarch64.SP))),
      (r =? Aarch64.XZR), m, z; reflexivity.
Qed.

Lemma ZDC_master_in_range reg :
  isZDCMasterReg reg = true -> 0 <= reg < 31 \/ reg = Aarch64.SP.
Proof.
  unfold isZDCMasterReg, Aarch64.X0, Aarch64.X1, Aarch64.X2, Aarch64.X3,
    Aarch64.X4, Aarch64.X5, Aarch64.X19, Aarch64.X20, Aarch64.X23,
    Aarch64.X24, Aarch64.X28, Aarch64.X29, Aarch64.X30, Aarch64.SP.
  rewrite !orb_true_iff, !Z.eqb_eq. lia.
Qed.

Lemma SWIFT_master_is_ZDC_master reg :
  isSWIFTMasterReg reg = true -> isZDCMasterReg reg = true.
Proof.
  unfold isSWIFTMasterReg, isZDCMasterReg.
  rewrite !orb_true_iff. tauto.
Qed.

(** X4.  The registers the two schemes protect: a master register of either
    scheme is one of X0..X30 or SP, never the zero register; every master
    register of SWIFT is a master register of ZDC, so every slave register
    of ZDC is a slave register of SWIFT; X3, X4, X5 and X28 are the
    registers on which the schemes differ. *)
Theorem master_registers reg :
  (isZDCMasterReg reg = true -> 0 <= reg < 31 \/ reg = Aarch64.SP) /\
  (isSWIFTMasterReg reg = true -> isZDCMasterReg reg = true) /\
  (isZDCSlaveReg reg = true -> isSWIFTSlaveReg reg = true) /\
  (isSWIFTMasterReg reg <> isZDCMasterReg reg <->
   reg = Aarch64.X3 \/ reg = Aarch64.X4 \/ reg = Aarch64.X5 \/
   reg = Aarch64.X28) /\
  isSWIFTSlaveReg Aarch64.XZR = true /\
  isZDCSlaveReg Aarch64.XZR = true.
Proof.
  unfold isZDCSlaveReg, isSWIFTSlaveReg, isZDCMasterReg, isSWIFTMasterReg,
    Aarch64.X0, Aarch64.X1, Aarch64.X2, Aarch64.X3, Aarch64.X4, Aarch64.X5,
    Aarch64.X19, Aarch64.X20, Aarch64.X23, Aarch64.X24, Aarch64.X28,
    Aarch64.X29, Aarch64.X30, Aarch64.SP, Aarch64.XZR.
  repeat match goal with
         | |- context [reg =? ?b] =>
             destruct (Z.eqb_spec reg b) as [->|?];
               [solve [cbn; intuition (try lia; try discriminate;
                                       try congruence)]|]
         end.
  cbn. intuition (try lia; try discriminate; try congruence).
Qed.

Lemma scan_registers_flags isSlave isMaster si f :
  scan_registers isSlave isMaster si f =
  if String.eqb (ru_name si) "sub" then
    {| desIsSlave :=
         desIsSlave f ||
         existsb (fun reg => isSlave reg && (reg <? 32)) (ru_destRegs si);
       srcIsMaster :=
         srcIsMaster f ||
         existsb (fun reg => isMaster reg &&
                             ((reg <? 32) || (reg =? Aarch64.SP)))
           (ru_srcRegs si);
       oneSrcIsZR :=
         oneSrcIsZR f ||
         existsb (fun reg => reg =? Aarch64.XZR) (ru_srcRegs si) |}
  else f.
Proof.
  unfold scan_registers. destruct (String.eqb _ _); [|reflexivity].
  rewrite fold_dest_flag, fold_src_flags. reflexivity.
Qed.

Lemma master_in_range (isMaster : Z -> bool) regs :
  (forall reg, isMaster reg = true -> 0 <= reg < 31 \/ reg = Aarch64.SP) ->
  existsb (fun reg => isMaster reg && ((reg <? 32) || (reg =? Aarch64.SP)))
    regs = existsb isMaster regs.
Proof.
  intros Hm. induction regs as [|r regs IH]; simpl; [reflexivity|].
  rewrite IH. f_equal.
  destruct (isMaster r) eqn:Er; [|reflexivity].
  destruct (Hm r Er) as [Hr| ->]; [|reflexivity].
  destruct (Z.ltb_spec r 32); [reflexivity|lia].
Qed.

(** X5.  [isUnnecessaryInst] flags exactly the instructions named [sub], in
    [main] or a [FUNC...] function, with [xzr] among their sources, with a
    destination below 32 that is a slave register of an enabled scheme and
    a source that is a master register of an enabled scheme (with both
    schemes enabled the destination and the source may come from different
    schemes).  So a flagged instruction has a destination and at least two
    sources, and with neither scheme enabled nothing is flagged. *)
Theorem isUnnecessaryInst_flags enableSWIFT enableZDC inMain si :
  (isUnnecessaryInst enableSWIFT enableZDC inMain si = true <->
   inMain = true /\
   ru_name si = "sub"%string /\
   In Aarch64.XZR (ru_srcRegs si) /\
   (exists d, In d (ru_destRegs si) /\ d < 32 /\
              (enableSWIFT = true /\ isSWIFTSlaveReg d = true \/
               enableZDC = true /\ isZDCSlaveReg d = true)) /\
   (exists r, In r (ru_srcRegs si) /\
              (enableSWIFT = true /\ isSWIFTMasterReg r = true \/
               enableZDC = true /\ isZDCMasterReg r = true))) /\
  (isUnnecessaryInst enableSWIFT enableZDC inMain si = true ->
   (1 <= length (ru_destRegs si))%nat /\
   (2 <= length (ru_srcRegs si))%nat) /\
  isUnnecessaryInst false false inMain si = false.
Proof.
  assert (Hiff : forall eS eZ,
    isUnnecessaryInst eS eZ inMain si = true <->
    inMain = true /\
    ru_name si = "sub"%string /\
    In Aarch64.XZR (ru_srcRegs si) /\
    (exists d, In d (ru_destRegs si) /\ d < 32 /\
               (eS = true /\ isSWIFTSlaveReg d = true \/
                eZ = true /\ isZDCSlaveReg d = true)) /\
    (exists r, In r (ru_srcRegs si) /\
               (eS = true /\ isSWIFTMasterReg r = true \/
                eZ = true /\ isZDCMasterReg r = true))).
  { clear enableSWIFT enableZDC. intros enableSWIFT enableZDC.
    assert (HS : forall reg, isSWIFTMasterReg reg = true ->
                               0 <= reg < 31 \/ reg = Aarch64.SP).
      { intros reg Hr. apply ZDC_master_in_range, SWIFT_master_is_ZDC_master, Hr. }
      assert (HZ : forall reg, isZDCMasterReg reg = true ->
                               0 <= reg < 31 \/ reg = Aarch64.SP)
        by (intros reg; apply ZDC_master_in_range).
      assert (Hbool :
        isUnnecessaryInst enableSWIFT enableZDC inMain si =
        inMain && String.eqb (ru_name si) "sub" &&
        (enableSWIFT &&
           existsb (fun reg => isSWIFTSlaveReg reg && (reg <? 32))
             (ru_destRegs si) ||
         enableZDC &&
           existsb (fun reg => isZDCSlaveReg reg && (reg <? 32))
             (ru_destRegs si)) &&
        (enableSWIFT && existsb isSWIFTMasterReg (ru_srcRegs si) ||
         enableZDC && existsb isZDCMasterReg (ru_srcRegs si)) &&
        ((enableSWIFT || enableZDC) &&
         existsb (fun reg => reg =? Aarch64.XZR) (ru_srcRegs si))).
      { unfold isUnnecessaryInst. rewrite !scan_registers_flags.
        rewrite <- (master_in_range isSWIFTMasterReg _ HS),
          <- (master_in_range isZDCMasterReg _ HZ).
        destruct enableSWIFT, enableZDC, inMain, (String.eqb _ _); cbn;
          repeat match goal with
                 | |- context [existsb ?f ?l] =>
                     let b := fresh "b" in
                     generalize (existsb f l); intros b
                 end;
          repeat match goal with b : bool |- _ => destruct b end;
          reflexivity. }
      rewrite Hbool. clear Hbool.
      rewrite !andb_true_iff, !orb_true_iff, !andb_true_iff.
      rewrite !existsb_exists, String.eqb_eq.
      split.
      - intros ((((Him & Hname) & Hd) & Hm) & (He & z & Hz & Ez)).
        apply Z.eqb_eq in Ez. subst z.
        repeat split; try assumption.
        + destruct Hd as [(E & d & Hd & Hs)|(E & d & Hd & Hs)];
            apply andb_true_iff in Hs; destruct Hs as [Hs Hlt];
            apply Z.ltb_lt in Hlt; exists d; auto.
        + destruct Hm as [(E & r & Hr & Hm)|(E & r & Hr & Hm)];
            exists r; auto.
      - intros (Him & Hname & Hz & (d & Hd & Hlt & Hs) & (r & Hr & Hm)).
        apply Z.ltb_lt in Hlt.
        repeat split; try assumption.
        + destruct Hs as [[E Hs]|[E Hs]]; [left|right];
            (split; [exact E|]); exists d; rewrite Hs, Hlt; auto.
        + destruct Hm as [[E Hm]|[E Hm]]; [left|right];
            (split; [exact E|]); exists r; auto.
        + destruct Hm as [[E _]|[E _]]; auto.
        + exists Aarch64.XZR. split; [exact Hz|reflexivity]. }
  split; [apply Hiff|]. split.
  - intros Hu. apply Hiff in Hu.
    destruct Hu as (_ & _ & Hz & (d & Hd & _) & (r & Hr & Hm)).
    split.
    + destruct (ru_destRegs si); [destruct Hd|simpl; lia].
    + assert (Hne : r <> Aarch64.XZR).
      { intros ->. destruct Hm as [[_ Hm]|[_ Hm]]; discriminate Hm. }
      destruct (ru_srcRegs si) as [|a [|b l]]; simpl in *;
        [destruct Hr| |lia].
      destruct Hr as [->|[]], Hz as [Ez|[]]. congruence.
  - destruct (isUnnecessaryInst false false inMain si) eqn:Hu;
      [|reflexivity].
    apply Hiff in Hu.
    destruct Hu as (_ & _ & _ & _ & (r & _ & [[E _]|[E _]]));
      discriminate E.
Qed.

End Registers.

(** * What commit keeps *)

Create HintDb keeps.

Section CommitKeeps.
Context `{IsaTypes} `{!Collaborators}.

Lemma ck_refl s : commit_keeps s s.
Proof.
  constructor; try reflexivity; try lia; exists []; reflexivity.
Qed.

Lemma ck_trans s0 s1 s2 :
  commit_keeps s0 s1 -> commit_keeps s1 s2 -> commit_keeps s0 s2.
Proof.
  intros [P1 C1 T1 B1 I1 F1 [k0 Q1] [m0 M1] N1 O1 D1 S1]
    [P2 C2 T2 B2 I2 F2 [k1 Q2] [m1 M2] N2 O2 D2 S2].
  constructor; try congruence; try lia.
  - exists (k0 ++ k1). rewrite Q1, Q2. apply app_assoc.
  - exists (m0 ++ m1). rewrite M1, M2. apply app_assoc.
Qed.

(** A step that touches none of the fields the relation reads. *)
Lemma ck_silent s s1 s2 :
  Execute.params s2 = Execute.params s1 ->
  Execute.curCycle s2 = Execute.curCycle s1 ->
  Execute.curTick s2 = Execute.curTick s1 ->
  Execute.inputBuffer s2 = Execute.inputBuffer s1 ->
  Execute.inputIndex s2 = Execute.inputIndex s1 ->
  Execute.funcUnits s2 = Execute.funcUnits s1 ->
  Execute.inFlightInsts s2 = Execute.inFlightInsts s1 ->
  Execute.inFUMemInsts s2 = Execute.inFUMemInsts s1 ->
  Execute.stats s2 = Execute.stats s1 ->
  commit_keeps s s1 -> commit_keeps s s2.
Proof.
  intros E1 E2 E3 E4 E5 E6 E7 E8 E9 [P C T B I F Q M N O D S].
  constructor; rewrite ?E1, ?E2, ?E3, ?E4, ?E5, ?E6, ?E7, ?E8, ?E9;
    assumption.
Qed.

Lemma ck_emit e s s1 : commit_keeps s s1 -> commit_keeps s (Execute.emit e s1).
Proof. apply ck_silent; reflexivity. Qed.

Lemma ck_upd_world f s s1 :
  commit_keeps s s1 -> commit_keeps s (Execute.upd_world f s1).
Proof. apply ck_silent; reflexivity. Qed.

Lemma ck_set_world w s s1 :
  commit_keeps s s1 -> commit_keeps s (Execute.set_world w s1).
Proof. apply ck_silent; reflexivity. Qed.

Lemma ck_upd_lsq f s s1 :
  commit_keeps s s1 -> commit_keeps s (Execute.upd_lsq f s1).
Proof. apply ck_silent; reflexivity. Qed.

Lemma ck_upd_inst p f s s1 :
  commit_keeps s s1 -> commit_keeps s (Execute.upd_inst p f s1).
Proof. destruct p; [auto|]. apply ck_silent; reflexivity. Qed.

Lemma ck_set_streamSeqNum n s s1 :
  commit_keeps s s1 -> commit_keeps s (Execute.set_streamSeqNum n s1).
Proof. apply ck_silent; reflexivity. Qed.

Lemma ck_set_lastPredictionSeqNum n s s1 :
  commit_keeps s s1 -> commit_keeps s (Execute.set_lastPredictionSeqNum n s1).
Proof. apply ck_silent; reflexivity. Qed.

Lemma ck_set_lastCommitWasEndOfMacroop b s s1 :
  commit_keeps s s1 ->
  commit_keeps s (Execute.set_lastCommitWasEndOfMacroop b s1).
Proof. apply ck_silent; reflexivity. Qed.

Lemma ck_set_scoreboard sb s s1 :
  commit_keeps s s1 -> commit_keeps s (Execute.set_scoreboard sb s1).
Proof. apply ck_silent; reflexivity. Qed.

Lemma ck_ExecContext_new inst s s1 :
  commit_keeps s s1 -> commit_keeps s (ExecContext_new inst s1).
Proof. apply ck_silent; reflexivity. Qed.

Lemma ck_if (b : bool) s s1 s2 :
  commit_keeps s s1 -> commit_keeps s s2 ->
  commit_keeps s (if b then s1 else s2).
Proof. destruct b; auto. Qed.

Lemma ck_pop_inFlightInsts s s1 :
  commit_keeps s s1 ->
  commit_keeps s
    (Execute.set_inFlightInsts (tail (Execute.inFlightInsts s1)) s1).
Proof.
  intros [P C T B I F [k E] M N O D S]. constructor; cbn; try assumption.
  destruct (Execute.inFlightInsts s1) as [|a l].
  - exists k. exact E.
  - exists (k ++ [a]). rewrite E, <- app_assoc. reflexivity.
Qed.

Lemma ck_pop_inFUMemInsts front rest s s1 :
  Execute.inFUMemInsts s1 = front :: rest ->
  commit_keeps s s1 ->
  commit_keeps s (Execute.set_inFUMemInsts rest s1).
Proof.
  intros Ef [P C T B I F Q [k E] N O D S].
  constructor; cbn; try assumption.
  exists (k ++ [front]). rewrite E, Ef, <- app_assoc. reflexivity.
Qed.

Lemma ck_count_discarded s s1 :
  commit_keeps s s1 ->
  commit_keeps s
    (Execute.upd_stats
       (fun st => Stats.set_numDiscardedOps (Stats.numDiscardedOps st + 1) st)
       s1).
Proof.
  intros [P C T B I F Q M N O D S]. constructor; cbn; try assumption; lia.
Qed.

Lemma ck_count_suspend s s1 :
  commit_keeps s s1 ->
  commit_keeps s
    (Execute.upd_stats
       (fun st =>
          Stats.set_numFetchSuspends (Stats.numFetchSuspends st + 1) st) s1).
Proof.
  intros [P C T B I F Q M N O D S]. constructor; cbn; try assumption; lia.
Qed.

Lemma ck_doInstCommitAccounting inst s s1 :
  commit_keeps s s1 -> commit_keeps s (doInstCommitAccounting inst s1).
Proof.
  intros [P C T B I F Q M N O D S]. unfold doInstCommitAccounting.
  destruct (_ || _); constructor; cbn; try assumption; lia.
Qed.

Lemma map_pipe_alter_stalled (l : list FUPipeline.t) n b :
  map FUPipeline.pipe (alter (FUPipeline.set_stalled b) n l) =
  map FUPipeline.pipe l.
Proof.
  revert n. induction l as [|fu l IH]; intros n; [reflexivity|].
  destruct n; simpl; [reflexivity|]. f_equal. apply IH.
Qed.

Lemma ck_unstall index s s1 :
  commit_keeps s s1 -> commit_keeps s (unstall index s1).
Proof.
  intros Hk. unfold unstall. destruct (index <? 0); [exact Hk|].
  destruct Hk as [P C T B I F Q M N O D S].
  constructor; cbn; try assumption.
  rewrite map_pipe_alter_stalled. assumption.
Qed.

End CommitKeeps.

#[local] Hint Resolve ck_refl ck_emit ck_upd_world ck_set_world ck_upd_lsq
  ck_upd_inst ck_set_streamSeqNum ck_set_lastPredictionSeqNum
  ck_set_lastCommitWasEndOfMacroop ck_set_scoreboard ck_ExecContext_new
  ck_if ck_pop_inFlightInsts ck_count_discarded ck_count_suspend
  ck_doInstCommitAccounting ck_unstall : keeps.

Section CommitKeepsCalls.
Context `{IsaTypes} `{!Collaborators}.

Lemma ck_invokeFault f tid si s s1 :
  commit_keeps s s1 -> commit_keeps s (invokeFault f tid si s1).
Proof. intros. unfold invokeFault. auto with keeps. Qed.

Lemma ck_updateBranchData reason inst target branch s s1 :
  commit_keeps s s1 ->
  commit_keeps s (snd (updateBranchData reason inst target branch s1)).
Proof.
  intros. unfold updateBranchData.
  destruct (bool_decide (reason <> NoBranch)); simpl; [|assumption].
  destruct (Reason_isStreamChange reason); auto with keeps.
Qed.

Lemma ck_advance_target inst fault s s1 :
  commit_keeps s s1 ->
  commit_keeps s (snd (advance_target inst fault s1)).
Proof.
  intros. unfold advance_target.
  destruct (isNoFault fault); simpl; [|assumption].
  auto 10 with keeps.
Qed.

Lemma ck_tryToBranch inst fault branch s s1 :
  commit_keeps s s1 ->
  commit_keeps s (snd (tryToBranch inst fault branch s1)).
Proof.
  intros. rewrite tryToBranch_unfold.
  apply ck_updateBranchData, ck_advance_target. assumption.
Qed.

Lemma ck_executeMemRefInst inst fault s s1 :
  commit_keeps s s1 ->
  commit_keeps s (snd (executeMemRefInst inst fault s1)).
Proof.
  intros Hs. unfold executeMemRefInst.
  destruct (negb (lsq_canRequest (World.lsq (Execute.world s1))));
    [exact Hs|].
  destruct (isa_initiateAcc _ _ _) as [init_fault w].
  destruct init_fault; simpl; [auto 10 with keeps|].
  destruct (negb _); simpl; auto 10 with keeps.
Qed.

End CommitKeepsCalls.

#[local] Hint Resolve ck_invokeFault : keeps.

Ltac keeps_via lem call :=
  match goal with
  | |- commit_keeps ?s _ =>
      let Hx := fresh "Hk" in
      assert (Hx : commit_keeps s (snd call))
        by (apply lem; auto 10 with keeps);
      destruct call as [? ?]; simpl in Hx
  end.

Ltac keeps_call :=
  match goal with
  | |- context [tryToBranch ?i ?f ?b ?s0] =>
      keeps_via ck_tryToBranch (tryToBranch i f b s0)
  | |- context [updateBranchData ?r ?i ?t ?b ?s0] =>
      keeps_via ck_updateBranchData (updateBranchData r i t b s0)
  | |- context [executeMemRefInst ?i ?f ?s0] =>
      keeps_via ck_executeMemRefInst (executeMemRefInst i f s0)
  end.

Ltac keeps_crush :=
  repeat first
    [ assumption
    | progress simpl
    | keeps_call
    | progress split_pairs
    | match goal with
      | |- context [if ?b then _ else _] => destruct b
      | |- context [match ?x with _ => _ end] =>
          lazymatch type of x with
          | (_ * Execute.t)%type => fail
          | _ => destruct x
          end
      end ];
  auto 12 with keeps.

Section CommitKeepsLoop.
Context `{IsaTypes} `{!Collaborators}.

Lemma ck_commitInst inst early branch committed cmi s s1 :
  commit_keeps s s1 ->
  commit_keeps s (snd (commitInst inst early branch committed cmi s1)).
Proof. intros Hs. unfold commitInst. keeps_crush. Qed.

Lemma ck_handleMemResponse inst response branch fault s b f s' :
  handleMemResponse inst response branch fault s = Done (b, f, s') ->
  commit_keeps s s'.
Proof.
  unfold handleMemResponse.
  set (s0 := ExecContext_new inst s).
  assert (Hs0 : commit_keeps s s0) by (subst s0; auto with keeps).
  clearbody s0.
  match goal with
  | |- obind ?x _ = _ -> _ =>
      assert (Hx : match x with
                   | Done (_, s1) => commit_keeps s s1
                   | _ => True
                   end);
      [|destruct x as [[f1 s1]| |]; cbn [obind]; try discriminate]
  end.
  { destruct (LSQRequest.fault response).
    - destruct (MinorDynInst.sflag _ _); auto with keeps.
    - destruct (LSQRequest.packet response); [|exact Hs0].
      destruct (Packet_isError _); [exact I|].
      destruct (_ || _ || _); [|exact I].
      destruct (isa_completeAcc _ _ _ _) as [cf w].
      destruct cf; [auto 10 with keeps|].
      destruct (LSQRequest.needsToBeSentToStoreBuffer _);
        auto 10 with keeps. }
  pose proof (ck_tryToBranch inst f1 branch s
                (doInstCommitAccounting inst
                   (Execute.emit (EvPopResponse inst)
                      (Execute.upd_lsq (lsq_popResponse response) s1))))
    as Hf.
  destruct (tryToBranch _ _ _ _) as [b1 s4]. simpl in Hf.
  intros [= _ _ <-]. apply Hf. auto 10 with keeps.
Qed.

Lemma ck_fold_extra_commit_delay inst s s1 :
  commit_keeps s s1 -> commit_keeps s (fold_extra_commit_delay inst s1).
Proof.
  intros Hs. unfold fold_extra_commit_delay.
  destruct (MinorDynInst.extraCommitDelayExpr _).
  - destruct (_ <? 128); destruct (negb _); auto 10 with keeps.
  - destruct (negb _); auto 10 with keeps.
Qed.

Lemma ck_commit_try discard now inst early branch fault s :
  commit_keeps s
    (snd (commit_try discard now inst early branch fault s)).
Proof.
  unfold commit_try.
  match goal with
  | |- context [let '(r, s1) := ?x in _] =>
      assert (Hx : commit_keeps s (snd x)); [|destruct x as [r s1]]
  end.
  { destruct (negb _); [|apply ck_refl].
    destruct (_ && _ && _ && _); [apply ck_fold_extra_commit_delay, ck_refl|].
    destruct (now <? _); [apply ck_fold_extra_commit_delay, ck_refl|].
    apply ck_commitInst, ck_fold_extra_commit_delay, ck_refl. }
  simpl in Hx. cbn [snd].
  destruct (ci_completed_inst r); [|exact Hx].
  destruct (negb _); auto with keeps.
Qed.

Lemma ck_commit_from_fus discard now can head v s :
  commit_keeps s (snd (commit_from_fus discard now can head v s)).
Proof.
  unfold commit_from_fus. destruct can; [|apply ck_refl].
  destruct (commit_candidate head s) as [[[inst try] early] c].
  destruct try; [|apply ck_refl].
  pose proof (ck_commit_try discard now inst early (cv_branch v)
                (cv_fault v) s) as Hd.
  destruct (commit_try _ _ _ _ _ _ _) as [[d r] s1]. exact Hd.
Qed.

Lemma ck_tryPCEvents_loop fuel n s :
  commit_keeps s (snd (tryPCEvents_loop fuel n s)).
Proof.
  revert n s. induction fuel as [|fuel IH]; intros n s; simpl.
  - destruct (_ =? _); simpl; auto with keeps.
  - destruct (_ =? _); simpl; [auto with keeps|].
    eapply ck_trans; [|apply IH]. auto with keeps.
Qed.

Lemma ck_tryPCEvents s : commit_keeps s (snd (tryPCEvents s)).
Proof.
  unfold tryPCEvents.
  pose proof (ck_tryPCEvents_loop (pcEventBudget (Execute.world s)) 0 s)
    as Hk.
  destruct (tryPCEvents_loop _ _ _). exact Hk.
Qed.

Lemma ck_commit_attempt ocm discard now v s it0 s1 :
  commit_attempt ocm discard now v s = Done (it0, s1) ->
  commit_keeps s s1.
Proof.
  unfold commit_attempt.
  assert (Hk : commit_keeps s
                 (snd (if isInbetweenInsts s then tryPCEvents s
                       else (false, s))))
    by (destruct (isInbetweenInsts s); [apply ck_tryPCEvents|apply ck_refl]).
  destruct (if isInbetweenInsts s then tryPCEvents s else (false, s))
    as [pc s0]. simpl in Hk.
  destruct pc.
  { pose proof (ck_updateBranchData UnpredictedBranch BubblePtr
                  (ThreadContext.pcState (getContext s0 0)) (cv_branch v)
                  s s0 Hk) as Hd.
    destruct (updateBranchData _ _ _ _ _). intros [= _ <-]. exact Hd. }
  assert (Hfus : forall can,
            Done (commit_from_fus discard now can
                    (hd BubblePtr (Execute.inFlightInsts s)) v s0) =
            Done (it0, s1) ->
            commit_keeps s s1).
  { intros can Hc. apply Done_inj in Hc.
    pose proof (ck_commit_from_fus discard now can
                  (hd BubblePtr (Execute.inFlightInsts s)) v s0) as Hd.
    rewrite Hc in Hd. simpl in Hd. eapply ck_trans; eassumption. }
  destruct (if MinorDynInst.inLSQ _ then _ else None) as [response|];
    [|apply Hfus].
  destruct (_ <? _); [|apply Hfus].
  destruct (_ || _).
  - intros [= _ <-]. auto with keeps.
  - destruct (handleMemResponse _ _ _ _ _) as [[[b f] s2]| |] eqn:Hh;
      simpl; try discriminate.
    intros [= _ <-]. eapply ck_trans; [exact Hk|].
    eapply ck_handleMemResponse. eassumption.
Qed.

Lemma ck_commit_finish it0 s1 :
  commit_keeps s1 (snd (commit_finish it0 s1)).
Proof.
  unfold commit_finish. cbn [snd].
  set (sa := if it_discard_inst it0 && _ then _ else s1).
  assert (Ha : commit_keeps s1 sa)
    by (subst sa; destruct (_ && _); auto with keeps).
  clearbody sa.
  set (sb := if it_issued_mem_ref it0 then _ else sa).
  assert (Hb : commit_keeps s1 sb)
    by (subst sb; destruct (it_issued_mem_ref it0); auto with keeps).
  clearbody sb. clear Ha sa.
  set (sc := if _ && isMemRef sb _ then _ else sb).
  assert (Hc : commit_keeps s1 sc).
  { subst sc. destruct (_ && _); [|exact Hb].
    destruct (Execute.inFUMemInsts sb) as [|front rest] eqn:Ef; [exact Hb|].
    destruct (InstPtr_eqb front _); [|exact Hb].
    eapply ck_pop_inFUMemInsts; eassumption. }
  clearbody sc. clear Hb sb.
  destruct (_ && negb _); [|exact Hc].
  apply ck_emit, ck_set_scoreboard.
  destruct (_ && _); auto 10 with keeps.
Qed.

Lemma ck_commit_iteration ocm discard now v s it s' :
  commit_iteration ocm discard now v s = Done (it, s') ->
  commit_keeps s s'.
Proof.
  unfold commit_iteration.
  destruct (commit_attempt ocm discard now v s) as [[it0 s1]| |] eqn:Ha;
    cbn [obind fst snd]; try discriminate.
  intros Hfin. apply Done_inj in Hfin.
  pose proof (ck_commit_finish it0 s1) as Hd. rewrite Hfin in Hd.
  simpl in Hd. eapply ck_trans; [|exact Hd].
  eapply ck_commit_attempt. eassumption.
Qed.

Lemma ck_commit_loop fuel ocm discard now v s v' s' :
  commit_loop fuel ocm discard now v s = Done (v', s') ->
  commit_keeps s s'.
Proof.
  revert v s. induction fuel as [|fuel IH]; intros v s; simpl.
  - destruct (commit_continues v s); [discriminate|].
    intros [= _ <-]. apply ck_refl.
  - destruct (commit_continues v s); [|intros [= _ <-]; apply ck_refl].
    destruct (commit_iteration ocm discard now v s) as [[it s1]| |] eqn:Hi;
      cbn [obind fst snd]; try discriminate.
    intros Hl. eapply ck_trans; [|eapply IH; exact Hl].
    eapply ck_commit_iteration. eassumption.
Qed.

Lemma ck_commit fuel ocm discard branch s b s' :
  commit fuel ocm discard branch s = Done (b, s') ->
  commit_keeps s s'.
Proof.
  unfold commit.
  destruct (commit_loop _ _ _ _ _ _) as [[v1 s1]| |] eqn:Hl;
    cbn [obind fst snd]; try discriminate.
  intros [= _ <-]. eapply ck_commit_loop. eassumption.
Qed.

End CommitKeepsLoop.

Section CommitInvariants.
Context `{IsaTypes} `{!Collaborators}.

(** X6.  A call of [commit] that returns has only retired: the in-flight queue
    and the queue of memory instructions in the functional units are what
    they were less some instructions at their heads, nothing was pushed
    into a functional unit, and the input buffer, its index and the
    configuration are untouched. *)
Theorem commit_only_retires fuel only_commit_microops discard branch s b s' :
  commit fuel only_commit_microops discard branch s = Done (b, s') ->
  (exists k, Execute.inFlightInsts s = k ++ Execute.inFlightInsts s') /\
  (exists k, Execute.inFUMemInsts s = k ++ Execute.inFUMemInsts s') /\
  map FUPipeline.pipe (Execute.funcUnits s') =
    map FUPipeline.pipe (Execute.funcUnits s) /\
  Execute.inputBuffer s' = Execute.inputBuffer s /\
  Execute.inputIndex s' = Execute.inputIndex s /\
  Execute.params s' = Execute.params s.
Proof.
  intros Hc. apply ck_commit in Hc.
  destruct Hc as [P C T B I F Q M N O D S]. auto 10.
Qed.

(** X7.  Over a call of [commit] no counter goes down, and the count of
    instructions grows by no more than the count of operations. *)
Theorem commit_counts_up fuel only_commit_microops discard branch s b s' :
  commit fuel only_commit_microops discard branch s = Done (b, s') ->
  0 <= Stats.numInsts (Execute.stats s') - Stats.numInsts (Execute.stats s)
    <= Stats.numOps (Execute.stats s') - Stats.numOps (Execute.stats s) /\
  Stats.numDiscardedOps (Execute.stats s) <=
    Stats.numDiscardedOps (Execute.stats s') /\
  Stats.numFetchSuspends (Execute.stats s) <=
    Stats.numFetchSuspends (Execute.stats s').
Proof.
  intros Hc. apply ck_commit in Hc.
  destruct Hc as [P C T B I F Q M N O D S]. lia.
Qed.

(** X8.  With nothing in flight, or with a change of stream already on the
    output wire, [commit] returns at once, whatever the fuel, and changes
    nothing. *)
Theorem commit_nothing_to_do fuel only_commit_microops discard branch s :
  Execute.inFlightInsts s = [] \/ BranchData.isStreamChange branch = true ->
  commit fuel only_commit_microops discard branch s = Done (branch, s).
Proof.
  intros Hn. unfold commit.
  assert (Hstop : commit_continues (commit_entry branch) s = false).
  { unfold commit_continues. destruct Hn as [-> | Hb].
    - reflexivity.
    - cbn [commit_entry cv_branch]. rewrite Hb.
      rewrite andb_false_r. reflexivity. }
  destruct fuel; simpl; rewrite Hstop; reflexivity.
Qed.

End CommitInvariants.

(** * What issue keeps *)

Section IssueKeeps.
Context `{IsaTypes} `{!Collaborators}.

Lemma ik_refl s : issue_keeps s s.
Proof.
  constructor; try reflexivity; exists []; rewrite ?app_nil_r; reflexivity.
Qed.

Lemma ik_trans s0 s1 s2 :
  issue_keeps s0 s1 -> issue_keeps s1 s2 -> issue_keeps s0 s2.
Proof.
  intros [P1 C1 T1 S1 L1 E1 St1 Th1 F1 [k0 Q1] [m0 M1] [b0 B1] A1]
    [P2 C2 T2 S2 L2 E2 St2 Th2 F2 [k1 Q2] [m1 M2] [b1 B2] A2].
  constructor; try congruence.
  - exists (k0 ++ k1). rewrite Q2, Q1. symmetry. apply app_assoc.
  - exists (m0 ++ m1). rewrite M2, M1. symmetry. apply app_assoc.
  - exists (b0 ++ b1). rewrite B1, B2. apply app_assoc.
Qed.

Ltac ik_leaf :=
  constructor; cbn;
  first [ reflexivity
        | exists []; rewrite ?app_nil_r; reflexivity
        | eexists; reflexivity
        | apply length_alter ].

Lemma ik_issue_try_fu inst fu_index s :
  issue_keeps s (snd (issue_try_fu inst fu_index s)).
Proof.
  unfold issue_try_fu.
  destruct (isNoCostInst s inst); [destruct inst; ik_leaf|].
  destruct (funcUnit s fu_index) as [fu|]; [|apply ik_refl].
  repeat match goal with
         | |- context [if ?b then _ else _] => destruct b
         end;
    first [apply ik_refl | destruct inst; ik_leaf].
Qed.

Lemma ik_issue_to_fus fuel inst fu_index s :
  issue_keeps s (snd (issue_to_fus fuel inst fu_index s)).
Proof.
  revert fu_index s. induction fuel as [|fuel IH]; intros fu_index s; simpl.
  - pose proof (ik_issue_try_fu inst fu_index s) as Hd.
    destruct (issue_try_fu inst fu_index s) as [[[fi issued] mem] s1].
    destruct (_ && _); exact Hd.
  - pose proof (ik_issue_try_fu inst fu_index s) as Hd.
    destruct (issue_try_fu inst fu_index s) as [[[fi issued] mem] s1].
    simpl in Hd.
    destruct (_ && _); [|exact Hd].
    eapply ik_trans; [exact Hd|apply IH].
Qed.

Lemma ik_popInput s : issue_keeps s (popInput s).
Proof.
  constructor; cbn;
    first [ reflexivity | exists []; rewrite ?app_nil_r; reflexivity | idtac ].
  destruct (Execute.inputBuffer s) as [|a l].
  - exists []. reflexivity.
  - exists [a]. reflexivity.
Qed.

Lemma ik_issue_iteration only_issue_microops insts_in v s :
  issue_keeps s (snd (issue_iteration only_issue_microops insts_in v s)).
Proof.
  unfold issue_iteration.
  set (inst := inst_at insts_in (Execute.inputIndex s)).
  remember (if isBubble inst then _ else _) as x eqn:Ex.
  assert (Hx : issue_keeps s (snd x));
    [subst x|
     clear Ex;
     destruct x as [[[[fu_index issued] discarded] issued_mem_ref] s1]].
  { destruct (isBubble inst); [apply ik_refl|].
    destruct (bool_decide _); [apply ik_refl|].
    destruct (negb _); [apply ik_refl|].
    destruct (_ && _ && _); [apply ik_refl|].
    pose proof (ik_issue_to_fus (length (Execute.funcUnits s)) inst 0 s)
      as Hd.
    destruct (issue_to_fus _ _ 0 s) as [[[fi issued] mem] s1]. exact Hd. }
  simpl in Hx.
  remember (if issued then _ else _) as y eqn:Ey.
  assert (Hy : issue_keeps s (snd y));
    [subst y|clear Ey; destruct y as [v1 s2]].
  { destruct issued; [|exact Hx]. cbn [snd].
    eapply ik_trans; [exact Hx|].
    destruct (_ && _ && _); ik_leaf. }
  simpl in Hy.
  destruct (_ =? _); [|exact Hy].
  cbn [snd]. eapply ik_trans; [exact Hy|apply ik_popInput].
Qed.

Lemma ik_issue_loop fuel only_issue_microops insts_in v s :
  issue_keeps s (snd (issue_loop fuel only_issue_microops insts_in v s)).
Proof.
  revert insts_in v s.
  induction fuel as [|fuel IH]; intros insts_in v s; simpl.
  - pose proof (ik_issue_iteration only_issue_microops insts_in v s) as Hd.
    destruct (issue_iteration _ _ _ _) as [v1 s1].
    destruct (issue_continues v1 s1); exact Hd.
  - pose proof (ik_issue_iteration only_issue_microops insts_in v s) as Hd.
    destruct (issue_iteration _ _ _ _) as [v1 s1]. simpl in Hd.
    destruct (issue_continues v1 s1); [|exact Hd].
    destruct (iv_insts_in v1); [|exact Hd].
    eapply ik_trans; [exact Hd|apply IH].
Qed.

Lemma ik_issue only_issue_microops s :
  issue_keeps s (snd (issue only_issue_microops s)).
Proof.
  unfold issue. destruct (getInput s) as [insts_in|]; [|apply ik_refl].
  pose proof (ik_issue_loop (issue_fuel s) only_issue_microops insts_in
                {| iv_insts_in := Some insts_in; iv_fu_index := 0;
                   iv_issued := true; iv_num_insts_issued := 0;
                   iv_num_mem_insts_issued := 0;
                   iv_num_insts_discarded := 0 |} s) as Hd.
  destruct (issue_loop _ _ _ _ _) as [v1 s1]. exact Hd.
Qed.

(** X9.  [issue] only moves instructions from the input buffer to the queues:
    every line it takes comes off the head of the input buffer, every
    instruction it issues goes to the end of the in-flight queue (and of
    the queue of memory instructions); it makes no call with an
    architectural effect and leaves the threads, the counters, the
    sequence numbers and the configuration as they were. *)
Theorem issue_only_issues only_issue_microops s :
  let s' := snd (issue only_issue_microops s) in
  (exists k, Execute.inFlightInsts s' = Execute.inFlightInsts s ++ k) /\
  (exists k, Execute.inFUMemInsts s' = Execute.inFUMemInsts s ++ k) /\
  (exists k, Execute.inputBuffer s = k ++ Execute.inputBuffer s') /\
  count_events is_arch_effect (Execute.log s') =
    count_events is_arch_effect (Execute.log s) /\
  World.threads (Execute.world s') = World.threads (Execute.world s) /\
  Execute.stats s' = Execute.stats s /\
  Execute.streamSeqNum s' = Execute.streamSeqNum s /\
  Execute.lastPredictionSeqNum s' = Execute.lastPredictionSeqNum s /\
  length (Execute.funcUnits s') = length (Execute.funcUnits s) /\
  Execute.params s' = Execute.params s.
Proof.
  intros s'. subst s'.
  destruct (ik_issue only_issue_microops s)
    as [P C T S L E St Th F Q M B A].
  auto 12.
Qed.

End IssueKeeps.

Section IssueBounds.
Context `{IsaTypes} `{!Collaborators}.

Lemma issue_try_fu_pushes inst fu_index s :
  let out := issue_try_fu inst fu_index s in
  let issued := snd (fst (fst out)) in
  let mem := snd (fst out) in
  Execute.inFlightInsts (snd out) =
    Execute.inFlightInsts s ++ (if issued then [inst] else []) /\
  Execute.inFUMemInsts (snd out) =
    Execute.inFUMemInsts s ++ (if mem then [inst] else []) /\
  (mem = true -> issued = true).
Proof.
  cbv zeta.
  destruct (issue_try_fu inst fu_index s) as [[[fi issued] mem] s1] eqn:Ht.
  cbn [fst snd]. destruct issued.
  - unfold issue_try_fu in Ht.
    destruct (isNoCostInst s inst).
    { injection Ht as <- <- <-.
      destruct inst; cbn; rewrite ?app_nil_r; repeat split; auto. }
    destruct (funcUnit s fu_index) as [fu|]; [|discriminate].
    repeat (match type of Ht with
            | context [if ?b then _ else _] => destruct b
            end; try discriminate);
      injection Ht as <- <- <-; destruct inst; cbn;
      rewrite ?app_nil_r; repeat split; auto.
  - assert (Hm : mem = false).
    { unfold issue_try_fu in Ht.
      destruct (isNoCostInst s inst); [discriminate|].
      destruct (funcUnit s fu_index) as [fu|]; [|congruence].
      repeat (match type of Ht with
              | context [if ?b then _ else _] => destruct b
              end; try discriminate; try congruence). }
    subst mem.
    destruct (issue_try_fu_failed _ _ _ _ _ _ Ht) as [-> ->].
    rewrite !app_nil_r. repeat split; auto.
Qed.

Lemma issue_to_fus_pushes fuel inst fu_index s :
  let out := issue_to_fus fuel inst fu_index s in
  let issued := snd (fst (fst out)) in
  let mem := snd (fst out) in
  Execute.inFlightInsts (snd out) =
    Execute.inFlightInsts s ++ (if issued then [inst] else []) /\
  Execute.inFUMemInsts (snd out) =
    Execute.inFUMemInsts s ++ (if mem then [inst] else []) /\
  (mem = true -> issued = true).
Proof.
  revert fu_index.
  induction fuel as [|fuel IH]; intros fu_index; simpl.
  - pose proof (issue_try_fu_pushes inst fu_index s) as Hp.
    destruct (issue_try_fu inst fu_index s) as [[[fi issued] mem] s1].
    destruct (_ && _); exact Hp.
  - pose proof (issue_try_fu_pushes inst fu_index s) as Hp.
    destruct (issue_try_fu inst fu_index s) as [[[fi issued] mem] s1]
      eqn:Ht.
    destruct issued.
    + rewrite andb_false_r. exact Hp.
    + destruct (issue_try_fu_failed _ _ _ _ _ _ Ht) as [-> ->].
      destruct (negb _ && negb false); [apply IH|exact Hp].
Qed.

(** One round of the loop of [issue]: whether the instruction was
    counted as issued, pushed to the in-flight queue, queued as a memory
    reference. *)
Lemma issue_iteration_delta only_issue_microops insts_in v s :
  let inst := inst_at insts_in (Execute.inputIndex s) in
  let out := issue_iteration only_issue_microops insts_in v s in
  exists counted pushed memref : bool,
    iv_num_insts_issued (fst out) =
      (if counted then uint_inc (iv_num_insts_issued v)
       else iv_num_insts_issued v) /\
    iv_num_mem_insts_issued (fst out) =
      (if memref then uint_inc (iv_num_mem_insts_issued v)
       else iv_num_mem_insts_issued v) /\
    Execute.inFlightInsts (snd out) =
      Execute.inFlightInsts s ++ (if pushed then [inst] else []) /\
    Execute.inFUMemInsts (snd out) =
      Execute.inFUMemInsts s ++ (if memref then [inst] else []) /\
    (pushed = true -> counted = true) /\
    (memref = true -> pushed = true).
Proof.
  intros inst out. subst out. unfold issue_iteration. fold inst.
  remember (if isBubble inst then _ else _) as x eqn:Ex.
  assert (Hx :
    let issued := snd (fst (fst (fst x))) in
    let discarded := snd (fst (fst x)) in
    let mem := snd (fst x) in
    Execute.inFlightInsts (snd x) =
      Execute.inFlightInsts s ++
      (if issued && negb discarded && negb (isBubble inst)
       then [inst] else []) /\
    Execute.inFUMemInsts (snd x) =
      Execute.inFUMemInsts s ++ (if mem then [inst] else []) /\
    (mem = true -> issued && negb discarded && negb (isBubble inst) = true)).
  { subst x.
    destruct (isBubble inst) eqn:Hb;
      [cbn; rewrite ?app_nil_r; repeat split; auto; discriminate|].
    destruct (bool_decide _);
      [cbn; rewrite ?app_nil_r; repeat split; auto; discriminate|].
    destruct (negb _);
      [cbn; rewrite ?app_nil_r; repeat split; auto; discriminate|].
    destruct (_ && _ && _);
      [cbn; rewrite ?app_nil_r; repeat split; auto; discriminate|].
    pose proof (issue_to_fus_pushes (length (Execute.funcUnits s)) inst 0 s)
      as Hp.
    destruct (issue_to_fus _ _ 0 s) as [[[fi issued] mem] s1].
    cbn in Hp |- *. rewrite !andb_true_r.
    destruct Hp as (Hq & Hm & Hi). auto. }
  clear Ex.
  destruct x as [[[[fu_index issued] discarded] issued_mem_ref] s1].
  cbn in Hx. destruct Hx as (Hq & Hm & Himp).
  exists (issued && negb discarded),
    (issued && negb discarded && negb (isBubble inst)), issued_mem_ref.
  destruct issued.
  - cbn [andb].
    set (sm := if negb discarded && isInst s1 inst &&
                  MinorDynInst.sflag StaticInst.isMemBarrier (deref s1 inst)
               then _ else s1).
    assert (Hsm : Execute.inFlightInsts sm = Execute.inFlightInsts s1 /\
                  Execute.inFUMemInsts sm = Execute.inFUMemInsts s1).
    { subst sm.
      destruct (negb discarded && isInst s1 inst &&
                MinorDynInst.sflag StaticInst.isMemBarrier (deref s1 inst));
        split; reflexivity. }
    clearbody sm. destruct Hsm as [Hs1 Hs2].
    destruct (_ =? width insts_in); cbn;
      rewrite Hs1, Hs2, Hq, Hm;
      destruct discarded; cbn; repeat split; auto;
      intros Hp; apply andb_true_iff in Hp; tauto.
  - cbn [andb] in *.
    destruct issued_mem_ref; [discriminate (Himp eq_refl)|].
    destruct (_ =? width insts_in); cbn; rewrite Hq, Hm;
      repeat split; auto; discriminate.
Qed.

End IssueBounds.

Section IssueLimits.
Context `{IsaTypes} `{!Collaborators}.

Lemma uint_inc_small n : 0 <= n < 2 ^ 32 - 1 -> uint_inc n = n + 1.
Proof. intros Hn. unfold uint_inc, wrap32. apply Z.mod_small. lia. Qed.

Lemma issue_continues_limits v s :
  issue_continues v s = true ->
  iv_num_insts_issued v <> Execute.issueLimit s /\
  iv_num_mem_insts_issued v <> Execute.memoryIssueLimit s.
Proof.
  unfold issue_continues. destruct (iv_insts_in v); [|discriminate].
  rewrite !andb_true_iff, !negb_true_iff, !Z.eqb_neq. tauto.
Qed.

Lemma issue_iteration_bounds only_issue_microops insts_in v s :
  0 <= iv_num_insts_issued v < Execute.issueLimit s ->
  Execute.issueLimit s < 2 ^ 32 ->
  0 <= iv_num_mem_insts_issued v < Execute.memoryIssueLimit s ->
  Execute.memoryIssueLimit s < 2 ^ 32 ->
  let out := issue_iteration only_issue_microops insts_in v s in
  iv_num_insts_issued v <= iv_num_insts_issued (fst out)
    <= Execute.issueLimit s /\
  iv_num_mem_insts_issued v <= iv_num_mem_insts_issued (fst out)
    <= Execute.memoryIssueLimit s /\
  Z.of_nat (length (Execute.inFlightInsts (snd out))) -
    Z.of_nat (length (Execute.inFlightInsts s)) <=
    iv_num_insts_issued (fst out) - iv_num_insts_issued v /\
  Z.of_nat (length (Execute.inFUMemInsts (snd out))) -
    Z.of_nat (length (Execute.inFUMemInsts s)) <=
    iv_num_mem_insts_issued (fst out) - iv_num_mem_insts_issued v.
Proof.
  intros Hn HL Hm HM out. subst out.
  destruct (issue_iteration_delta only_issue_microops insts_in v s)
    as (counted & pushed & memref & En & Em & Eq & Ef & Hpc & Hmp).
  rewrite En, Em, Eq, Ef, !length_app.
  rewrite !uint_inc_small by lia.
  destruct counted, pushed, memref; cbn [length];
    try (specialize (Hpc eq_refl); discriminate);
    try (specialize (Hmp eq_refl); discriminate);
    lia.
Qed.

Lemma issue_loop_bounds fuel only_issue_microops insts_in v s :
  0 <= iv_num_insts_issued v < Execute.issueLimit s ->
  Execute.issueLimit s < 2 ^ 32 ->
  0 <= iv_num_mem_insts_issued v < Execute.memoryIssueLimit s ->
  Execute.memoryIssueLimit s < 2 ^ 32 ->
  let out := issue_loop fuel only_issue_microops insts_in v s in
  iv_num_insts_issued v <= iv_num_insts_issued (fst out)
    <= Execute.issueLimit s /\
  iv_num_mem_insts_issued v <= iv_num_mem_insts_issued (fst out)
    <= Execute.memoryIssueLimit s /\
  Z.of_nat (length (Execute.inFlightInsts (snd out))) -
    Z.of_nat (length (Execute.inFlightInsts s)) <=
    iv_num_insts_issued (fst out) - iv_num_insts_issued v /\
  Z.of_nat (length (Execute.inFUMemInsts (snd out))) -
    Z.of_nat (length (Execute.inFUMemInsts s)) <=
    iv_num_mem_insts_issued (fst out) - iv_num_mem_insts_issued v.
Proof.
  revert insts_in v s.
  induction fuel as [|fuel IH]; intros insts_in v s Hn HL Hm HM out;
    subst out; simpl.
  - pose proof (issue_iteration_bounds only_issue_microops insts_in v s
                  Hn HL Hm HM) as Hb.
    destruct (issue_iteration _ _ _ _) as [v1 s1].
    destruct (issue_continues v1 s1); exact Hb.
  - pose proof (issue_iteration_bounds only_issue_microops insts_in v s
                  Hn HL Hm HM) as Hb.
    pose proof (ik_issue_iteration only_issue_microops insts_in v s) as Hk.
    destruct (issue_iteration _ _ _ _) as [v1 s1].
    cbn [fst snd] in Hb, Hk.
    destruct (issue_continues v1 s1) eqn:Hc; [|exact Hb].
    destruct (iv_insts_in v1) as [insts_in'|]; [|exact Hb].
    apply issue_continues_limits in Hc.
    assert (EL : Execute.issueLimit s1 = Execute.issueLimit s)
      by (unfold Execute.issueLimit; rewrite (ik_params _ _ Hk);
          reflexivity).
    assert (EM : Execute.memoryIssueLimit s1 = Execute.memoryIssueLimit s)
      by (unfold Execute.memoryIssueLimit; rewrite (ik_params _ _ Hk);
          reflexivity).
    rewrite EL, EM in Hc.
    assert (Hn1 : 0 <= iv_num_insts_issued v1 < Execute.issueLimit s1)
      by lia.
    assert (Hm1 : 0 <= iv_num_mem_insts_issued v1 <
                  Execute.memoryIssueLimit s1) by lia.
    pose proof (IH insts_in' v1 s1 Hn1 ltac:(lia) Hm1 ltac:(lia)) as Hr.
    cbv zeta in Hr.
    destruct (issue_loop fuel only_issue_microops insts_in' v1 s1)
      as [v2 s2].
    cbn [fst snd] in Hr |- *. rewrite EL, EM in Hr. lia.
Qed.

(** X10.  A call of [issue], under limits of at least 1: the count it returns
    is at most the issue limit; the in-flight queue grows by no more
    instructions than that count, and the queue of memory instructions in
    the functional units by no more than the memory issue limit. *)
Theorem issue_within_limits only_issue_microops s :
  1 <= Execute.issueLimit s < 2 ^ 32 ->
  1 <= Execute.memoryIssueLimit s < 2 ^ 32 ->
  let out := issue only_issue_microops s in
  0 <= fst out <= Execute.issueLimit s /\
  Z.of_nat (length (Execute.inFlightInsts (snd out))) <=
    Z.of_nat (length (Execute.inFlightInsts s)) + fst out /\
  Z.of_nat (length (Execute.inFUMemInsts (snd out))) <=
    Z.of_nat (length (Execute.inFUMemInsts s)) +
    Execute.memoryIssueLimit s.
Proof.
  intros HL HM out. subst out. unfold issue.
  destruct (getInput s) as [insts_in|]; [|cbn; lia].
  pose proof (issue_loop_bounds (issue_fuel s) only_issue_microops insts_in
                {| iv_insts_in := Some insts_in; iv_fu_index := 0;
                   iv_issued := true; iv_num_insts_issued := 0;
                   iv_num_mem_insts_issued := 0;
                   iv_num_insts_discarded := 0 |} s) as Hb.
  cbn [iv_num_insts_issued iv_num_mem_insts_issued] in Hb.
  specialize (Hb ltac:(lia) ltac:(lia) ltac:(lia) ltac:(lia)).
  cbv zeta in Hb.
  destruct (issue_loop _ _ _ _ _) as [v1 s1]. cbn [fst snd] in Hb |- *.
  lia.
Qed.

End IssueLimits.

(** * The loops of issue end by themselves *)

Section IssueTermination.
Context `{IsaTypes} `{!Collaborators}.

Lemma issue_to_fus_step fuel inst fu_index s :
  issue_to_fus fuel inst fu_index s =
  let '(fu_index1, issued, issued_mem_ref, s1) :=
    issue_try_fu inst fu_index s in
  let fu_index2 := uint_inc fu_index1 in
  if negb (fu_index2 =? Execute.numFuncUnits s1) && negb issued then
    match fuel with
    | O => (fu_index2, issued, issued_mem_ref, s1)
    | S fuel' => issue_to_fus fuel' inst fu_index2 s1
    end
  else (fu_index2, issued, issued_mem_ref, s1).
Proof. destruct fuel; reflexivity. Qed.

Lemma issue_to_fus_ends r inst fu_index s fuel :
  Z.of_nat (length (Execute.funcUnits s)) < 2 ^ 32 ->
  0 <= fu_index ->
  fu_index + Z.of_nat r + 1 = Z.of_nat (length (Execute.funcUnits s)) ->
  (r <= fuel)%nat ->
  issue_to_fus fuel inst fu_index s = issue_to_fus r inst fu_index s.
Proof.
  intros Hlen. revert fu_index fuel.
  induction r as [|r IH]; intros fu_index fuel Hpos Hr Hfuel;
    rewrite (issue_to_fus_step fuel), (issue_to_fus_step _ inst fu_index s);
    destruct (issue_try_fu inst fu_index s) as [[[fi issued] mem] s1] eqn:Ht;
    (destruct issued;
       [cbv zeta; cbn [negb]; rewrite andb_false_r; reflexivity|]);
    destruct (issue_try_fu_failed _ _ _ _ _ _ Ht) as [-> ->];
    cbv zeta; unfold Execute.numFuncUnits;
    rewrite (wrap32_small (Z.of_nat _)) by lia;
    rewrite uint_inc_small by lia.
  - destruct (Z.eqb_spec (fu_index + 1)
                (Z.of_nat (length (Execute.funcUnits s)))); [|lia].
    reflexivity.
  - destruct (Z.eqb_spec (fu_index + 1)
                (Z.of_nat (length (Execute.funcUnits s)))); [lia|].
    cbn [negb andb].
    destruct fuel as [|fuel]; [lia|].
    apply IH; lia.
Qed.

(** X11.  The scan of the functional units, started at unit 0 of at least one
    unit, ends by itself after looking at each unit at most once: fuel
    beyond the number of units less one changes nothing. *)
Theorem issue_to_fus_terminates inst s fuel :
  (1 <= length (Execute.funcUnits s))%nat ->
  Z.of_nat (length (Execute.funcUnits s)) < 2 ^ 32 ->
  (length (Execute.funcUnits s) - 1 <= fuel)%nat ->
  issue_to_fus fuel inst 0 s =
  issue_to_fus (length (Execute.funcUnits s) - 1) inst 0 s.
Proof.
  intros Hone Hlen Hfuel. apply issue_to_fus_ends; lia.
Qed.

End IssueTermination.

Section IssueLoopTermination.
Context `{IsaTypes} `{!Collaborators}.

Lemma input_issue_try_fu inst fu_index s :
  let s1 := snd (issue_try_fu inst fu_index s) in
  Execute.inputBuffer s1 = Execute.inputBuffer s /\
  Execute.inputIndex s1 = Execute.inputIndex s.
Proof.
  cbv zeta.
  destruct (issue_try_fu inst fu_index s) as [[[fi issued] mem] s1] eqn:Ht.
  cbn [snd]. destruct issued.
  - unfold issue_try_fu in Ht.
    destruct (isNoCostInst s inst).
    { injection Ht as _ _ <-. destruct inst; split; reflexivity. }
    destruct (funcUnit s fu_index) as [fu|]; [|discriminate].
    repeat (match type of Ht with
            | context [if ?b then _ else _] => destruct b
            end; try discriminate);
      injection Ht as _ _ <-; destruct inst; split; reflexivity.
  - destruct (issue_try_fu_failed _ _ _ _ _ _ Ht) as [-> _].
    split; reflexivity.
Qed.

Lemma input_issue_to_fus fuel inst fu_index s :
  let s1 := snd (issue_to_fus fuel inst fu_index s) in
  Execute.inputBuffer s1 = Execute.inputBuffer s /\
  Execute.inputIndex s1 = Execute.inputIndex s.
Proof.
  revert fu_index s. induction fuel as [|fuel IH]; intros fu_index s;
    rewrite issue_to_fus_step;
    pose proof (input_issue_try_fu inst fu_index s) as Hd;
    destruct (issue_try_fu inst fu_index s) as [[[fi issued] mem] s1];
    cbv zeta in Hd |- *; cbn [snd] in Hd;
    destruct (_ && _); try exact Hd.
  destruct (IH (uint_inc fi) s1) as [E1 E2].
  destruct Hd as [D1 D2]. split; congruence.
Qed.

Lemma getInput_head s insts_in :
  getInput s = Some insts_in ->
  exists rest, Execute.inputBuffer s = insts_in :: rest.
Proof.
  unfold getInput. destruct (Execute.inputBuffer s) as [|head rest];
    [discriminate|].
  destruct (ForwardInstData_isBubble head); [discriminate|].
  intros [= ->]. exists rest. reflexivity.
Qed.

Lemma issue_iteration_progress only_issue_microops insts_in v s :
  input_ok insts_in s ->
  let out := issue_iteration only_issue_microops insts_in v s in
  issue_continues (fst out) (snd out) = true ->
  exists insts_in',
    iv_insts_in (fst out) = Some insts_in' /\
    input_ok insts_in' (snd out) /\
    input_left (snd out) = input_left s - 1.
Proof.
  intros (Hget & Hidx & Hall) out. subst out.
  destruct (getInput_head _ _ Hget) as [rest Hbuf].
  assert (Hw : width insts_in = Z.of_nat (length insts_in)).
  { unfold width. apply wrap32_small. rewrite Hbuf in Hall.
    inversion Hall; subst. lia. }
  unfold issue_iteration.
  set (inst := inst_at insts_in (Execute.inputIndex s)).
  remember (if isBubble inst then _ else _) as x eqn:Ex.
  assert (Hx : Execute.inputBuffer (snd x) = Execute.inputBuffer s /\
               Execute.inputIndex (snd x) = Execute.inputIndex s).
  { subst x.
    destruct (isBubble inst); [split; reflexivity|].
    destruct (bool_decide _); [split; reflexivity|].
    destruct (negb _); [split; reflexivity|].
    destruct (_ && _ && _); [split; reflexivity|].
    pose proof (input_issue_to_fus (length (Execute.funcUnits s)) inst 0 s)
      as Hd.
    destruct (issue_to_fus _ _ 0 s) as [[[fi issued] mem] s1]. exact Hd. }
  clear Ex.
  destruct x as [[[[fu_index issued] discarded] issued_mem_ref] s1].
  cbn [snd] in Hx. destruct Hx as [Hb1 Hi1].
  destruct issued.
  2:{ cbn [fst snd].
      destruct (_ =? width insts_in); cbn [fst snd];
        unfold issue_continues; cbn [iv_insts_in iv_issued];
        [destruct (if Execute.processMoreThanOneInput _ then _ else None)|];
        rewrite ?andb_false_r; try discriminate; simpl; discriminate. }
  set (sm := if negb discarded && isInst s1 inst &&
                MinorDynInst.sflag StaticInst.isMemBarrier (deref s1 inst)
             then _ else s1).
  assert (Hsm : Execute.inputBuffer sm = Execute.inputBuffer s /\
                Execute.inputIndex sm = Execute.inputIndex s).
  { subst sm.
    destruct (negb discarded && isInst s1 inst &&
              MinorDynInst.sflag StaticInst.isMemBarrier (deref s1 inst));
      split; assumption. }
  clearbody sm. destruct Hsm as [Hb2 Hi2].
  cbn [fst snd Execute.inputIndex Execute.set_inputIndex].
  rewrite Hi2, uint_inc_small by (rewrite Hbuf in Hall;
                                  inversion Hall; subst; lia).
  rewrite Hw.
  destruct (Z.eqb_spec (Execute.inputIndex s + 1)
              (Z.of_nat (length insts_in))) as [Hend|Hmore].
  - (* the line is finished and popped *)
    cbn [fst snd iv_insts_in].
    set (s3 := popInput _).
    assert (Hb3 : Execute.inputBuffer s3 = rest)
      by (subst s3; cbn; rewrite Hb2, Hbuf; reflexivity).
    assert (Hi3 : Execute.inputIndex s3 = 0) by reflexivity.
    clearbody s3.
    destruct (if Execute.processMoreThanOneInput s3 then getInput s3
              else None) as [insts_in'|] eqn:Hnext;
      [|unfold issue_continues; cbn; discriminate].
    assert (Hget3 : getInput s3 = Some insts_in')
      by (destruct (Execute.processMoreThanOneInput s3);
          [exact Hnext|discriminate]).
    intros Hc. exists insts_in'. split; [reflexivity|].
    assert (Hall3 : Forall (fun line : ForwardInstData =>
                              Z.of_nat (length line) < 2 ^ 32)
                      (Execute.inputBuffer s3)).
    { rewrite Hb3. rewrite Hbuf in Hall. inversion Hall; assumption. }
    destruct (getInput_head _ _ Hget3) as [rest' Hbuf3].
    assert (Hw3 : width insts_in' = Z.of_nat (length insts_in')).
    { unfold width. apply wrap32_small. rewrite Hbuf3 in Hall3.
      inversion Hall3; subst. lia. }
    unfold issue_continues in Hc. cbn [iv_insts_in] in Hc.
    rewrite !andb_true_iff in Hc.
    destruct Hc as ((((Hlt & _) & _) & _) & _).
    apply Z.ltb_lt in Hlt. rewrite Hw3, Hi3 in Hlt.
    split; [split; [exact Hget3|split; [lia|exact Hall3]]|].
    unfold input_left. rewrite Hb3, Hi3, Hbuf. cbn [concat].
    rewrite length_app. lia.
  - (* the line goes on *)
    cbn [fst snd iv_insts_in].
    intros Hc. exists insts_in. split; [reflexivity|].
    split.
    + split; [|split].
      * unfold getInput in *. cbn. rewrite Hb2. exact Hget.
      * cbn. lia.
      * cbn. rewrite Hb2. exact Hall.
    + unfold input_left. cbn. rewrite Hb2. lia.
Qed.

Lemma issue_loop_step fuel only_issue_microops insts_in v s :
  issue_loop fuel only_issue_microops insts_in v s =
  let '(v1, s1) := issue_iteration only_issue_microops insts_in v s in
  if issue_continues v1 s1 then
    match fuel, iv_insts_in v1 with
    | S fuel', Some insts_in' =>
        issue_loop fuel' only_issue_microops insts_in' v1 s1
    | _, _ => (v1, s1)
    end
  else (v1, s1).
Proof. destruct fuel; reflexivity. Qed.

Lemma input_ok_left insts_in s : input_ok insts_in s -> 1 <= input_left s.
Proof.
  intros (Hget & Hidx & _). destruct (getInput_head _ _ Hget) as [rest Hb].
  unfold input_left. rewrite Hb. cbn [concat]. rewrite length_app. lia.
Qed.

Lemma issue_loop_ends n fuel only_issue_microops insts_in v s :
  input_ok insts_in s ->
  input_left s <= Z.of_nat (S n) ->
  (n <= fuel)%nat ->
  issue_loop fuel only_issue_microops insts_in v s =
  issue_loop n only_issue_microops insts_in v s.
Proof.
  revert fuel insts_in v s.
  induction n as [|n IH]; intros fuel insts_in v s Hok Hleft Hfuel;
    rewrite (issue_loop_step fuel), (issue_loop_step _ _ insts_in v s);
    pose proof (issue_iteration_progress only_issue_microops insts_in v s
                  Hok) as Hp;
    destruct (issue_iteration only_issue_microops insts_in v s) as [v1 s1];
    cbv zeta in Hp; cbn [fst snd] in Hp;
    (destruct (issue_continues v1 s1); [|reflexivity]);
    destruct (Hp eq_refl) as (insts_in' & Ein & Hok' & Hleft');
    pose proof (input_ok_left _ _ Hok') as Hone.
  - lia.
  - rewrite Ein. destruct fuel as [|fuel]; [lia|].
    apply IH; [exact Hok'|lia|lia].
Qed.

(** X12.  The loop of [issue], entered on the line at the head of the input
    buffer with the index inside it, ends by itself: every round that
    goes on has taken one instruction of the input buffer, so fuel beyond
    the number of instructions waiting there changes nothing. *)
Theorem issue_loop_terminates fuel only_issue_microops insts_in v s :
  input_ok insts_in s ->
  (issue_fuel s <= fuel)%nat ->
  issue_loop fuel only_issue_microops insts_in v s =
  issue_loop (issue_fuel s) only_issue_microops insts_in v s.
Proof.
  intros Hok Hfuel. apply issue_loop_ends; [exact Hok| |exact Hfuel].
  destruct Hok as (_ & Hidx & _). unfold input_left, issue_fuel. lia.
Qed.

End IssueLoopTermination.

(** * One change of stream per call of commit *)

Section StreamOnce.
Context `{IsaTypes} `{!Collaborators}.

Lemma sf_silent s b s1 s2 :
  Execute.streamSeqNum s2 = Execute.streamSeqNum s1 ->
  stream_follows s b s1 -> stream_follows s b s2.
Proof.
  unfold stream_follows. intros E. rewrite E. auto.
Qed.

Lemma sf_steady s b s1 :
  BranchData.isStreamChange b = false ->
  stream_follows s b s1 ->
  Execute.streamSeqNum s1 = Execute.streamSeqNum s.
Proof. unfold stream_follows. intros ->. auto. Qed.

Lemma sf_updateBranchData reason inst target b s s1 :
  BranchData.isStreamChange b = false ->
  Execute.streamSeqNum s1 = Execute.streamSeqNum s ->
  stream_follows s (fst (updateBranchData reason inst target b s1))
    (snd (updateBranchData reason inst target b s1)).
Proof.
  intros Hb Hs. unfold updateBranchData, stream_follows.
  destruct (bool_decide (reason <> NoBranch)); cbn [fst snd].
  - unfold BranchData.isStreamChange. cbn [BranchData.reason].
    destruct (Reason_isStreamChange reason); cbn; rewrite ?Hs; auto.
  - rewrite Hb. exact Hs.
Qed.

Lemma ss_advance_target inst fault s :
  Execute.streamSeqNum (snd (advance_target inst fault s)) =
  Execute.streamSeqNum s.
Proof.
  unfold advance_target. destruct (isNoFault fault); [|reflexivity].
  cbn. destruct (_ && _ && _ && _); reflexivity.
Qed.

Lemma sf_tryToBranch inst fault b s s1 :
  BranchData.isStreamChange b = false ->
  Execute.streamSeqNum s1 = Execute.streamSeqNum s ->
  stream_follows s (fst (tryToBranch inst fault b s1))
    (snd (tryToBranch inst fault b s1)).
Proof.
  intros Hb Hs. rewrite tryToBranch_unfold.
  apply sf_updateBranchData; [exact Hb|].
  rewrite ss_advance_target. exact Hs.
Qed.

Lemma ss_upd_inst p f s :
  Execute.streamSeqNum (Execute.upd_inst p f s) = Execute.streamSeqNum s.
Proof. destruct p; reflexivity. Qed.

Lemma ss_doInstCommitAccounting inst s :
  Execute.streamSeqNum (doInstCommitAccounting inst s) =
  Execute.streamSeqNum s.
Proof.
  unfold doInstCommitAccounting. destruct (_ || _); reflexivity.
Qed.

Lemma ss_executeMemRefInst inst fault s :
  Execute.streamSeqNum (snd (executeMemRefInst inst fault s)) =
  Execute.streamSeqNum s.
Proof.
  unfold executeMemRefInst.
  destruct (negb _); [reflexivity|].
  destruct (isa_initiateAcc _ _ _) as [init_fault w].
  destruct init_fault; [reflexivity|].
  destruct (negb _); reflexivity.
Qed.

Lemma isBubble_not_stream_change (b : BranchData.t) :
  BranchData.isBubble b = true -> BranchData.isStreamChange b = false.
Proof.
  unfold BranchData.isBubble, BranchData.isStreamChange.
  intros Hb. apply bool_decide_eq_true in Hb. rewrite Hb. reflexivity.
Qed.

Lemma sf_commitInst inst early b committed cmi s :
  BranchData.isStreamChange b = false ->
  let out := commitInst inst early b committed cmi s in
  stream_follows s (ci_branch (fst out)) (snd out).
Proof.
  intros Hb out. subst out. unfold commitInst.
  destruct (_ && negb (isInterrupted _ s)).
  { cbn. unfold stream_follows. rewrite Hb. reflexivity. }
  remember (match MinorDynInst.fault (deref s inst) with
            | Some f => _
            | None => _
            end) as x eqn:Ex.
  assert (Hx : stream_follows s (ci_branch (fst x)) (snd x)).
  { subst x. destruct (MinorDynInst.fault (deref s inst)) as [f|].
    - pose proof (sf_tryToBranch inst (Some f) b s
                    (invokeFault f (threadOf s inst) None
                       (ExecContext_new inst s)) Hb eq_refl) as Ht.
      destruct (tryToBranch _ _ _ _). exact Ht.
    - destruct (MinorDynInst.sflag StaticInst.isMemRef _).
      + pose proof (ss_executeMemRefInst inst NoFault s) as Hm.
        destruct (executeMemRefInst inst NoFault s)
          as [[[completed passed] fault] s0].
        cbn [snd] in Hm.
        destruct fault as [f|].
        * destruct completed.
          -- destruct early.
             ++ cbn. unfold stream_follows. rewrite Hb, ss_upd_inst.
                exact Hm.
             ++ pose proof (sf_tryToBranch inst (Some f) b s
                              (invokeFault f (threadOf s inst) None s0)
                              Hb Hm) as Ht.
                destruct (tryToBranch _ _ _ _). exact Ht.
          -- cbn. unfold stream_follows. rewrite Hb. exact Hm.
        * cbn. unfold stream_follows. rewrite Hb. exact Hm.
      + destruct (_ && _ && negb _).
        * cbn. unfold stream_follows. rewrite Hb. reflexivity.
        * destruct (isa_execute _ _ _) as [fault w].
          match goal with
          | |- context [tryToBranch inst fault b ?s3] =>
              pose proof (sf_tryToBranch inst fault b s s3 Hb) as Ht
          end.
          destruct (tryToBranch _ _ _ _) as [b1 s4].
          apply Ht. rewrite ss_doInstCommitAccounting.
          destruct fault; reflexivity. }
  clear Ex. destruct x as [r s1]. cbn [fst snd] in Hx.
  destruct (ci_completed_inst r); [|exact Hx].
  destruct (negb _ && bool_decide _ && BranchData.isBubble (ci_branch r) &&
            negb _) eqn:Hsus.
  - rewrite !andb_true_iff in Hsus.
    destruct Hsus as (((_ & _) & Hbub) & _).
    apply isBubble_not_stream_change in Hbub.
    match goal with
    | |- context [updateBranchData SuspendThread inst ?t ?b0 ?s3] =>
        pose proof (sf_updateBranchData SuspendThread inst t b0 s s3 Hbub)
          as Hu
    end.
    destruct (updateBranchData _ _ _ _ _) as [b2 s4]. cbn [fst snd] in *.
    apply Hu. cbn. exact (sf_steady _ _ _ Hbub Hx).
  - cbn [fst snd]. eapply sf_silent; [|exact Hx]. reflexivity.
Qed.

Lemma sf_refl s (b : BranchData.t) :
  BranchData.isStreamChange b = false -> stream_follows s b s.
Proof. unfold stream_follows. intros ->. reflexivity. Qed.

Lemma sf_after s s1 (b' : BranchData.t) s' :
  Execute.streamSeqNum s1 = Execute.streamSeqNum s ->
  stream_follows s1 b' s' -> stream_follows s b' s'.
Proof. unfold stream_follows. intros ->. auto. Qed.

Lemma sf_handleMemResponse inst response b fault s b' f' s' :
  BranchData.isStreamChange b = false ->
  handleMemResponse inst response b fault s = Done (b', f', s') ->
  stream_follows s b' s'.
Proof.
  intros Hb. unfold handleMemResponse.
  match goal with
  | |- obind ?x _ = _ -> _ =>
      assert (Hx : match x with
                   | Done (_, s1) =>
                       Execute.streamSeqNum s1 = Execute.streamSeqNum s
                   | _ => True
                   end);
      [|destruct x as [[f1 s1]| |]; cbn [obind]; try discriminate]
  end.
  { destruct (LSQRequest.fault response).
    - destruct (MinorDynInst.sflag _ _); reflexivity.
    - destruct (LSQRequest.packet response); [|reflexivity].
      destruct (Packet_isError _); [exact I|].
      destruct (_ || _ || _); [|exact I].
      destruct (isa_completeAcc _ _ _ _) as [cf w].
      destruct cf; [reflexivity|].
      destruct (LSQRequest.needsToBeSentToStoreBuffer _); reflexivity. }
  match goal with
  | |- context [tryToBranch inst f1 b ?s3] =>
      pose proof (sf_tryToBranch inst f1 b s s3 Hb) as Ht
  end.
  destruct (tryToBranch _ _ _ _) as [b1 s4]. cbn [fst snd] in Ht.
  intros [= <- _ <-]. apply Ht.
  rewrite ss_doInstCommitAccounting. exact Hx.
Qed.

Lemma ss_fold_extra_commit_delay inst s :
  Execute.streamSeqNum (fold_extra_commit_delay inst s) =
  Execute.streamSeqNum s.
Proof.
  unfold fold_extra_commit_delay.
  destruct (MinorDynInst.extraCommitDelayExpr _).
  - destruct (_ <? 128); destruct (negb _); rewrite ?ss_upd_inst;
      reflexivity.
  - destruct (negb _); rewrite ?ss_upd_inst; reflexivity.
Qed.

Lemma ss_unstall index s :
  Execute.streamSeqNum (unstall index s) = Execute.streamSeqNum s.
Proof. unfold unstall. destruct (index <? 0); reflexivity. Qed.

Lemma sf_commit_try discard now inst early b fault s :
  BranchData.isStreamChange b = false ->
  let out := commit_try discard now inst early b fault s in
  stream_follows s (ci_branch (snd (fst out))) (snd out).
Proof.
  intros Hb out. subst out. unfold commit_try.
  remember (if negb _ then _ else _) as x eqn:Ex.
  assert (Hx : stream_follows s (ci_branch (fst x)) (snd x)).
  { subst x. destruct (negb _); [|apply sf_refl; exact Hb].
    destruct (_ && _ && _ && _).
    { cbn. unfold stream_follows. rewrite Hb.
      apply ss_fold_extra_commit_delay. }
    destruct (now <? _).
    { cbn. unfold stream_follows. rewrite Hb.
      apply ss_fold_extra_commit_delay. }
    eapply sf_after; [apply ss_fold_extra_commit_delay|].
    apply sf_commitInst. exact Hb. }
  clear Ex. destruct x as [r s1]. cbn [fst snd] in Hx |- *.
  eapply sf_silent; [|exact Hx].
  destruct (ci_completed_inst r); [|reflexivity].
  destruct (negb _); [apply ss_unstall|reflexivity].
Qed.

Lemma sf_commit_from_fus discard now can head v s :
  BranchData.isStreamChange (cv_branch v) = false ->
  let out := commit_from_fus discard now can head v s in
  stream_follows s (cv_branch (it_vars (fst out))) (snd out).
Proof.
  intros Hb out. subst out. unfold commit_from_fus.
  destruct can; [|apply sf_refl; exact Hb].
  destruct (commit_candidate head s) as [[[inst try] early] c].
  destruct try; [|apply sf_refl; exact Hb].
  pose proof (sf_commit_try discard now inst early (cv_branch v)
                (cv_fault v) s Hb) as Hd.
  destruct (commit_try _ _ _ _ _ _ _) as [[d r] s1]. exact Hd.
Qed.

Lemma sf_commit_attempt ocm discard now v s it0 s1 :
  BranchData.isStreamChange (cv_branch v) = false ->
  commit_attempt ocm discard now v s = Done (it0, s1) ->
  stream_follows s (cv_branch (it_vars it0)) s1.
Proof.
  intros Hb. unfold commit_attempt.
  pose proof (commit_attempt_pc_events s) as Hk.
  destruct (if isInbetweenInsts s then tryPCEvents s else (false, s))
    as [pc s0]. simpl in Hk. apply kept_streamSeqNum in Hk.
  destruct pc.
  { pose proof (sf_updateBranchData UnpredictedBranch BubblePtr
                  (ThreadContext.pcState (getContext s0 0)) (cv_branch v)
                  s s0 Hb Hk) as Hd.
    destruct (updateBranchData _ _ _ _ _). intros [= <- <-]. exact Hd. }
  assert (Hfus : forall can,
            Done (commit_from_fus discard now can
                    (hd BubblePtr (Execute.inFlightInsts s)) v s0) =
            Done (it0, s1) ->
            stream_follows s (cv_branch (it_vars it0)) s1).
  { intros can Hc. apply Done_inj in Hc.
    pose proof (sf_commit_from_fus discard now can
                  (hd BubblePtr (Execute.inFlightInsts s)) v s0 Hb) as Hd.
    rewrite Hc in Hd. cbn [fst snd] in Hd.
    eapply sf_after; [exact Hk|exact Hd]. }
  destruct (if MinorDynInst.inLSQ _ then _ else None) as [response|];
    [|apply Hfus].
  destruct (_ <? _); [|apply Hfus].
  destruct (_ || _).
  - intros [= <- <-]. cbn. unfold stream_follows. rewrite Hb. exact Hk.
  - destruct (handleMemResponse _ _ _ _ _) as [[[b f] s2]| |] eqn:Hh;
      simpl; try discriminate.
    intros [= <- <-]. cbn. eapply sf_after; [exact Hk|].
    eapply sf_handleMemResponse; eassumption.
Qed.

Lemma sf_commit_finish it0 s1 :
  cv_branch (it_vars (fst (commit_finish it0 s1))) =
    cv_branch (it_vars it0) /\
  Execute.streamSeqNum (snd (commit_finish it0 s1)) =
    Execute.streamSeqNum s1.
Proof.
  unfold commit_finish. cbn [fst snd it_vars]. split.
  - destruct (it_committed_inst it0); reflexivity.
  - repeat match goal with
           | |- context [if ?b then _ else _] => destruct b
           | |- context [match ?x with _ => _ end] => destruct x
           end;
      first [reflexivity | destruct (it_inst it0); reflexivity].
Qed.

Lemma sf_commit_iteration ocm discard now v s it s' :
  BranchData.isStreamChange (cv_branch v) = false ->
  commit_iteration ocm discard now v s = Done (it, s') ->
  stream_follows s (cv_branch (it_vars it)) s'.
Proof.
  intros Hb. unfold commit_iteration.
  destruct (commit_attempt ocm discard now v s) as [[it0 s1]| |] eqn:Ha;
    cbn [obind fst snd]; try discriminate.
  intros Hfin. apply Done_inj in Hfin.
  destruct (sf_commit_finish it0 s1) as [Eb Es].
  rewrite Hfin in Eb, Es. cbn [fst snd] in Eb, Es.
  rewrite Eb. eapply sf_silent; [exact Es|].
  eapply sf_commit_attempt; eassumption.
Qed.

Lemma sf_commit_loop fuel ocm discard now v s v' s' :
  BranchData.isStreamChange (cv_branch v) = false ->
  commit_loop fuel ocm discard now v s = Done (v', s') ->
  stream_follows s (cv_branch v') s'.
Proof.
  revert v s. induction fuel as [|fuel IH]; intros v s Hb; simpl.
  - destruct (commit_continues v s); [discriminate|].
    intros [= <- <-]. apply sf_refl. exact Hb.
  - destruct (commit_continues v s);
      [|intros [= <- <-]; apply sf_refl; exact Hb].
    destruct (commit_iteration ocm discard now v s) as [[it s1]| |] eqn:Hi;
      cbn [obind fst snd]; try discriminate.
    pose proof (sf_commit_iteration _ _ _ _ _ _ _ Hb Hi) as Hs.
    destruct (BranchData.isStreamChange (cv_branch (it_vars it))) eqn:Hsc.
    + assert (Hstop : commit_continues (it_vars it) s1 = false).
      { unfold commit_continues. rewrite Hsc.
        rewrite andb_false_r. reflexivity. }
      destruct fuel; simpl; rewrite Hstop; intros [= <- <-]; exact Hs.
    + intros Hl. eapply sf_after; [|eapply IH; eassumption].
      eapply sf_steady; eassumption.
Qed.

(** X13.  Over a call of [commit] entered without a change of stream on the
    output wire, the stream sequence number is bumped at most once: it is
    bumped, once, exactly when the redirect that [commit] leaves on the
    wire is a change of stream, and that redirect carries the new number;
    otherwise it is what it was. *)
Theorem commit_changes_stream_once fuel only_commit_microops discard branch s
    b' s' :
  BranchData.isStreamChange branch = false ->
  commit fuel only_commit_microops discard branch s = Done (b', s') ->
  if BranchData.isStreamChange b'
  then Execute.streamSeqNum s' = InstSeqNum_inc (Execute.streamSeqNum s) /\
       BranchData.newStreamSeqNum b' = Execute.streamSeqNum s'
  else Execute.streamSeqNum s' = Execute.streamSeqNum s.
Proof.
  intros Hb. unfold commit.
  destruct (commit_loop _ _ _ _ _ _) as [[v1 s1]| |] eqn:Hl;
    cbn [obind fst snd]; try discriminate.
  intros [= <- <-].
  exact (sf_commit_loop _ _ _ _ (commit_entry branch) _ _ _ Hb Hl).
Qed.

End StreamOnce.

(** * Memory responses and faults at commit *)

Section MemResponseOutcome.
Context `{IsaTypes} `{!Collaborators}.


End MemResponseOutcome.

Section CommitInstPaths.
Context `{IsaTypes} `{!Collaborators}.

(** X15.  An instruction that carries a fault, in a thread that is not held
    suspended: [commitInst] invokes the fault and nothing else (no execute,
    no access, no accounting), hands the fault back, completes the
    instruction without marking it committed, and leaves on the wire one
    redirect, for this instruction, to the PC the fault handler set. *)
Theorem commitInst_fault_inst inst early branch committed cmi s f :
  MinorDynInst.fault (deref s inst) = Some f ->
  (ThreadContext.status (getContext s (threadOf s inst)) = Suspended ->
   isInterrupted (threadOf s inst) s = true) ->
  let out := commitInst inst early branch committed cmi s in
  let r := fst out in
  let s' := snd out in
  ci_completed_inst r = true /\
  ci_fault r = Some f /\
  ci_committed r = committed /\
  ci_completed_mem_issue r = cmi /\
  BranchData.reason (ci_branch r) <> NoBranch /\
  BranchData.inst (ci_branch r) = inst /\
  BranchData.target (ci_branch r) =
    ThreadContext.pcState (getContext s' (threadOf s inst)) /\
  Execute.log s' = [EvBranch (ci_branch r); EvFaultInvoke f] ++ Execute.log s /\
  Execute.world s' =
    Fault_invoke f (threadOf s inst) None
      (Execute.world (ExecContext_new inst s)) /\
  Execute.stats s' = Execute.stats s /\
  Execute.lastPredictionSeqNum s' =
    InstId.predictionSeqNum (MinorDynInst.id (deref s inst)).
Proof.
  intros Hf Hrun out r s'. subst r s' out. unfold commitInst.
  assert (Hgo : bool_decide
                  (ThreadContext.status (getContext s (threadOf s inst)) =
                   Suspended) &&
                negb (isInterrupted (threadOf s inst) s) = false).
  { destruct (bool_decide_reflect
                (ThreadContext.status (getContext s (threadOf s inst)) =
                 Suspended)) as [Hs|Hs]; [|reflexivity].
    rewrite (Hrun Hs). reflexivity. }
  rewrite Hgo, Hf.
  rewrite tryToBranch_unfold, advance_target_fault.
  cbn [fst snd]. rewrite fault_implies_must.
  set (reason := branch_reason _ _ true _).
  assert (Hr : reason <> NoBranch) by apply branch_reason_must.
  rewrite updateBranchData_real by exact Hr.
  cbv zeta. cbn [ci_completed_inst ci_branch].
  assert (Hisf : forall s0,
            Execute.insts s0 = Execute.insts s ->
            MinorDynInst.isFault (deref s0 inst) = true).
  { intros s0 Hi. rewrite (deref_insts _ _ _ Hi).
    unfold MinorDynInst.isFault. rewrite Hf. reflexivity. }
  match goal with
  | |- context [negb (MinorDynInst.isFault (deref ?s2 inst))] =>
      rewrite (Hisf s2)
  end.
  2:{ destruct (Reason_isStreamChange reason); reflexivity. }
  cbn [negb andb fst snd ci_completed_inst ci_fault ci_committed
       ci_completed_mem_issue ci_branch BranchData.reason BranchData.inst
       BranchData.target].
  repeat split; try exact Hr;
    destruct (Reason_isStreamChange reason); try reflexivity;
    destruct inst; reflexivity.
Qed.

End CommitInstPaths.

Section CommitInstStalls.
Context `{IsaTypes} `{!Collaborators}.

(** X16.  [commitInst] leaves everything as it was, and reports the instruction
    as not completed with no fault, in two cases: the thread of the
    instruction is suspended with no interrupt pending; or the
    instruction is a memory barrier (not a fault, not a memory reference)
    and the store buffer has no room. *)
Theorem commitInst_stalls inst early branch committed cmi s :
  let thread := getContext s (threadOf s inst) in
  let i := deref s inst in
  (ThreadContext.status thread = Suspended /\
   isInterrupted (threadOf s inst) s = false) \/
  (MinorDynInst.fault i = None /\
   MinorDynInst.sflag StaticInst.isMemRef i = false /\
   isInst s inst = true /\
   MinorDynInst.sflag StaticInst.isMemBarrier i = true /\
   lsq_canPushIntoStoreBuffer (World.lsq (Execute.world s)) = false) ->
  commitInst inst early branch committed cmi s =
  ({| ci_completed_inst := false; ci_branch := branch;
      ci_fault := NoFault; ci_committed := committed;
      ci_completed_mem_issue := cmi |}, s).
Proof.
  intros thread i Hcase. subst thread i. unfold commitInst.
  destruct (bool_decide _ && negb (isInterrupted _ s)) eqn:Hsus;
    [reflexivity|].
  destruct Hcase as [[Hs Hi]|(Hf & Hm & Hin & Hb & Hp)].
  - rewrite bool_decide_eq_true_2, Hi in Hsus by exact Hs. discriminate.
  - rewrite Hf, Hm, Hin, Hb, Hp. reflexivity.
Qed.

(** X17.  [executeMemRefInst]: with no room in the memory queues nothing is
    done and the instruction is not issued; otherwise [initiateAcc] is
    called once, in a context whose PC is the instruction's, the
    instruction counts as issued, the thread gets back the PC it had, and
    the predicate is reported as passed only if the access raised no fault
    and left the predicate set. *)
Theorem executeMemRefInst_contract inst fault s :
  let tid := threadOf s inst in
  let out := executeMemRefInst inst fault s in
  let issued := fst (fst (fst out)) in
  let passed := snd (fst (fst out)) in
  let s' := snd out in
  issued = lsq_canRequest (World.lsq (Execute.world s)) /\
  (issued = false -> out = (false, false, fault, s)) /\
  (issued = true ->
   let started :=
     isa_initiateAcc (MinorDynInst.staticInst (deref s inst)) inst
       (Execute.world (ExecContext_new inst s)) in
   ThreadContext.pcState (getContext s' tid) =
     ThreadContext.pcState (getContext s tid) /\
   count_events is_arch_effect (Execute.log s') =
     S (count_events is_arch_effect (Execute.log s)) /\
   snd (fst out) =
     match fst started with Some f => Some f | None => fault end /\
   passed =
     match fst started with
     | Some _ => false
     | None => ThreadContext.predicate (World.threads (snd started) tid)
     end /\
   Execute.stats s' = Execute.stats s /\
   Execute.streamSeqNum s' = Execute.streamSeqNum s).
Proof.
  intros tid out issued passed s'. subst tid issued passed s' out.
  unfold executeMemRefInst.
  destruct (lsq_canRequest (World.lsq (Execute.world s))); cbn [negb].
  2:{ cbn. repeat split; auto; discriminate. }
  destruct (isa_initiateAcc _ _ _) as [init_fault w] eqn:Hini.
  destruct init_fault as [f|].
  - cbn. unfold getContext. cbn. rewrite fn_lookup_insert.
    repeat split; auto; discriminate.
  - cbn [fst snd].
    destruct (negb (ThreadContext.predicate _)) eqn:Hpred;
      cbn; unfold getContext; cbn; rewrite fn_lookup_insert;
      repeat split; auto; try discriminate;
      unfold getContext in Hpred; cbn in Hpred;
      destruct (ThreadContext.predicate _); first [reflexivity|discriminate].
Qed.

End CommitInstStalls.

(** * Interrupts, draining and the input buffer *)

Section Interrupts.
Context `{IsaTypes} `{!Collaborators}.


End Interrupts.

Section DrainRequests.
Context `{IsaTypes} `{!Collaborators}.

(** X19.  A request to drain is never satisfied at once: from [NotDraining],
    [drain] returns 1 whatever the queues hold; in any state it returns 0
    exactly when the engine it leaves is drained; asking again changes
    nothing and gives the same answer; and it touches no queue. *)
Theorem drain_request s :
  let out := drain s in
  (Execute.drainState s = NotDraining -> fst out = 1) /\
  (fst out = 0 <-> isDrained (snd out) = true) /\
  drain (snd out) = out /\
  Execute.inFlightInsts (snd out) = Execute.inFlightInsts s /\
  Execute.inputBuffer (snd out) = Execute.inputBuffer s /\
  Execute.world (snd out) = Execute.world s.
Proof.
  intros out. subst out. unfold drain.
  destruct (bool_decide_reflect (Execute.drainState s = NotDraining))
    as [Hn|Hn].
  - change (isInbetweenInsts (Execute.emit EvWakeup s))
      with (isInbetweenInsts s).
    destruct (isInbetweenInsts s); cbn;
      (split; [reflexivity|]); (split; [split; discriminate|]);
      repeat split; reflexivity.
  - cbn [fst snd]. split; [intros; contradiction|].
    rewrite bool_decide_eq_false_2 by exact Hn.
    destruct (isDrained s); cbn; repeat split; auto; discriminate.
Qed.


End DrainRequests.

Section Input.
Context `{IsaTypes} `{!Collaborators}.

Lemma discardInput_step fuel s :
  discardInput fuel s =
  match getInput s, fuel with
  | Some _, S fuel' => discardInput fuel' (popInput s)
  | _, _ => s
  end.
Proof. destruct fuel; reflexivity. Qed.

(** X21.  Dropping the input ([while (getInput()) popInput();]) with fuel for
    every line of the buffer: afterwards there is no input to get; what
    was dropped are the lines at the head of the buffer that were not
    bubbles, and the buffer is left empty, or with a bubble at its head.
    [popInput] on an empty buffer leaves it empty. *)
Theorem discardInput_stops fuel s :
  (length (Execute.inputBuffer s) <= fuel)%nat ->
  let s' := discardInput fuel s in
  getInput s' = None /\
  (exists dropped,
     Execute.inputBuffer s = dropped ++ Execute.inputBuffer s' /\
     Forall (fun line => ForwardInstData_isBubble line = false) dropped) /\
  match Execute.inputBuffer s' with
  | [] => True
  | line :: _ => ForwardInstData_isBubble line = true
  end /\
  (Execute.inputBuffer s = [] ->
   Execute.inputBuffer (popInput s) = [] /\
   Execute.inputIndex (popInput s) = 0).
Proof.
  intros Hfuel s'. subst s'.
  split; [|split; [|split]].
  - revert s Hfuel. induction fuel as [|fuel IH]; intros s Hfuel;
      rewrite discardInput_step.
    + destruct (getInput s) eqn:Hg; [|exact Hg].
      unfold getInput in Hg.
      destruct (Execute.inputBuffer s); [discriminate|simpl in Hfuel; lia].
    + destruct (getInput s) eqn:Hg; [|exact Hg].
      apply IH. unfold getInput in Hg. cbn.
      destruct (Execute.inputBuffer s); [discriminate|].
      simpl in Hfuel |- *. lia.
  - clear Hfuel. revert s. induction fuel as [|fuel IH]; intros s;
      rewrite discardInput_step.
    + destruct (getInput s); exists []; split; auto.
    + destruct (getInput s) eqn:Hg; [|exists []; split; auto].
      destruct (IH (popInput s)) as (dropped & Hd & Hall).
      unfold getInput in Hg.
      destruct (Execute.inputBuffer s) as [|line rest] eqn:Hb;
        [discriminate|].
      destruct (ForwardInstData_isBubble line) eqn:Hl; [discriminate|].
      exists (line :: dropped). split.
      * cbn in Hd. rewrite Hb in Hd. cbn in Hd. rewrite Hd at 1.
        reflexivity.
      * constructor; assumption.
  - assert (Hnone : getInput (discardInput fuel s) = None).
    { revert s Hfuel. induction fuel as [|fuel IH]; intros s Hfuel;
        rewrite discardInput_step.
      - destruct (getInput s) eqn:Hg; [|exact Hg].
        unfold getInput in Hg.
        destruct (Execute.inputBuffer s);
          [discriminate|simpl in Hfuel; lia].
      - destruct (getInput s) eqn:Hg; [|exact Hg].
        apply IH. unfold getInput in Hg. cbn.
        destruct (Execute.inputBuffer s); [discriminate|].
        simpl in Hfuel |- *. lia. }
    unfold getInput in Hnone.
    destruct (Execute.inputBuffer (discardInput fuel s)); [exact I|].
    destruct (ForwardInstData_isBubble f); [reflexivity|discriminate].
  - intros He. cbn. rewrite He. split; reflexivity.
Qed.

End Input.

(** * The cycle *)

Section Cycle.
Context `{IsaTypes} `{!Collaborators}.

Lemma discardInput_none fuel s :
  (length (Execute.inputBuffer s) <= fuel)%nat ->
  getInput (discardInput fuel s) = None.
Proof.
  revert s. induction fuel as [|fuel IH]; intros s Hfuel;
    rewrite discardInput_step.
  - destruct (getInput s) eqn:Hg; [|exact Hg].
    unfold getInput in Hg.
    destruct (Execute.inputBuffer s); [discriminate|simpl in Hfuel; lia].
  - destruct (getInput s) eqn:Hg; [|exact Hg].
    apply IH. unfold getInput in Hg. cbn.
    destruct (Execute.inputBuffer s); [discriminate|].
    simpl in Hfuel |- *. lia.
Qed.

Lemma discardInput_queues fuel s :
  Execute.inFlightInsts (discardInput fuel s) = Execute.inFlightInsts s.
Proof.
  revert s. induction fuel as [|fuel IH]; intros s;
    rewrite discardInput_step; destruct (getInput s); try reflexivity.
  rewrite IH. reflexivity.
Qed.

Lemma getInput_inputBuffer s s' :
  Execute.inputBuffer s' = Execute.inputBuffer s -> getInput s' = getInput s.
Proof. unfold getInput. intros ->. reflexivity. Qed.

(** X22.  A cycle of [evaluate] in [DrainAllInsts], entered with nothing on
    the output wire: whatever the input wire brings, nothing is issued;
    the in-flight queue only loses instructions at its head, no input is
    left to get, and the engine stays in [DrainAllInsts]. *)
Theorem evaluate_drains_all fuel inp branch s b' s' :
  Execute.drainState s = DrainAllInsts ->
  BranchData.isBubble branch = true ->
  evaluate fuel inp branch s = Done (b', s') ->
  (exists k, Execute.inFlightInsts s = k ++ Execute.inFlightInsts s') /\
  getInput s' = None /\
  Execute.drainState s' = DrainAllInsts.
Proof.
  intros Hd Hb. unfold evaluate.
  set (s0 := if ForwardInstData_isBubble inp then s else _).
  assert (Hs0 : Execute.drainState s0 = DrainAllInsts /\
               Execute.inFlightInsts s0 = Execute.inFlightInsts s)
    by (subst s0; destruct (ForwardInstData_isBubble inp); auto).
  set (insts_in := getInput s0). clearbody insts_in.
  set (s1 := Execute.emit EvLsqStep (Execute.upd_lsq lsq_step s0)).
  assert (Hs1 : Execute.drainState s1 = DrainAllInsts /\
               Execute.inFlightInsts s1 = Execute.inFlightInsts s)
    by exact Hs0.
  clearbody s1. clear Hs0. clearbody s0. destruct Hs1 as [Hd1 Hq1].
  assert (Hint : (if hasInterruptController (Execute.world s1)
                  then bool_decide (Execute.drainState s1 = NotDraining) &&
                       isInterrupted 0 s1
                  else false) = false).
  { rewrite Hd1. destruct (hasInterruptController _); reflexivity. }
  rewrite Hint. cbn [andb]. cbv iota. rewrite Hb. cbn [negb].
  unfold evaluate_commit_issue. rewrite Hd1.
  change (bool_decide (DrainAllInsts = NotDraining)) with false.
  change (bool_decide (DrainAllInsts = DrainCurrentInst)) with false.
  change (bool_decide (DrainAllInsts = DrainAllInsts)) with true.
  cbn [negb].
  set (sd := discardInput (length (Execute.inputBuffer s1)) s1).
  assert (Hnone : getInput sd = None)
    by (subst sd; apply discardInput_none; lia).
  assert (Hqd : Execute.inFlightInsts sd = Execute.inFlightInsts s)
    by (subst sd; rewrite discardInput_queues; exact Hq1).
  assert (Hdd : Execute.drainState sd = DrainAllInsts)
    by (subst sd; rewrite drain_discardInput; exact Hd1).
  clearbody sd.
  destruct (commit fuel false true branch sd) as [[b s3]| |] eqn:Hc;
    cbn [obind]; try discriminate.
  pose proof (ck_commit _ _ _ _ _ _ _ Hc) as Hk.
  pose proof (drain_commit _ _ _ _ _ _ _ Hc) as Hd3.
  assert (Hnone3 : getInput s3 = None)
    by (rewrite (getInput_inputBuffer sd s3 (ck_inputBuffer _ _ Hk));
        exact Hnone).
  assert (Hissue : issue false s3 = (0, s3))
    by (unfold issue; rewrite Hnone3; reflexivity).
  assert (Hr : (match insts_in with
                | Some _ =>
                    let '(num_issued, s2) := issue false s3 in
                    Done (num_issued, b, s2)
                | None => Done (0, b, s3)
                end) = Done (0, b, s3))
    by (destruct insts_in; [rewrite Hissue|]; reflexivity).
  rewrite Hr. cbn [obind].
  rewrite Hd3, Hdd.
  change (bool_decide (DrainAllInsts = DrainHaltFetch)) with false.
  cbv iota.
  destruct (match getInput s3 with Some _ => _ | None => _ end)
    as [next can].
  intros Hfin. apply Done_inj in Hfin. injection Hfin as _ <-.
  assert (Hfields : forall sx : Execute.t,
    Execute.inFlightInsts
      (if negb (BranchData.isBubble b)
       then Execute.emit EvActivity sx else sx) =
      Execute.inFlightInsts sx /\
    Execute.inputBuffer
      (if negb (BranchData.isBubble b)
       then Execute.emit EvActivity sx else sx) =
      Execute.inputBuffer sx /\
    Execute.drainState
      (if negb (BranchData.isBubble b)
       then Execute.emit EvActivity sx else sx) =
      Execute.drainState sx)
    by (intros sx; destruct (negb _); repeat split; reflexivity).
  destruct (ck_inFlightInsts _ _ Hk) as [k Ek].
  split; [|split].
  - exists k. rewrite <- Hqd, Ek.
    rewrite (proj1 (Hfields _)). destruct (_ || _); reflexivity.
  - rewrite <- Hnone3. apply getInput_inputBuffer.
    rewrite (proj1 (proj2 (Hfields _))). destruct (_ || _); reflexivity.
  - rewrite (proj2 (proj2 (Hfields _))).
    destruct (_ || _); cbn; rewrite Hd3; exact Hdd.
Qed.

Lemma isBubble_real (b : BranchData.t) :
  BranchData.reason b <> NoBranch -> BranchData.isBubble b = false.
Proof.
  intros Hr. unfold BranchData.isBubble.
  apply bool_decide_eq_false_2, Hr.
Qed.


End Cycle.

(** * Operand accesses inject at most one fault *)

Section OperandAccess.
Import ExecContext.
Variable Regs : Type.
Variable readIntReg : Regs -> Z -> Z.
Variable setIntReg : Z -> Z -> Regs -> Regs.
Variable NUM_INTREGS : Z.

Lemma faultyIDX_range (rnd : Z) :
  0 <= rnd ->
  0 <= faultyIDX NUM_INTREGS rnd < 33 \/
  faultyIDX NUM_INTREGS rnd = NUM_INTREGS.
Proof.
  intros Hr. unfold faultyIDX.
  assert (0 <= Z.rem rnd 34 < 34) by (apply Z.rem_bound_pos; lia).
  destruct (Z.eqb_spec (Z.rem rnd 34) 33); [right; reflexivity | left; lia].
Qed.

(** X24.  Reading an integer source operand is exact -- it returns what the
    thread's register holds and changes neither the register file nor the
    fault-injection state -- whenever a fault has been injected before, and
    whenever the access does not set [faultIsInjected] itself.  The access
    never changes anything of the fault-injection state but that flag, never
    clears it, and sets it only when the target number is the head of the
    in-flight instructions (or, for functional-unit faults, this
    instruction's) and one of the four injection modes is on.  Only the
    branch mode writes the register file. *)
Theorem readIntRegOperand_single_fault
    (src : Z) (execSeqNum : InstSeqNum) (isLoad isStore : bool) (rnd : Z)
    (fi : FI) (regs : Regs) :
  let out := readIntRegOperand Regs readIntReg setIntReg NUM_INTREGS
               src execSeqNum isLoad isStore rnd fi regs in
  let v := fst (fst out) in
  let fi' := snd (fst out) in
  let regs' := snd out in
  let exact := v = readIntReg regs src /\ fi' = fi /\ regs' = regs in
  (faultIsInjected fi = true -> exact) /\
  (faultIsInjected fi' = faultIsInjected fi -> exact) /\
  (fi' = fi \/ fi' = set_faultIsInjected true fi) /\
  (faultIsInjected fi = false -> faultIsInjected fi' = true ->
     (FItarget fi = headOfInFlightInst fi \/
      FItarget fi = execSeqNum /\ FUsFI fi = true) /\
     (pipelineRegisters fi = true /\ FItargetReg fi = src \/
      FUsFI fi = true \/ BranchsFI fi = true \/
      CMPsFI fi = true /\ isLoad = false /\ isStore = false)) /\
  (regs' = regs \/
   BranchsFI fi = true /\ v = readIntReg regs' src /\
   regs' = setIntReg src
             (wrap64 (flipped (readIntReg regs src) (faultyMask rnd)))
             regs).
Proof.
  unfold readIntRegOperand.
  destruct fi as [inj msk tgt treg cls hd pr fu br cm]; cbn.
  destruct inj; cbn.
  - destruct ((treg =? src) && negb msk && cls); cbn;
      repeat split; auto; discriminate.
  - destruct (Z.eqb_spec tgt hd) as [Eh|Eh]; cbn.
    + destruct (Z.eqb_spec treg src) as [Es|Es]; cbn;
        destruct pr, fu, br, cm, isLoad, isStore; cbn;
        repeat split; intros; auto 10; try discriminate.
    + destruct (Z.eqb_spec tgt execSeqNum) as [Ee|Ee]; cbn;
        destruct fu; cbn; repeat split; intros; auto 10;
        try discriminate; try (rewrite ?andb_false_r; auto; fail).
      all: rewrite ?andb_false_r; cbn; auto.
Qed.

(** X25.  Writing an integer destination operand always writes the value
    the instruction produced, and writes it to the instruction's own
    destination register unless this very access injects the register-pointer
    fault, in which case it goes to the randomly chosen register instead.
    Once a fault is injected the write is exact and marks the fault masked
    exactly when it overwrites the integer target register; the
    fault-injection flag is never cleared, and the functional-unit mode never
    alters a written value. *)
Theorem setIntRegOperand_single_fault
    (dest val rnd : Z) (fi : FI) (regs : Regs) :
  let out := setIntRegOperand Regs setIntReg NUM_INTREGS dest val rnd fi regs in
  let fi' := fst out in
  let regs' := snd out in
  (faultIsInjected fi' = faultIsInjected fi ->
     regs' = setIntReg dest val regs) /\
  (faultIsInjected fi = true ->
     regs' = setIntReg dest val regs /\
     faultIsInjected fi' = true /\
     (faultGetsMasked fi' = true <->
      faultGetsMasked fi = true \/
      FItargetReg fi = dest /\ FItargetRegClass_is_INTEGER fi = true)) /\
  (faultIsInjected fi = false ->
     (fi' = fi /\ regs' = setIntReg dest val regs) \/
     (fi' = set_faultIsInjected true fi /\
      regs' = setIntReg (faultyIDX NUM_INTREGS rnd) val regs /\
      pipelineRegisters fi = true /\ FItargetReg fi = dest /\
      FItarget fi = headOfInFlightInst fi)).
Proof.
  unfold setIntRegOperand.
  destruct fi as [inj msk tgt treg cls hd pr fu br cm]; cbn.
  destruct inj; cbn.
  - destruct (Z.eqb_spec treg dest) as [Es|Es]; cbn;
      destruct msk, cls; cbn; repeat split; intros; auto;
      try discriminate; intuition (try discriminate; try congruence).
  - destruct (Z.eqb_spec tgt hd) as [Eh|Eh]; cbn;
      [destruct (Z.eqb_spec treg dest) as [Es|Es]; cbn; [destruct pr|] |];
      cbn; rewrite ?andb_false_r; cbn;
      repeat split; intros; auto 10; try discriminate.
Qed.

End OperandAccess.

(** * The properties at work *)

Lemma cyclicIndex_modular_witness :
  (0 < 8 <= 2 ^ 31 + 1 /\ 0 <= 7 < 8) /\
  cyclicIndexInc 7 8 = (7 + 1) mod 8 /\
  cyclicIndexDec 7 8 = (7 - 1) mod 8.
Proof.
  assert (Hn : 0 < 8 <= 2 ^ 31 + 1) by lia.
  assert (Hi : 0 <= 7 < 8) by lia.
  split; [split; [exact Hn|exact Hi]|].
  exact (cyclicIndex_modular 7 8 Hn Hi).
Defined.

Lemma cyclicIndex_round_trip_witness :
  (0 < 8 <= 2 ^ 31 + 1 /\ 0 <= 0 < 8) /\
  cyclicIndexDec (cyclicIndexInc 0 8) 8 = 0 /\
  cyclicIndexInc (cyclicIndexDec 0 8) 8 = 0.
Proof.
  assert (Hn : 0 < 8 <= 2 ^ 31 + 1) by lia.
  assert (Hi : 0 <= 0 < 8) by lia.
  split; [split; [exact Hn|exact Hi]|].
  exact (cyclicIndex_round_trip 0 8 Hn Hi).
Defined.

Lemma cyclicIndex_out_of_range_witness :
  (0 <= 2 ^ 31 + 8 < 2 ^ 32 /\ 2 ^ 31 + 1 < 2 ^ 31 + 8) /\
  cyclicIndexDec (2 ^ 31 + 1) (2 ^ 31 + 8) = 2 ^ 31 + 8 - 1.
Proof.
  assert (Hn : 0 <= 2 ^ 31 + 8 < 2 ^ 32) by lia.
  assert (Hb : 2 ^ 31 + 1 < 2 ^ 31 + 8) by lia.
  split; [split; [exact Hn|exact Hb]|].
  exact (proj2 (proj2 (cyclicIndex_out_of_range 0 (2 ^ 31 + 8) Hn)) Hb).
Defined.

Lemma master_registers_witness :
  isSWIFTMasterReg Aarch64.X19 = true /\
  isZDCMasterReg Aarch64.X19 = true /\
  (0 <= Aarch64.X19 < 31 \/ Aarch64.X19 = Aarch64.SP).
Proof.
  assert (Hs : isSWIFTMasterReg Aarch64.X19 = true) by reflexivity.
  split; [exact Hs|].
  pose proof (proj1 (proj2 (master_registers Aarch64.X19)) Hs) as Hz.
  split; [exact Hz|].
  exact (proj1 (master_registers Aarch64.X19) Hz).
Defined.

(** [sub x6, x19, xzr] in [main] under SWIFT. *)
Lemma isUnnecessaryInst_flags_witness :
  let si := {| ru_name := "sub"; ru_srcRegs := [19; 31];
               ru_destRegs := [6] |} in
  isUnnecessaryInst true false true si = true /\
  (1 <= length (ru_destRegs si))%nat /\
  (2 <= length (ru_srcRegs si))%nat.
Proof.
  assert (Hu : isUnnecessaryInst true false true
                 {| ru_name := "sub"; ru_srcRegs := [19; 31];
                    ru_destRegs := [6] |} = true) by reflexivity.
  split; [exact Hu|].
  exact (proj1 (proj2 (isUnnecessaryInst_flags true false true _)) Hu).
Defined.

Section MoreWitnesses.
#[local] Existing Instance Demo.types.
#[local] Existing Instance Demo.collab.

(** The stale instruction at the head of the queue is retired. *)
Lemma commit_only_retires_witness :
  let s := Demo.stale_head_state in
  match commit 10 false false BranchData_bubble s with
  | Done (b, s') =>
      (exists k, Execute.inFlightInsts s = k ++ Execute.inFlightInsts s') /\
      (exists k, Execute.inFUMemInsts s = k ++ Execute.inFUMemInsts s') /\
      map FUPipeline.pipe (Execute.funcUnits s') =
        map FUPipeline.pipe (Execute.funcUnits s) /\
      Execute.inputBuffer s' = Execute.inputBuffer s /\
      Execute.inputIndex s' = Execute.inputIndex s /\
      Execute.params s' = Execute.params s
  | _ => False
  end.
Proof.
  pose proof (commit_only_retires 10 false false BranchData_bubble
                Demo.stale_head_state) as Hthm.
  cbv zeta.
  destruct (commit 10 false false BranchData_bubble Demo.stale_head_state)
    as [[b s']| |] eqn:E.
  - exact (Hthm b s' eq_refl).
  - vm_compute in E. discriminate.
  - vm_compute in E. discriminate.
Defined.

(** One ALU instruction commits: one instruction, one operation. *)
Lemma commit_counts_up_witness :
  let s := DemoMore.committing_state in
  match commit 10 false false BranchData_bubble s with
  | Done (b, s') =>
      Stats.numInsts (Execute.stats s') = 1 /\
      0 <= Stats.numInsts (Execute.stats s') - Stats.numInsts (Execute.stats s)
        <= Stats.numOps (Execute.stats s') - Stats.numOps (Execute.stats s)
  | _ => False
  end.
Proof.
  pose proof (commit_counts_up 10 false false BranchData_bubble
                DemoMore.committing_state) as Hthm.
  cbv zeta.
  destruct (commit 10 false false BranchData_bubble DemoMore.committing_state)
    as [[b s']| |] eqn:E.
  - split; [|exact (proj1 (Hthm b s' eq_refl))].
    vm_compute in E. injection E as _ <-. reflexivity.
  - vm_compute in E. discriminate.
  - vm_compute in E. discriminate.
Defined.

Lemma commit_nothing_to_do_witness :
  Execute.inFlightInsts Demo.engine = [] /\
  commit 0 false false BranchData_bubble Demo.engine =
    Done (BranchData_bubble, Demo.engine).
Proof.
  assert (Hq : Execute.inFlightInsts Demo.engine = []) by reflexivity.
  split; [exact Hq|].
  exact (commit_nothing_to_do 0 false false BranchData_bubble Demo.engine
           (or_introl Hq)).
Defined.

Lemma issue_within_limits_witness :
  let s := Demo.two_lines_state in
  (1 <= Execute.issueLimit s < 2 ^ 32 /\
   1 <= Execute.memoryIssueLimit s < 2 ^ 32) /\
  0 <= fst (issue false s) <= Execute.issueLimit s /\
  Z.of_nat (length (Execute.inFlightInsts (snd (issue false s)))) <=
    Z.of_nat (length (Execute.inFlightInsts s)) + fst (issue false s).
Proof.
  cbv zeta.
  assert (Hi : 1 <= Execute.issueLimit Demo.two_lines_state < 2 ^ 32)
    by (vm_compute; split; [discriminate|reflexivity]).
  assert (Hm : 1 <= Execute.memoryIssueLimit Demo.two_lines_state < 2 ^ 32)
    by (vm_compute; split; [discriminate|reflexivity]).
  split; [split; [exact Hi|exact Hm]|].
  destruct (issue_within_limits false Demo.two_lines_state Hi Hm)
    as (Hn & Hq & _).
  split; [exact Hn|exact Hq].
Defined.

(** Two functional units: one step of fuel is as good as fifty. *)
Lemma issue_to_fus_terminates_witness :
  let s := Demo.slow_state in
  length (Execute.funcUnits s) = 2%nat /\
  issue_to_fus 50 (Ptr 1) 0 s =
  issue_to_fus (length (Execute.funcUnits s) - 1) (Ptr 1) 0 s.
Proof.
  cbv zeta. split; [reflexivity|].
  apply (issue_to_fus_terminates (Ptr 1) Demo.slow_state 50).
  - vm_compute. repeat constructor.
  - vm_compute. reflexivity.
  - vm_compute. repeat constructor.
Defined.

Lemma issue_loop_terminates_witness :
  let s := Demo.two_lines_state in
  let v := {| iv_insts_in := Some [Ptr 1; BubblePtr]; iv_fu_index := 0;
              iv_issued := true; iv_num_insts_issued := 0;
              iv_num_mem_insts_issued := 0;
              iv_num_insts_discarded := 0 |} in
  input_ok [Ptr 1; BubblePtr] s /\
  issue_loop 50 false [Ptr 1; BubblePtr] v s =
  issue_loop (issue_fuel s) false [Ptr 1; BubblePtr] v s.
Proof.
  cbv zeta.
  assert (Hok : input_ok [Ptr 1; BubblePtr] Demo.two_lines_state).
  { split; [reflexivity|]. split.
    - vm_compute. split; [discriminate|reflexivity].
    - repeat constructor. }
  split; [exact Hok|].
  apply (issue_loop_terminates 50 false [Ptr 1; BubblePtr] _
           Demo.two_lines_state Hok).
  vm_compute. repeat constructor.
Defined.

(** A jump that was not predicted: the stream number goes from 1 to 2
    and the branch carries 2. *)
Lemma commit_changes_stream_once_witness :
  let s := DemoMore.mispredicted_state in
  match commit 10 false false BranchData_bubble s with
  | Done (b', s') =>
      BranchData.isStreamChange b' = true /\
      Execute.streamSeqNum s = 1 /\
      if BranchData.isStreamChange b'
      then Execute.streamSeqNum s' = InstSeqNum_inc (Execute.streamSeqNum s) /\
           BranchData.newStreamSeqNum b' = Execute.streamSeqNum s'
      else Execute.streamSeqNum s' = Execute.streamSeqNum s
  | _ => False
  end.
Proof.
  pose proof (commit_changes_stream_once 10 false false BranchData_bubble
                DemoMore.mispredicted_state) as Hthm.
  cbv zeta.
  destruct (commit 10 false false BranchData_bubble
              DemoMore.mispredicted_state) as [[b' s']| |] eqn:E.
  - split; [|split; [reflexivity|exact (Hthm b' s' eq_refl eq_refl)]].
    vm_compute in E. injection E as <- _. reflexivity.
  - vm_compute in E. discriminate.
  - vm_compute in E. discriminate.
Defined.

Lemma commitInst_fault_inst_witness :
  let s := DemoMore.faulted_fetch_state in
  let out := commitInst (Ptr 1) false BranchData_bubble false false s in
  MinorDynInst.fault (deref s (Ptr 1)) = Some 800 /\
  ci_completed_inst (fst out) = true /\
  ci_fault (fst out) = Some 800 /\
  ci_committed (fst out) = false /\
  BranchData.reason (ci_branch (fst out)) <> NoBranch /\
  Execute.stats (snd out) = Execute.stats s.
Proof.
  cbv zeta.
  assert (Hf : MinorDynInst.fault
                 (deref DemoMore.faulted_fetch_state (Ptr 1)) = Some 800)
    by reflexivity.
  assert (Ha : ThreadContext.status
                 (getContext DemoMore.faulted_fetch_state
                    (threadOf DemoMore.faulted_fetch_state (Ptr 1))) =
               Suspended ->
               isInterrupted (threadOf DemoMore.faulted_fetch_state (Ptr 1))
                 DemoMore.faulted_fetch_state = true)
    by (intros Hs; vm_compute in Hs; discriminate).
  split; [exact Hf|].
  destruct (commitInst_fault_inst (Ptr 1) false BranchData_bubble false false
              DemoMore.faulted_fetch_state 800 Hf Ha)
    as (H1 & H2 & H3 & _ & H5 & _ & _ & _ & _ & H10 & _).
  repeat split; assumption.
Defined.

Lemma commitInst_stalls_witness :
  let s := DemoMore.suspended_state in
  (ThreadContext.status (getContext s (threadOf s (Ptr 1))) = Suspended /\
   isInterrupted (threadOf s (Ptr 1)) s = false) /\
  commitInst (Ptr 1) false BranchData_bubble false false s =
  ({| ci_completed_inst := false; ci_branch := BranchData_bubble;
      ci_fault := NoFault; ci_committed := false;
      ci_completed_mem_issue := false |}, s).
Proof.
  cbv zeta.
  assert (Hs :
    ThreadContext.status
      (getContext DemoMore.suspended_state
         (threadOf DemoMore.suspended_state (Ptr 1))) = Suspended /\
    isInterrupted (threadOf DemoMore.suspended_state (Ptr 1))
      DemoMore.suspended_state = false)
    by (split; reflexivity).
  split; [exact Hs|].
  exact (commitInst_stalls (Ptr 1) false BranchData_bubble false false
           DemoMore.suspended_state (or_introl Hs)).
Defined.

Lemma discardInput_stops_witness :
  let s := Demo.two_lines_state in
  (length (Execute.inputBuffer s) <= 2)%nat /\
  getInput (discardInput 2 s) = None /\
  exists dropped,
    Execute.inputBuffer s =
      dropped ++ Execute.inputBuffer (discardInput 2 s) /\
    Forall (fun line => ForwardInstData_isBubble line = false) dropped.
Proof.
  cbv zeta.
  assert (Hl : (length (Execute.inputBuffer Demo.two_lines_state) <= 2)%nat)
    by (vm_compute; repeat constructor).
  split; [exact Hl|].
  destruct (discardInput_stops 2 Demo.two_lines_state Hl) as (Hn & Hd & _).
  split; [exact Hn|exact Hd].
Defined.

Lemma evaluate_drains_all_witness :
  let s := DemoMore.draining_all_state in
  match evaluate 10 [] BranchData_bubble s with
  | Done (b', s') =>
      Execute.inputBuffer s = [[Ptr 2; BubblePtr]] /\
      (exists k, Execute.inFlightInsts s = k ++ Execute.inFlightInsts s') /\
      getInput s' = None /\
      Execute.drainState s' = DrainAllInsts
  | _ => False
  end.
Proof.
  pose proof (evaluate_drains_all 10 [] BranchData_bubble
                DemoMore.draining_all_state) as Hthm.
  cbv zeta.
  destruct (evaluate 10 [] BranchData_bubble DemoMore.draining_all_state)
    as [[b' s']| |] eqn:E.
  - split; [reflexivity|]. exact (Hthm b' s' eq_refl eq_refl eq_refl).
  - vm_compute in E. discriminate.
  - vm_compute in E. discriminate.
Defined.

End MoreWitnesses.

Section InterruptWitness.
#[local] Existing Instance Demo.types.
#[local] Existing Instance DemoMore.interrupting.


End InterruptWitness.
